(** * CPVS monitoring API runner: probe executor and report aggregator

    A shallow embedding of [monitor_apis.py] (the [APIMonitor] class and
    its [main]), of the demo runner [demo_monitor.py] and of the exit path
    of [email_report.py], with the properties of the probe-and-aggregate
    engine proved over it.

    Conventions of the embedding:
    - Python [dict]s that the code builds and inspects by key (endpoint
      descriptors, probe results) are finite maps [gmap string _]: a key
      that is absent raises [KeyError] where the code indexes with
      [d['k']] and yields the default where it calls [d.get].
    - Python [float] is IEEE 754 binary64, taken from the Standard
      Library's [SpecFloat] with [prec = 53] and [emax = 1024]; every
      operation rounds to nearest, ties to even, as the interpreter does.
    - Code that can raise runs in the error monad [Result]; a [try] block
      is a [match] on the [Result] of its body.
    - Python [str] is held as its UTF-8 encoding, and is sliced by
      characters.
    - The network, the clocks, the file system, the order in which the
      thread pool completes its futures, the interpreter version (on
      which the built-in [sum] depends) and what [argparse] makes of the
      command line are inputs of the model. *)

From Stdlib Require Import ZArith String Ascii List Bool Lia.
From Stdlib Require Import SpecFloat.
From stdpp Require Import base option list gmap strings sorting pretty fin_maps.

Local Open Scope Z_scope.
Local Open Scope string_scope.
Local Open Scope list_scope.

(** ** Binary64 arithmetic *)

Module Float.

Abbreviation float := spec_float.

Definition prec : Z := 53.
Definition emax : Z := 1024.

Definition add : float → float → float := SFadd prec emax.
Definition sub : float → float → float := SFsub prec emax.
Definition mul : float → float → float := SFmul prec emax.
Definition div : float → float → float := SFdiv prec emax.

(** The double nearest to an integer ([float(n)] on a Python [int]). *)
Definition of_Z (n : Z) : float := binary_normalize prec emax n 0 false.

(** The double nearest to the quotient [n / d] of two integers, [d > 0]:
    the quotient is formed exactly and rounded once. *)
Definition of_quotient (n : Z) (d : positive) : float :=
  match n with
  | Z0 => S754_zero false
  | Zpos p =>
      let '(mz, ez, lz) := SFdiv_core_binary prec emax (Zpos p) 0 (Zpos d) 0 in
      binary_round_aux prec emax false mz ez lz
  | Zneg p =>
      let '(mz, ez, lz) := SFdiv_core_binary prec emax (Zpos p) 0 (Zpos d) 0 in
      binary_round_aux prec emax true mz ez lz
  end.

(** [round_half_even n d] is the integer nearest to [n / d] for [n ≥ 0]
    and [d > 0], ties going to the even neighbour. *)
Definition round_half_even (n d : Z) : Z :=
  let q := n / d in
  let r := n mod d in
  match (2 * r) ?= d with
  | Lt => q
  | Gt => q + 1
  | Eq => if Z.even q then q else q + 1
  end.

(** The magnitude of a finite double in hundredths, rounded half-even on
    its exact binary value: the digits that both [round(x, 2)] and the
    [.2f] format produce. *)
Definition hundredths (m : positive) (e : Z) : Z :=
  match e with
  | Zneg k => round_half_even (100 * Zpos m) (2 ^ Zpos k)
  | _ => 100 * Zpos m * 2 ^ e
  end.

(** [round(x, 2)] on a float: the decimal with two places nearest to
    [x], converted back to the nearest double. *)
Definition round2 (x : float) : float :=
  match x with
  | S754_finite s m e =>
      match hundredths m e with
      | Z0 => S754_zero s
      | h => of_quotient (if s then - h else h) 100
      end
  | _ => x
  end.

Definition digit2 (n : Z) : string :=
  pretty (n / 10) +:+ pretty (n mod 10).

(** The [.2f] presentation of a float. *)
Definition format_2f (x : float) : string :=
  match x with
  | S754_nan => "nan"
  | S754_infinity s => if s then "-inf" else "inf"
  | S754_zero s => (if s then "-" else "") +:+ "0.00"
  | S754_finite s m e =>
      let h := hundredths m e in
      (if s then "-" else "") +:+ pretty (h / 100) +:+ "." +:+ digit2 (h mod 100)
  end.

End Float.

Global Arguments Float.add : simpl never.
Global Arguments Float.sub : simpl never.
Global Arguments Float.mul : simpl never.
Global Arguments Float.div : simpl never.
Global Arguments Float.of_Z : simpl never.
Global Arguments Float.of_quotient : simpl never.
Global Arguments Float.round2 : simpl never.
Global Arguments Float.format_2f : simpl never.

(** ** Exceptions and the error monad *)

(** The exceptions that the modelled code raises itself or receives from
    the libraries it calls.  [RequestException t c msg] is an exception of
    the [requests] library: [t] tells whether it is an instance of
    [requests.exceptions.Timeout], [c] whether it is an instance of
    [requests.exceptions.ConnectionError] (a [ConnectTimeout] is both).
    All of them are subclasses of [Exception]; [KeyboardInterrupt] and
    [SystemExit], which are not, stay outside the model. *)
Inductive exn : Type :=
  | KeyError (key : string)
  | TypeError
  | ValueError
  | OverflowError
  | FileNotFoundError (path : string)
  | RequestException (timeout connection : bool) (msg : string)
  | OtherException (msg : string).

(** [isinstance(e, requests.exceptions.Timeout)] *)
Definition is_Timeout (e : exn) : bool :=
  match e with RequestException t _ _ => t | _ => false end.

(** [isinstance(e, requests.exceptions.ConnectionError)] *)
Definition is_ConnectionError (e : exn) : bool :=
  match e with RequestException _ c _ => c | _ => false end.

(** [str(e)] *)
Definition exn_str (e : exn) : string :=
  match e with
  | KeyError k => "'" +:+ k +:+ "'"
  | TypeError => "unsupported operand type(s)"
  | ValueError => "max_workers must be greater than 0"
  | OverflowError => "int too large to convert to float"
  | FileNotFoundError p => "[Errno 2] No such file or directory: '" +:+ p +:+ "'"
  | RequestException _ _ msg => msg
  | OtherException msg => msg
  end.

Inductive Result (A : Type) : Type :=
  | Ok (a : A)
  | Raise (e : exn).
Arguments Ok {A} a.
Arguments Raise {A} e.

Global Instance Result_ret : MRet Result := λ A a, Ok a.

Global Instance Result_fmap : FMap Result := λ A B f c,
  match c with
  | Ok a => Ok (f a)
  | Raise e => Raise e
  end.

Global Instance Result_bind : MBind Result := λ A B k c,
  match c with
  | Ok a => k a
  | Raise e => Raise e
  end.

(** [mapM f l] runs [f] on the elements of [l] from left to right and
    stops at the first exception. *)
Fixpoint mapM {A B : Type} (f : A → Result B) (l : list A) : Result (list B) :=
  match l with
  | [] => Ok []
  | x :: l' => y ← f x; ys ← mapM f l'; Ok (y :: ys)
  end.

(** ** Values *)

(** Parsed JSON, as [json.load] and [response.json()] return it and as the
    [json=] argument of a request takes it.  The runner stores such
    payloads and never looks inside them. *)
#[warnings="-register-all"]
Inductive json : Type :=
  | JNull
  | JBool (b : bool)
  | JInt (n : Z)
  | JStr (s : string)
  | JList (l : list json)
  | JDict (d : list (string * json)).

(** The values found under the keys of a probe result. *)
Inductive value : Type :=
  | VInt (n : Z)
  | VFloat (x : Float.float)
  | VStr (s : string)
  | VJson (j : json).

(** A probe result is the [dict] that [call_api] returns. *)
Abbreviation probe_result := (gmap string value).

(** [d[k]] *)
Definition getitem {V : Type} (d : gmap string V) (k : string) : Result V :=
  match d !! k with
  | Some v => Ok v
  | None => Raise (KeyError k)
  end.

(** [d.update(u)]: the keys of [u] overwrite those of [d]. *)
Definition update (d u : probe_result) : probe_result := u ∪ d.

(** [v == s] for a string literal [s]. *)
Definition eq_str (v : value) (s : string) : bool :=
  match v with
  | VStr t => String.eqb t s
  | _ => false
  end.

(** ** Arithmetic and ordering on values *)

(** [float(n)]: Python raises [OverflowError] beyond the double range. *)
Definition float_of_int (n : Z) : Result Float.float :=
  match Float.of_Z n with
  | S754_infinity _ => Raise OverflowError
  | x => Ok x
  end.

(** [a + b]: integers add exactly, a float absorbs an integer after
    conversion, anything else is a [TypeError]. *)
Definition py_add (a b : value) : Result value :=
  match a, b with
  | VInt m, VInt n => Ok (VInt (m + n))
  | VInt m, VFloat y => x ← float_of_int m; Ok (VFloat (Float.add x y))
  | VFloat x, VInt n => y ← float_of_int n; Ok (VFloat (Float.add x y))
  | VFloat x, VFloat y => Ok (VFloat (Float.add x y))
  | _, _ => Raise TypeError
  end.

(** The program names no interpreter version, and the built-in [sum]
    depends on it: on a run of floats, CPython before 3.12 adds from left
    to right, and CPython from 3.12 on carries Neumaier's compensation
    along.  The interpreter is therefore an input of the model. *)
Inductive interpreter : Type :=
  | Before_3_12
  | From_3_12.

(** An [int] that fits a C [long] (of 64 bits, as on Linux and macOS). *)
Definition fits_long (n : Z) : bool := (- 2 ^ 63 <=? n)%Z && (n <? 2 ^ 63)%Z.

(** [sum] on objects of any type: a left fold of [+]. *)
Definition sum_objects (start : value) (l : list value) : Result value :=
  foldl (λ acc v, a ← acc; py_add a v) (Ok start) l.

(** The compensation after [t = f + x] has been formed: from 3.12 on, the
    rounding error of that addition is added to [c]; before, nothing is
    kept. *)
Definition compensate (py : interpreter) (f c x t : Float.float) : Float.float :=
  match py with
  | Before_3_12 => c
  | From_3_12 =>
      if SFleb (SFabs x) (SFabs f)
      then Float.add c (Float.add (Float.sub f t) x)
      else Float.add c (Float.add (Float.sub x t) f)
  end.

(** The total when the run of floats ends: the compensation is added
    when it is finite and not zero. *)
Definition compensated (f c : Float.float) : Float.float :=
  match c with
  | S754_finite _ _ _ => Float.add f c
  | _ => f
  end.

(** The loop of [sum] while the total is a float: [f] is the total and
    [c] the compensation.  A float is added with its compensation, an
    [int] that fits a [long] is converted and added; on anything else
    the loop is left for the general one. *)
Fixpoint sum_floats (py : interpreter) (f c : Float.float) (l : list value)
    : Result value :=
  match l with
  | [] => Ok (VFloat (compensated f c))
  | VFloat x :: l' =>
      let t := Float.add f x in
      sum_floats py t (compensate py f c x t) l'
  | VInt n :: l' =>
      if fits_long n then sum_floats py (Float.add f (Float.of_Z n)) c l'
      else sum_objects (VFloat (compensated f c)) l
  | _ => sum_objects (VFloat (compensated f c)) l
  end.

(** The loop of [sum] while the total is an [int] that fits a [long]:
    the first item that is no such [int] is added with [+], and the loop
    goes on with floats if that made a float, with objects otherwise. *)
Fixpoint sum_ints (py : interpreter) (i : Z) (l : list value) : Result value :=
  match l with
  | [] => Ok (VInt i)
  | VInt n :: l' =>
      if fits_long n && fits_long (i + n) then sum_ints py (i + n) l'
      else sum_objects (VInt (i + n)) l'
  | v :: l' =>
      r ← py_add (VInt i) v;
      match r with
      | VFloat f => sum_floats py f (S754_zero false) l'
      | _ => sum_objects r l'
      end
  end.

(** [sum(l)], from the integer [0]. *)
Definition py_sum (py : interpreter) (l : list value) : Result value :=
  sum_ints py 0 l.

(** [m / n] on integers with [n > 0]: the correctly rounded quotient. *)
Definition int_truediv (m : Z) (n : positive) : Result Float.float :=
  match Float.of_quotient m n with
  | S754_infinity _ => Raise OverflowError
  | x => Ok x
  end.

(** [v / n] where [n] is the length of a non-empty list, which is far
    inside the double range. *)
Definition py_div_len (v : value) (n : positive) : Result Float.float :=
  match v with
  | VInt m => int_truediv m n
  | VFloat x => Ok (Float.div x (Float.of_Z (Zpos n)))
  | _ => Raise TypeError
  end.

(** The exact comparison of an integer with a finite double. *)
Definition Z_compare_finite (n : Z) (s : bool) (m : positive) (e : Z) : comparison :=
  let mz := if s then Zneg m else Zpos m in
  match e with
  | Zneg k => (n * 2 ^ Zpos k ?= mz)%Z
  | _ => (n ?= mz * 2 ^ e)%Z
  end.

Definition Z_compare_float (n : Z) (x : Float.float) : option comparison :=
  match x with
  | S754_nan => None
  | S754_infinity s => Some (if s then Gt else Lt)
  | S754_zero _ => Some (n ?= 0)%Z
  | S754_finite s m e => Some (Z_compare_finite n s m e)
  end.

(** [a < b] as the sort uses it.  Strings compare by code point, which on
    UTF-8 text is the order of the encoded bytes; numbers compare by
    value; every other pair of values is reported as a [TypeError]. *)
Definition py_lt (a b : value) : Result bool :=
  match a, b with
  | VStr s, VStr t => Ok (String.ltb s t)
  | VInt m, VInt n => Ok (m <? n)%Z
  | VFloat x, VFloat y => Ok (SFltb x y)
  | VInt m, VFloat y =>
      Ok (match Z_compare_float m y with Some Lt => true | _ => false end)
  | VFloat x, VInt n =>
      Ok (match Z_compare_float n x with Some Gt => true | _ => false end)
  | _, _ => Raise TypeError
  end.

(** ** Configuration, monitor state and environment *)

(** An endpoint descriptor, one entry of [monitoring_apis].  The keys that
    hold strings ([name], [method], [endpoint], [description]) live in a
    finite map, so that any of them can be missing; the optional [params]
    and [body] payloads are kept beside it. *)
Record api_config : Type := ApiConfig {
  api_fields : gmap string string;
  api_params : option json;
  api_body : option json
}.

(** The configuration file once loaded: each key may be absent. *)
Record config_file : Type := ConfigFile {
  cfg_base_url : option string;
  cfg_monitoring_apis : option (list api_config);
  cfg_timeout : option json
}.

(** The attributes of an [APIMonitor] instance. *)
Record APIMonitor : Type := Monitor {
  config : config_file;
  results : list probe_result;
  base_url : option string
}.

(** [APIMonitor(config_file)] once the file has been read. *)
Definition init (cfg : config_file) : APIMonitor :=
  {| config := cfg; results := []; base_url := None |}.

(** The three ways in which [call_api] reaches the network. *)
Inductive http_call : Type :=
  | requests_get (url : string) (params timeout : json)
  | requests_post (url : string) (params body timeout : json)
  | requests_request (method url : string) (params body timeout : json).

(** What [response.json()] does: it returns the parsed body, raises
    [json.JSONDecodeError], or raises an exception of another class. *)
Inductive json_outcome : Type :=
  | JsonValue (j : json)
  | JsonDecodeError
  | JsonRaises (e : exn).

Record response : Type := Response {
  status_code : Z;
  content : string;
  content_type : option string;
  text : string;
  json_body : json_outcome
}.

(** What one probe observes of the outside world: the wall clock when the
    result record is created, [time.time()] before and after the request,
    and the answer of the network, which is a response or an exception. *)
Record probe_env : Type := ProbeEnv {
  now : string;
  start_time : Float.float;
  end_time : Float.float;
  send : http_call → Result response
}.

(** ** Strings *)

(** [s.replace(old, new)] for a non-empty [old]: occurrences are replaced
    from left to right without overlap; [skip] counts the characters of a
    matched occurrence that remain to be dropped. *)
Fixpoint replace_go (old new : string) (skip : nat) (s : string) : string :=
  match s with
  | EmptyString => EmptyString
  | String c s' =>
      match skip with
      | S k => replace_go old new k s'
      | O =>
          if String.prefix old s
          then new +:+ replace_go old new (Nat.pred (String.length old)) s'
          else String c (replace_go old new 0 s')
      end
  end.

Definition replace (old new s : string) : string := replace_go old new 0 s.

(** A Python [str] is held as its UTF-8 encoding, so that a character
    takes one to four elements of the Rocq string: a byte of the form
    [10xxxxxx] continues a character, every other byte starts one. *)
Definition continues_char (c : ascii) : bool :=
  let n := nat_of_ascii c in (128 <=? n)%nat && (n <? 192)%nat.

(** [len(s)] on a [str]: the number of its characters. *)
Fixpoint char_length (s : string) : nat :=
  match s with
  | EmptyString => O
  | String c s' => if continues_char c then char_length s' else S (char_length s')
  end.

(** [s[:n]] on a [str]: its first [n] characters, each with all its
    bytes. *)
Fixpoint take_chars (n : nat) (s : string) : string :=
  match s with
  | EmptyString => EmptyString
  | String c s' =>
      if continues_char c then String c (take_chars n s')
      else match n with
           | O => EmptyString
           | S n' => String c (take_chars n' s')
           end
  end.

(** [f"{x}"] for an attribute that is a string or [None]. *)
Definition str_of_option (x : option string) : string := default "None" x.

(** ** The probe executor *)

(** [set_domain] *)
Definition set_domain (self : APIMonitor) (domain : string) : Result APIMonitor :=
  match cfg_base_url (config self) with
  | None => Raise (KeyError "base_url")
  | Some base_url_template =>
      Ok {| config := config self;
            results := results self;
            base_url := Some (replace "{{cpvs.services.domain}}" domain base_url_template) |}
  end.

(** The body of the [try] block of [call_api].  It returns the [result]
    dictionary as the block leaves it, together with the exception that
    ended the block, if any: the dictionary is updated in place, so what
    was written before an exception stays written. *)
Definition try_request (env : probe_env) (call : http_call) (result : probe_result)
    : probe_result * option exn :=
  match send env call with
  | Raise e => (result, Some e)
  | Ok response =>
      let elapsed_time := Float.sub (end_time env) (start_time env) in
      let result :=
        update result
          (<["status" := VStr "SUCCESS"]>
           (<["status_code" := VInt (status_code response)]>
            (<["response_time_ms" :=
                 VFloat (Float.round2 (Float.mul elapsed_time (Float.of_Z 1000)))]>
             (<["response_size_bytes" := VInt (Z.of_nat (String.length (content response)))]>
              (<["content_type" := VStr (default "N/A" (content_type response))]> ∅))))) in
      match json_body response with
      | JsonValue j => (<["response_data" := VJson j]> result, None)
      | JsonDecodeError =>
          (<["response_data" := VStr (take_chars 500 (text response))]> result, None)
      | JsonRaises e => (result, Some e)
      end
  end.

(** The [except] clauses of [call_api], tried in the order of the source. *)
Definition handle (result : probe_result) (e : exn) : probe_result :=
  if is_Timeout e then
    <["error" := VStr "Request timed out"]> (<["status" := VStr "TIMEOUT"]> result)
  else if is_ConnectionError e then
    <["error" := VStr (exn_str e)]> (<["status" := VStr "CONNECTION_ERROR"]> result)
  else
    <["error" := VStr (exn_str e)]> (<["status" := VStr "ERROR"]> result).

(** The request that [call_api] issues: [requests.get] for [GET],
    [requests.post] for [POST], [requests.request] for any other method;
    the timeout is [self.config.get('timeout', 30)]. *)
Definition dispatch (self : APIMonitor) (method url : string) (params body : json)
    : http_call :=
  let timeout := default (JInt 30) (cfg_timeout (config self)) in
  if String.eqb method "GET" then requests_get url params timeout
  else if String.eqb method "POST" then requests_post url params body timeout
  else requests_request method url params body timeout.

(** [call_api] *)
Definition call_api (self : APIMonitor) (api_config : api_config) (env : probe_env)
    : Result probe_result :=
  name ← getitem (api_fields api_config) "name";
  method ← getitem (api_fields api_config) "method";
  endpoint ← getitem (api_fields api_config) "endpoint";
  let params := default (JDict []) (api_params api_config) in
  let body := default (JDict []) (api_body api_config) in
  let url := str_of_option (base_url self) +:+ endpoint in
  let result : probe_result :=
    <["name" := VStr name]>
    (<["endpoint" := VStr endpoint]>
     (<["method" := VStr method]>
      (<["url" := VStr url]>
       (<["description" := VStr (default "" (api_fields api_config !! "description"))]>
        (<["timestamp" := VStr (now env)]> ∅))))) in
  match try_request env (dispatch self method url params body) result with
  | (result, None) => Ok result
  | (result, Some e) => Ok (handle result e)
  end.

(** The order in which [as_completed] yields the submitted futures is
    decided by the scheduler: at every turn, [sched] names which of the
    futures still pending is the next to be yielded (taken modulo their
    number).  Every future is yielded once. *)
Fixpoint as_completed {A : Type} (fuel : nat) (sched : list nat) (pending : list A) : list A :=
  match fuel with
  | O => []
  | S fuel' =>
      let i := (hd 0%nat sched `mod` length pending)%nat in
      match pending !! i with
      | Some future => future :: as_completed fuel' (tl sched) (delete i pending)
      | None => []
      end
  end.

(** The loop [for future in as_completed(...)]: [future.result()] returns
    the probe result or re-raises what the call raised; a result is
    appended to [self.results]. *)
Fixpoint collect (futures : list (Result probe_result)) (acc : list probe_result)
    : Result (list probe_result) :=
  match futures with
  | [] => Ok acc
  | future :: rest => r ← future; collect rest (acc ++ [r])
  end.

(** [run_all_apis].  [world i] is the environment of the probe submitted
    in position [i].  A [ThreadPoolExecutor] refuses a worker count that is
    not positive.  The method returns [self.results], which the monitor
    keeps. *)
Definition run_all_apis (self : APIMonitor) (max_workers : Z)
    (world : nat → probe_env) (sched : list nat) : Result (APIMonitor * list probe_result) :=
  apis ← match cfg_monitoring_apis (config self) with
         | Some apis => Ok apis
         | None => Raise (KeyError "monitoring_apis")
         end;
  if (max_workers <=? 0)%Z then Raise ValueError else
  let futures := imap (λ i api, call_api self api (world i)) apis in
  rs ← collect (as_completed (length futures) sched futures) (results self);
  Ok ({| config := config self; results := rs; base_url := base_url self |}, rs).

(** ** The report aggregator *)

Record Summary : Type := MkSummary {
  total_apis : Z;
  successful : Z;
  failed : Z;
  success_rate : string;
  average_response_time_ms : value;
  execution_timestamp : string;
  summary_base_url : option string;
  mode : option string
}.

Record Report : Type := MkReport {
  summary : Summary;
  detailed_results : list probe_result
}.

(** [sorted(l, key=...)] sorts on keys computed beforehand, comparing them
    with [<] only, and keeps elements with equal keys in their input
    order.  On keys that [<] orders totally the outcome is fixed by these
    two facts, whatever the algorithm; it is computed here by insertion
    from the right, a new element going in front of the first one that is
    not smaller. *)
Fixpoint insert_keyed {A : Type} (x : value * A) (l : list (value * A))
    : Result (list (value * A)) :=
  match l with
  | [] => Ok [x]
  | y :: l' =>
      b ← py_lt y.1 x.1;
      if b : bool then l'' ← insert_keyed x l'; Ok (y :: l'') else Ok (x :: y :: l')
  end.

Fixpoint sort_keyed {A : Type} (l : list (value * A)) : Result (list (value * A)) :=
  match l with
  | [] => Ok []
  | x :: l' => l'' ← sort_keyed l'; insert_keyed x l''
  end.

(** [sorted(results, key=lambda x: x['name'])] *)
Definition sorted_by_name (l : list probe_result) : Result (list probe_result) :=
  keyed ← mapM (λ x, k ← getitem x "name"; Ok (k, x)) l;
  s ← sort_keyed keyed;
  Ok (s.*2).

(** [round(sum(response_times) / len(response_times), 2) if response_times else 0] *)
Definition average (py : interpreter) (response_times : list value) : Result value :=
  match length response_times with
  | O => Ok (VInt 0)
  | S n =>
      total ← py_sum py response_times;
      mean ← py_div_len total (Pos.of_succ_nat n);
      Ok (VFloat (Float.round2 mean))
  end.

(** The [summary] and [detailed_results] of a list of results; [clock] is
    the reading of [datetime.now().isoformat()].  In [successful /
    total_apis] both operands are list lengths with [successful ≤
    total_apis], so the quotient is at most 1 and the division cannot
    overflow. *)
Definition build_report (py : interpreter) (results : list probe_result)
    (base_url : option string)
    (clock : string) (mode : option string) : Result Report :=
  let total_apis := Z.of_nat (length results) in
  statuses ← mapM (λ r, getitem r "status") results;
  let successful := Z.of_nat (length (filter (λ v, eq_str v "SUCCESS" = true) statuses)) in
  let failed := total_apis - successful in
  avg_response_time ←
    (if (0 <? successful)%Z
     then average py (omap (λ r : probe_result, r !! "response_time_ms") results)
     else Ok (VInt 0));
  let success_rate :=
    if (0 <? total_apis)%Z
    then Float.format_2f
           (Float.mul (Float.of_quotient successful (Z.to_pos total_apis)) (Float.of_Z 100))
         +:+ "%"
    else "0%" in
  detailed ← sorted_by_name results;
  Ok {| summary :=
          {| total_apis := total_apis;
             successful := successful;
             failed := failed;
             success_rate := success_rate;
             average_response_time_ms := avg_response_time;
             execution_timestamp := clock;
             summary_base_url := base_url;
             mode := mode |};
        detailed_results := detailed |}.

(** [APIMonitor.generate_report] *)
Definition generate_report (py : interpreter) (self : APIMonitor) (clock : string)
    : Result Report :=
  build_report py (results self) (base_url self) clock None.

(** ** The entry points *)

(** [print_summary] reads, for every entry of [detailed_results], the keys
    [status], [name], [method] and [endpoint]; the other keys are printed
    only when present.  The text that goes to the console is left out:
    what matters to the caller is whether the method raises, for a key
    that is missing or because the console refuses the text ([console]
    is what [print] does). *)
Definition print_summary (report : Report) (console : Result unit) : Result unit :=
  _ ← console;
  _ ← mapM (λ result : probe_result,
              _ ← getitem result "status";
              _ ← getitem result "name";
              _ ← getitem result "method";
              _ ← getitem result "endpoint";
              Ok ())
           (detailed_results report);
  Ok ().

(** The command line of [monitor_apis.py] once parsed. *)
Record Args : Type := MkArgs {
  arg_domain : string;
  arg_output : string;
  arg_workers : Z;
  arg_config : string
}.

(** What [parser.parse_args()] makes of a command line: it returns the
    namespace of the arguments, or ends the process itself, with status
    2 after a usage message when it rejects the command line (a required
    option is missing, an option is unknown, [--workers] is no integer),
    and with status 0 after the help text when [-h] or [--help] is
    given. *)
Inductive parsed (A : Type) : Type :=
  | Namespace (args : A)
  | UsageError
  | Help.

Global Arguments Namespace {A} args.
Global Arguments UsageError {A}.
Global Arguments Help {A}.

(** What [main] finds outside: the interpreter that runs it, the
    configuration file (reading it raises [FileNotFoundError] or another
    exception when it is missing or malformed), the probes' environments,
    the order of completion, the clock at report time, and the file
    system that takes the report. *)
Record main_env : Type := MainEnv {
  python : interpreter;
  read_config : string → Result config_file;
  world : nat → probe_env;
  sched : list nat;
  report_clock : string;
  write_report : string → Report → Result unit;
  console : Result unit
}.

(** [main] of [monitor_apis.py] from the line after [parse_args], as the
    exit status of the process.  [sys.exit] inside the [try] block raises
    [SystemExit], which is not an [Exception] and so passes both [except]
    clauses. *)
Definition main (args : Args) (env : main_env) : Z :=
  match
    config ← read_config env (arg_config args);
    let monitor := init config in
    monitor ← set_domain monitor (arg_domain args);
    '(monitor, _) ← run_all_apis monitor (arg_workers args) (world env) (sched env);
    report ← generate_report (python env) monitor (report_clock env);
    _ ← write_report env (arg_output args) report;
    _ ← print_summary report (console env);
    Ok (if (failed (summary report) =? 0)%Z then 0 else 1)%Z
  with
  | Ok code => code
  | Raise (FileNotFoundError _) => 1
  | Raise _ => 1
  end.

(** The entry point [monitor_apis.py]: [main] parses the command line,
    which happens before its [try] block, and goes on with the
    namespace. *)
Definition entry_point (command_line : parsed Args) (env : main_env) : Z :=
  match command_line with
  | Namespace args => main args env
  | UsageError => 2
  | Help => 0
  end.

Module Demo.

(** An entry of [demo_apis]. *)
Record demo_api : Type := DemoApi {
  name : string;
  method : string;
  endpoint : string;
  description : string;
  simulate_success : bool;
  response_time_range : Z * Z
}.

Record DemoAPIMonitor : Type := DemoMonitor {
  results : list probe_result;
  base_url : string;
  demo_apis : list demo_api
}.

(** [DemoAPIMonitor()] *)
Definition init : DemoAPIMonitor :=
  {| results := [];
     base_url := "https://demo.cpvs-services.com";
     demo_apis :=
       [ DemoApi "Fund-Value-Exp" "GET" "/fundvalue-nyl-exp/api/fundUnitValues"
           "Fund Value Export API" true (100, 300);
         DemoApi "Fund-Value-Reload" "GET" "/fundvalue-nyl-reload/api/fundUnitValues"
           "Fund Value Reload API" true (150, 350);
         DemoApi "LTC_COSTS" "GET" "/ltc-costs-nyl-exp/api/costs"
           "LTC Costs API" true (80, 200);
         DemoApi "LTC-Costs-Load" "POST" "/ltc-costs-nyl-load/api/costs"
           "LTC Costs Load API" false (200, 400);
         DemoApi "Producer-Search-P1.0" "GET" "/producer-nyl-exp/api/1.0/producerProfile"
           "Producer Search API Version 1.0" true (120, 280);
         DemoApi "Producer-Search-withEmail-P1.0" "GET"
           "/producer-nyl-exp/api/1.0/producerProfile"
           "Producer Search with Email API Version 1.0" true (130, 290);
         DemoApi "Producer-Search-P2.0" "GET" "/producer-nyl-exp/api/2.0/producerProfile"
           "Producer Search API Version 2.0" true (110, 270);
         DemoApi "Producer-Search-withEmail-P2.0" "GET"
           "/producer-nyl-exp/api/2.0/producerProfile"
           "Producer Search with Email API Version 2.0" true (140, 300);
         DemoApi "Producer-With-Mock" "GET" "/producer-nyl-exp/api/mock/producerProfile"
           "Producer Mock API" true (50, 150) ] |}.

(** The clock and the random draws of one simulated call. *)
Record sim_env : Type := SimEnv {
  sim_now : string;
  uniform : Z → Z → Float.float;
  size : Z;
  id : Z;
  data_now : string;
  records : Z
}.

(** [simulate_api_call] *)
Definition simulate_api_call (self : DemoAPIMonitor) (api_config : demo_api)
    (env : sim_env) : probe_result :=
  let url := base_url self +:+ endpoint api_config in
  let result : probe_result :=
    <["name" := VStr (name api_config)]>
    (<["endpoint" := VStr (endpoint api_config)]>
     (<["method" := VStr (method api_config)]>
      (<["url" := VStr url]>
       (<["description" := VStr (description api_config)]>
        (<["timestamp" := VStr (sim_now env)]> ∅))))) in
  let '(min_time, max_time) := response_time_range api_config in
  let response_time := uniform env min_time max_time in
  if simulate_success api_config then
    update result
      (<["status" := VStr "SUCCESS"]>
       (<["status_code" := VInt 200]>
        (<["response_time_ms" := VFloat (Float.round2 response_time)]>
         (<["response_size_bytes" := VInt (size env)]>
          (<["content_type" := VStr "application/json"]>
           (<["response_data" :=
                VJson (JDict [("status", JStr "ok");
                              ("message", JStr "Demo data - API working correctly");
                              ("data", JDict [("id", JInt (id env));
                                              ("timestamp", JStr (data_now env));
                                              ("records", JInt (records env))])])]>
            ∅))))))
  else
    update result
      (<["status" := VStr "TIMEOUT"]>
       (<["error" := VStr "Request timed out - Demo simulation"]> ∅)).

(** The loop of [run_all_apis]: the calls are made one after the other,
    [sims i] being the environment of the call in position [i]. *)
Fixpoint simulate_all (self : DemoAPIMonitor) (sims : nat → sim_env) (i : nat)
    (apis : list demo_api) (acc : list probe_result) : list probe_result :=
  match apis with
  | [] => acc
  | api :: rest =>
      simulate_all self sims (S i) rest (acc ++ [simulate_api_call self api (sims i)])
  end.

(** [run_all_apis] *)
Definition run_all_apis (self : DemoAPIMonitor) (sims : nat → sim_env)
    : DemoAPIMonitor * list probe_result :=
  let rs := simulate_all self sims 0 (demo_apis self) (results self) in
  ({| results := rs; base_url := base_url self; demo_apis := demo_apis self |}, rs).

(** [generate_report]: the report of the runner, with [mode] set. *)
Definition generate_report (py : interpreter) (self : DemoAPIMonitor) (clock : string)
    : Result Report :=
  build_report py (results self) (Some (base_url self)) clock (Some "DEMO").

Record main_env : Type := MainEnv {
  python : interpreter;
  sims : nat → sim_env;
  report_clock : string;
  write_report : string → Report → Result unit;
  console : Result unit
}.

(** [main] of [demo_monitor.py] from the line after [parse_args], as the
    exit status of the process; [output] is the argument [--output]. *)
Definition main (output : string) (env : main_env) : Z :=
  match
    let monitor := init in
    let '(monitor, _) := run_all_apis monitor (sims env) in
    report ← generate_report (python env) monitor (report_clock env);
    _ ← write_report env output report;
    _ ← print_summary report (console env);
    Ok (if (failed (summary report) =? 0)%Z then 0 else 1)%Z
  with
  | Ok code => code
  | Raise _ => 1
  end.

(** The entry point [demo_monitor.py]. *)
Definition entry_point (command_line : parsed string) (env : main_env) : Z :=
  match command_line with
  | Namespace output => main output env
  | UsageError => 2
  | Help => 0
  end.

End Demo.

Module Email.

(** What [main] of [email_report.py] finds outside: the report file
    ([load_report] ends the process with status 1 when the file is
    missing or is not JSON), the subject line once its date is filled
    in, and the outcome of the SMTP dialogue, which [send_email] reports
    as a Boolean whatever goes wrong. *)
Record main_env : Type := MainEnv {
  read_report : string → Result Report;
  subject : Result string;
  smtp_delivers : string → bool
}.

(** [format_email_body] reads [status], [name] and [method] of every
    entry; the HTML text is left out. *)
Definition format_email_body (report : Report) : Result unit :=
  _ ← mapM (λ result : probe_result,
              _ ← getitem result "status";
              _ ← getitem result "name";
              _ ← getitem result "method";
              Ok ())
           (detailed_results report);
  Ok ().

(** [main] of [email_report.py] from the line after [parse_args], as the
    exit status of the process; [report_file] is the argument [--report],
    the other arguments are behind [subject] and [smtp_delivers].  An
    exception that nothing catches ends the interpreter with status 1. *)
Definition main (report_file : string) (env : main_env) : Z :=
  match read_report env report_file with
  | Raise _ => 1
  | Ok report =>
      match
        subject ← subject env;
        let subject :=
          if (0 <? failed (summary report))%Z
          then "⚠️ " +:+ subject +:+ " - FAILURES DETECTED"
          else "✅ " +:+ subject +:+ " - All OK" in
        _ ← format_email_body report;
        Ok subject
      with
      | Raise _ => 1
      | Ok subject => if smtp_delivers env subject then 0 else 1
      end
  end%Z.

(** The entry point [email_report.py]. *)
Definition entry_point (command_line : parsed string) (env : main_env) : Z :=
  match command_line with
  | Namespace report_file => main report_file env
  | UsageError => 2
  | Help => 0
  end.

End Email.

(** The run of [main] up to the printed summary. *)
Definition produce_report (args : Args) (env : main_env) : Result Report :=
  config ← read_config env (arg_config args);
  monitor ← set_domain (init config) (arg_domain args);
  '(monitor, _) ← run_all_apis monitor (arg_workers args) (world env) (sched env);
  report ← generate_report (python env) monitor (report_clock env);
  _ ← write_report env (arg_output args) report;
  _ ← print_summary report (console env);
  Ok report.

(** The run of the demo's [main] up to the printed summary. *)
Definition demo_produce_report (output : string) (env : Demo.main_env) : Result Report :=
  let '(monitor, _) := Demo.run_all_apis Demo.init (Demo.sims env) in
  report ← Demo.generate_report (Demo.python env) monitor (Demo.report_clock env);
  _ ← Demo.write_report env output report;
  _ ← print_summary report (Demo.console env);
  Ok report.

(** ** Auxiliary definitions for the proofs *)

(** The insertion sort of [sort_keyed] on keys that are all strings. *)
Fixpoint insert_str {A : Type} (x : string * A) (l : list (string * A)) : list (string * A) :=
  match l with
  | [] => [x]
  | y :: l' => if String.ltb y.1 x.1 then y :: insert_str x l' else x :: y :: l'
  end.

Fixpoint sort_str {A : Type} (l : list (string * A)) : list (string * A) :=
  match l with
  | [] => []
  | x :: l' => insert_str x (sort_str l')
  end.

Definition tag {A : Type} (x : string * A) : value * A := (VStr x.1, x.2).

(** The order of two keyed elements: byte-wise, hence case-sensitive. *)
Definition key_le {A : Type} : relation (string * A) := λ x y, String.le x.1 y.1.

(** A descriptor carries the three keys that [call_api] indexes. *)
Definition has_required_keys (api : api_config) : Prop :=
  is_Some (api_fields api !! "name") ∧
  is_Some (api_fields api !! "method") ∧
  is_Some (api_fields api !! "endpoint").

Definition required_keys : list string := ["name"; "method"; "endpoint"].

(** The request issued for a descriptor with the given method and endpoint. *)
Definition request_of (self : APIMonitor) (api : api_config) (method endpoint : string)
    : http_call :=
  dispatch self method (str_of_option (base_url self) +:+ endpoint)
    (default (JDict []) (api_params api)) (default (JDict []) (api_body api)).

(** How the [try] block of a probe ends: it runs to its end on a response
    whose body could be read, or an exception leaves it, raised by the
    request or while the body of the response is parsed. *)
Inductive probe_outcome : Type :=
  | Completed (resp : response)
  | Failed (e : exn).

Definition outcome_of (answer : Result response) : probe_outcome :=
  match answer with
  | Raise e => Failed e
  | Ok resp =>
      match json_body resp with
      | JsonRaises e => Failed e
      | _ => Completed resp
      end
  end.

Definition outcome_statuses : list string :=
  ["SUCCESS"; "TIMEOUT"; "CONNECTION_ERROR"; "ERROR"].

(** The keys that a probe writes when a response has arrived. *)
Definition success_fields : list string :=
  ["status_code"; "response_time_ms"; "response_size_bytes"; "content_type";
   "response_data"].

Definition name_of (r : probe_result) : string :=
  match r !! "name" with
  | Some (VStr n) => n
  | _ => ""
  end.

Definition status_of (r : probe_result) : string :=
  match r !! "status" with
  | Some (VStr s) => s
  | _ => ""
  end.

Definition is_success (r : probe_result) : bool :=
  match r !! "status" with
  | Some v => eq_str v "SUCCESS"
  | None => false
  end.

(** The status and the error text that the [except] clauses give to an
    exception. *)
Definition handler_status (e : exn) : string :=
  if is_Timeout e then "TIMEOUT"
  else if is_ConnectionError e then "CONNECTION_ERROR"
  else "ERROR".

Definition handler_error (e : exn) : string :=
  if is_Timeout e then "Request timed out" else exn_str e.

(** The result of the probe of a descriptor that has its required keys. *)
Definition probe (self : APIMonitor) (world : nat → probe_env) (i : nat)
    (api : api_config) : probe_result :=
  match call_api self api (world i) with
  | Ok r => r
  | Raise _ => ∅
  end.

(** A result as the aggregator expects it: it has a status, a name that
    is a string and, when it has a latency, a latency that is a float. *)
Definition well_formed (r : probe_result) : Prop :=
  is_Some (r !! "status") ∧
  (∃ n, r !! "name" = Some (VStr n)) ∧
  (∀ v, r !! "response_time_ms" = Some v → ∃ x, v = VFloat x).

Definition latency (r : probe_result) : option Float.float :=
  match r !! "response_time_ms" with
  | Some (VFloat x) => Some x
  | _ => None
  end.

(** The sum of a list of doubles from left to right. *)
Definition plain_sum (l : list Float.float) : Float.float :=
  foldl Float.add (S754_zero false) l.

(** Neumaier's summation of [l] onto the total [f]: the total of the
    additions, and with it the sum [c] of their rounding errors, each
    recovered from the larger of the two operands. *)
Fixpoint neumaier (f c : Float.float) (l : list Float.float)
    : Float.float * Float.float :=
  match l with
  | [] => (f, c)
  | x :: l' =>
      let t := Float.add f x in
      let error :=
        if SFleb (SFabs x) (SFabs f)
        then Float.add (Float.sub f t) x
        else Float.add (Float.sub x t) f in
      neumaier t (Float.add c error) l'
  end.

(** The sum of a list of doubles as the built-in [sum] of the
    interpreter returns it: the plain sum before CPython 3.12; from 3.12
    on, the total of Neumaier's summation, to which the errors are added
    when they are finite and not zero. *)
Definition float_sum (py : interpreter) (l : list Float.float) : Float.float :=
  match py with
  | Before_3_12 => plain_sum l
  | From_3_12 =>
      match l with
      | [] => S754_zero false
      | x :: l' =>
          let '(f, c) := neumaier (Float.add (S754_zero false) x) (S754_zero false) l' in
          match c with
          | S754_finite _ _ _ => Float.add f c
          | _ => f
          end
      end
  end.

(** The arithmetic mean of a list of doubles: their sum divided by their
    number. *)
Definition mean (py : interpreter) (l : list Float.float) : Float.float :=
  Float.div (float_sum py l) (Float.of_Z (Z.of_nat (length l))).

Definition keyed (r : probe_result) : string * probe_result := (name_of r, r).

(** The stable sort of a list of results on their names. *)
Definition sort_by_name (l : list probe_result) : list probe_result :=
  (sort_str (keyed <$> l)).*2.

Definition count_success (results : list probe_result) : Z :=
  Z.of_nat (length (filter (λ r, is_success r = true) results)).

(** [successful / total * 100] as a percentage with two decimals. *)
Definition rate_text (successful total : Z) : string :=
  if (0 <? total)%Z
  then Float.format_2f
         (Float.mul (Float.of_quotient successful (Z.to_pos total)) (Float.of_Z 100))
       +:+ "%"
  else "0%".

(** The mean latency, rounded to two decimals, of the results that carry
    a latency, if some result succeeded. *)
Definition average_of (py : interpreter) (results : list probe_result) : value :=
  if (0 <? count_success results)%Z
  then match omap latency results with
       | [] => VInt 0
       | l => VFloat (Float.round2 (mean py l))
       end
  else VInt 0.

(** The report of a list of well-formed results, without the monad. *)
Definition report_of (py : interpreter) (results : list probe_result)
    (base_url : option string)
    (clock : string) (mode : option string) : Report :=
  {| summary :=
       {| total_apis := Z.of_nat (length results);
          successful := count_success results;
          failed := Z.of_nat (length results) - count_success results;
          success_rate := rate_text (count_success results) (Z.of_nat (length results));
          average_response_time_ms := average_of py results;
          execution_timestamp := clock;
          summary_base_url := base_url;
          mode := mode |};
     detailed_results := sort_by_name results |}.

(** ** Sample data *)

Definition descriptor (name method endpoint : string) : api_config :=
  {| api_fields :=
       <["name" := name]> (<["method" := method]> (<["endpoint" := endpoint]> ∅));
     api_params := None;
     api_body := None |}.

(** The nine endpoints that the demo runner lists. *)
Definition sample_apis : list api_config :=
  [ descriptor "Fund-Value-Exp" "GET" "/fundvalue-nyl-exp/api/fundUnitValues";
    descriptor "Fund-Value-Reload" "GET" "/fundvalue-nyl-reload/api/fundUnitValues";
    descriptor "LTC_COSTS" "GET" "/ltc-costs-nyl-exp/api/costs";
    descriptor "LTC-Costs-Load" "POST" "/ltc-costs-nyl-load/api/costs";
    descriptor "Producer-Search-P1.0" "GET" "/producer-nyl-exp/api/1.0/producerProfile";
    descriptor "Producer-Search-withEmail-P1.0" "GET"
      "/producer-nyl-exp/api/1.0/producerProfile";
    descriptor "Producer-Search-P2.0" "GET" "/producer-nyl-exp/api/2.0/producerProfile";
    descriptor "Producer-Search-withEmail-P2.0" "GET"
      "/producer-nyl-exp/api/2.0/producerProfile";
    descriptor "Producer-With-Mock" "GET" "/producer-nyl-exp/api/mock/producerProfile" ].

Definition sample_config : config_file :=
  {| cfg_base_url := Some "https://{{cpvs.services.domain}}";
     cfg_monitoring_apis := Some sample_apis;
     cfg_timeout := None |}.

Definition sample_monitor : APIMonitor :=
  {| config := sample_config; results := []; base_url := Some "https://example.com" |}.

(** A 200 answer with a JSON body. *)
Definition ok_response : response :=
  {| status_code := 200;
     content := "{}";
     content_type := Some "application/json";
     text := "{}";
     json_body := JsonValue (JDict []) |}.

(** A 200 answer whose body nests arrays so deeply that the JSON decoder
    gives up with a [RecursionError], which is not a [JSONDecodeError]. *)
Definition deep_response : response :=
  {| status_code := 200;
     content := "[[[[[[[[";
     content_type := Some "application/json";
     text := "[[[[[[[[";
     json_body :=
       JsonRaises (OtherException "maximum recursion depth exceeded while decoding a JSON array from a unicode string") |}.

Definition env_answering (answer : Result response) : probe_env :=
  {| now := "2024-05-01T12:00:00.000000";
     start_time := Float.of_Z 1714564800;
     end_time := Float.of_quotient 17145648001 10;
     send := λ _, answer |}.

Definition read_timeout : exn :=
  RequestException true false "HTTPSConnectionPool(host='example.com', port=443): Read timed out. (read timeout=30)".

(** The fourth probe times out, the eight others are answered with 200. *)
Definition sample_world (i : nat) : probe_env :=
  if decide (i = 3%nat) then env_answering (Raise read_timeout)
  else env_answering (Ok ok_response).

(** The order of two results in the report: by name, byte-wise. *)
Definition name_le : relation probe_result :=
  λ a b, String.le (name_of a) (name_of b).

(** A result as a probe that was answered leaves it. *)
Definition success_result (name : string) (latency : Float.float) : probe_result :=
  <["name" := VStr name]>
  (<["endpoint" := VStr "/api"]>
   (<["method" := VStr "GET"]>
    (<["url" := VStr "https://example.com/api"]>
     (<["description" := VStr ""]>
      (<["timestamp" := VStr "2024-05-01T12:00:00.000000"]>
       (<["status" := VStr "SUCCESS"]>
        (<["status_code" := VInt 200]>
         (<["response_time_ms" := VFloat latency]>
          (<["response_size_bytes" := VInt 2]>
           (<["content_type" := VStr "application/json"]>
            (<["response_data" := VJson (JDict [])]> ∅))))))))))).

(** A result as a probe that timed out leaves it. *)
Definition timeout_result (name : string) : probe_result :=
  <["name" := VStr name]>
  (<["endpoint" := VStr "/api"]>
   (<["method" := VStr "GET"]>
    (<["url" := VStr "https://example.com/api"]>
     (<["description" := VStr ""]>
      (<["timestamp" := VStr "2024-05-01T12:00:00.000000"]>
       (<["status" := VStr "TIMEOUT"]>
        (<["error" := VStr "Request timed out"]> ∅))))))).

Definition monitor_with (rs : list probe_result) : APIMonitor :=
  {| config := sample_config; results := rs; base_url := Some "https://example.com" |}.

(** The report with another time stamp. *)
Definition with_timestamp (clock : string) (rep : Report) : Report :=
  {| summary :=
       {| total_apis := total_apis (summary rep);
          successful := successful (summary rep);
          failed := failed (summary rep);
          success_rate := success_rate (summary rep);
          average_response_time_ms := average_response_time_ms (summary rep);
          execution_timestamp := clock;
          summary_base_url := summary_base_url (summary rep);
          mode := mode (summary rep) |};
     detailed_results := detailed_results rep |}.

(** The answer of the network to the probe submitted in position [i]. *)
Definition answer (self : APIMonitor) (world : nat → probe_env) (i : nat)
    (api : api_config) : Result response :=
  send (world i)
    (request_of self api (default "" (api_fields api !! "method"))
       (default "" (api_fields api !! "endpoint"))).

(** The probe is answered with the given HTTP status and a body that can
    be read. *)
Definition answered_with (code : Z) (a : Result response) : Prop :=
  ∃ resp, a = Ok resp ∧ status_code resp = code ∧ ∀ e, json_body resp ≠ JsonRaises e.

(** The request times out. *)
Definition timed_out (a : Result response) : Prop :=
  ∃ e, a = Raise e ∧ is_Timeout e = true.

(** Projections used to tell two reports apart. *)
Definition timestamp_of (r : Result Report) : string :=
  match r with
  | Ok rep => execution_timestamp (summary rep)
  | Raise _ => ""
  end.

Definition statuses_of_report (r : Result Report) : list string :=
  match r with
  | Ok rep => status_of <$> detailed_results rep
  | Raise _ => []
  end.

(** A report with one failure, and a mail server that accepts the mail. *)
Definition failing_report : Report :=
  report_of From_3_12 [success_result "A" (Float.of_Z 1); timeout_result "B"]
    (Some "https://example.com") "2024-05-01T12:00:01" None.

Definition delivering_env : Email.main_env :=
  {| Email.read_report := λ _, Ok failing_report;
     Email.subject := Ok "CPVS Monitoring Report - 2024-05-01 12:00";
     Email.smtp_delivers := λ _, true |}.

(** ** Further definitions for the properties of the code *)

(** The probe submitted in position [i] runs to the end of its [try]
    block. *)
Definition completed (self : APIMonitor) (world : nat → probe_env) (i : nat)
    (api : api_config) : bool :=
  match outcome_of (answer self world i api) with
  | Completed _ => true
  | Failed _ => false
  end.

(** The number of probes of a run that complete. *)
Definition count_completed (self : APIMonitor) (world : nat → probe_env)
    (apis : list api_config) : Z :=
  Z.of_nat (length (filter (λ b : bool, b = true) (imap (completed self world) apis))).

(** A result that [print_summary] can print: it has the four keys that
    the method indexes. *)
Definition printable (r : probe_result) : Prop :=
  is_Some (r !! "status") ∧ is_Some (r !! "name") ∧
  is_Some (r !! "method") ∧ is_Some (r !! "endpoint").

(** The monitor as [main] has it before the run. *)
Definition monitor_of (cfg : config_file) (template domain : string) : APIMonitor :=
  {| config := cfg;
     results := [];
     base_url := Some (replace "{{cpvs.services.domain}}" domain template) |}.

(** A command line and an environment for the sample configuration: the
    files can be read and written and the console takes the text. *)
Definition sample_args : Args :=
  {| arg_domain := "example.com";
     arg_output := "monitoring_report.json";
     arg_workers := 10;
     arg_config := "config.json" |}.

Definition sample_env (world : nat → probe_env) : main_env :=
  {| python := From_3_12;
     read_config := λ _, Ok sample_config;
     world := world;
     sched := [4; 0; 7]%nat;
     report_clock := "2024-05-01T12:00:09.000000";
     write_report := λ _ _, Ok ();
     console := Ok () |}.

(** The character [c] occurs in [s]. *)
Fixpoint mentions (c : ascii) (s : string) : bool :=
  match s with
  | EmptyString => false
  | String c' s' => if Ascii.eqb c c' then true else mentions c s'
  end.

(** The placeholder of the base URL. *)
Definition placeholder : string := "{{cpvs.services.domain}}".

(** The name of a descriptor. *)
Definition descriptor_name (api : api_config) : string :=
  default "" (api_fields api !! "name").

(** The subject line that the mail sender builds for a report with the
    given number of failures. *)
Definition subject_of (failures : Z) (subject : string) : string :=
  if (0 <? failures)%Z
  then "⚠️ " +:+ subject +:+ " - FAILURES DETECTED"
  else "✅ " +:+ subject +:+ " - All OK".

(** A mail environment that holds the report of the sample run and whose
    server accepts the mail. *)
Definition mailing_env : Email.main_env :=
  {| Email.read_report := λ _,
       Ok (report_of From_3_12 (imap (probe sample_monitor sample_world) sample_apis)
             (base_url sample_monitor) "2024-05-01T12:00:09" None);
     Email.subject := Ok "CPVS Monitoring Report - 2024-05-01 12:00";
     Email.smtp_delivers := λ _, true |}.

(** An answer with HTTP status 500 and a JSON body. *)
Definition error_response : response :=
  {| status_code := 500;
     content := "{}";
     content_type := Some "application/json";
     text := "{}";
     json_body := JsonValue (JDict []) |}.

(** The sample endpoints on another day: the same answers, read off
    other clocks and after other delays. *)
Definition later_world (i : nat) : probe_env :=
  {| now := "2024-05-02T08:30:00.000000";
     start_time := Float.of_Z 1714638600;
     end_time := Float.of_quotient 17146386003 10;
     send := send (sample_world i) |}.

(** What a reader of the detail list sees of an entry: its name and its
    status. *)
Definition outline (r : probe_result) : string * string := (name_of r, status_of r).

(** Modelled from the spec: [successful / total * 100] formatted to two
    decimal places, the quotient being taken exactly and the last place
    rounded to nearest, ties to even. *)
Definition exact_rate (successful total : Z) : string :=
  let h := Float.round_half_even (10000 * successful) total in
  pretty (h / 100) +:+ "." +:+ Float.digit2 (h mod 100) +:+ "%".

(** * Properties *)

(** ** Binary64: rounding stays in range *)

Lemma digits2_pos_bounds (p : positive) :
  2 ^ (Zpos (digits2_pos p) - 1) <= Zpos p < 2 ^ Zpos (digits2_pos p).
Proof.
  induction p as [p IH|p IH|]; simpl digits2_pos.
  - rewrite Pos2Z.inj_succ. replace (Z.succ (Zpos (digits2_pos p)) - 1) with (Z.succ (Zpos (digits2_pos p) - 1)) by lia.
    rewrite !Z.pow_succ_r by lia. lia.
  - rewrite Pos2Z.inj_succ. replace (Z.succ (Zpos (digits2_pos p)) - 1) with (Z.succ (Zpos (digits2_pos p) - 1)) by lia.
    rewrite !Z.pow_succ_r by lia. lia.
  - simpl. lia.
Qed.

Lemma Zdigits2_nonneg (m : Z) : 0 <= Zdigits2 m.
Proof. destruct m; simpl; lia. Qed.

Lemma Zdigits2_upper (m : Z) : 0 <= m -> m < 2 ^ Zdigits2 m.
Proof.
  destruct m as [|p|p]; simpl; try lia. intros _. apply digits2_pos_bounds.
Qed.

Lemma Zdigits2_le (m k : Z) : 0 <= m -> 0 <= k -> m < 2 ^ k -> Zdigits2 m <= k.
Proof.
  destruct m as [|p|p]; simpl; try lia. intros _ Hk Hlt.
  pose proof (digits2_pos_bounds p) as [Hlo _].
  assert (2 ^ (Zpos (digits2_pos p) - 1) < 2 ^ k) as Hpow by lia.
  apply Z.pow_lt_mono_r_iff in Hpow; lia.
Qed.

Lemma Zdigits2_succ (m : Z) : 0 <= m -> Zdigits2 (m + 1) <= Zdigits2 m + 1.
Proof.
  intros Hm. pose proof (Zdigits2_upper m Hm). pose proof (Zdigits2_nonneg m).
  apply Zdigits2_le; try lia.
  rewrite Z.pow_add_r by lia. lia.
Qed.

Lemma Zdigits2_mul (a b : Z) : 0 <= a -> 0 <= b -> Zdigits2 (a * b) <= Zdigits2 a + Zdigits2 b.
Proof.
  intros Ha Hb.
  pose proof (Zdigits2_upper a Ha). pose proof (Zdigits2_upper b Hb).
  pose proof (Zdigits2_nonneg a). pose proof (Zdigits2_nonneg b).
  apply Zdigits2_le; try nia.
  rewrite Z.pow_add_r by lia. nia.
Qed.

Lemma Zdigits2_div_pow (m k : Z) :
  0 <= m -> 0 <= k -> Zdigits2 (m / 2 ^ k) <= Z.max 0 (Zdigits2 m - k).
Proof.
  intros Hm Hk.
  pose proof (Zdigits2_upper m Hm) as Hup. pose proof (Zdigits2_nonneg m) as Hd.
  assert (0 < 2 ^ k) by (apply Z.pow_pos_nonneg; lia).
  assert (0 <= m / 2 ^ k) by (apply Z.div_pos; lia).
  apply Zdigits2_le; try lia.
  apply Z.div_lt_upper_bound; [lia|].
  destruct (Z.le_gt_cases k (Zdigits2 m)).
  - rewrite Z.max_r by lia. rewrite <- Z.pow_add_r by lia.
    replace (k + (Zdigits2 m - k)) with (Zdigits2 m) by lia. lia.
  - rewrite Z.max_l by lia. rewrite Z.pow_0_r, Z.mul_1_r.
    assert (2 ^ Zdigits2 m <= 2 ^ k) by (apply Z.pow_le_mono_r; lia). lia.
Qed.

Lemma shr_1_m (mrs : shr_record) :
  0 <= shr_m mrs -> shr_m (shr_1 mrs) = shr_m mrs / 2.
Proof.
  destruct mrs as [m r s]. simpl. intros Hm.
  rewrite <- Z.div2_div.
  destruct m as [|[p|p|]|p]; simpl; try reflexivity; lia.
Qed.

Lemma pow2_xO (p : positive) : 2 ^ Zpos p~0 = 2 ^ Zpos p * 2 ^ Zpos p.
Proof.
  replace (Zpos p~0) with (Zpos p + Zpos p) by lia.
  apply Z.pow_add_r; lia.
Qed.

Lemma pow2_xI (p : positive) : 2 ^ Zpos p~1 = 2 * (2 ^ Zpos p * 2 ^ Zpos p).
Proof.
  replace (Zpos p~1) with (1 + (Zpos p + Zpos p)) by lia.
  rewrite !Z.pow_add_r by lia. reflexivity.
Qed.

Lemma iter_shr_1_m (p : positive) (mrs : shr_record) :
  0 <= shr_m mrs -> shr_m (SpecFloat.iter_pos shr_1 p mrs) = shr_m mrs / 2 ^ Zpos p.
Proof.
  revert mrs. induction p as [p IH|p IH|]; intros mrs Hm; simpl SpecFloat.iter_pos.
  - assert (0 <= shr_m (shr_1 mrs)) by (rewrite shr_1_m by lia; apply Z.div_pos; lia).
    assert (0 < 2 ^ Zpos p) by (apply Z.pow_pos_nonneg; lia).
    assert (0 <= shr_m (SpecFloat.iter_pos shr_1 p (shr_1 mrs))) by (rewrite IH by lia; apply Z.div_pos; lia).
    rewrite !IH, shr_1_m by lia.
    rewrite !Z.div_div by lia. now rewrite pow2_xI.
  - assert (0 < 2 ^ Zpos p) by (apply Z.pow_pos_nonneg; lia).
    assert (0 <= shr_m (SpecFloat.iter_pos shr_1 p mrs)) by (rewrite IH by lia; apply Z.div_pos; lia).
    rewrite !IH by lia. rewrite Z.div_div by lia. now rewrite pow2_xO.
  - rewrite shr_1_m by lia. reflexivity.
Qed.

Definition fexp64 (e : Z) : Z := Z.max (e - 53) (-1074).

Lemma fexp_eq (e : Z) : fexp Float.prec Float.emax e = fexp64 e.
Proof. reflexivity. Qed.

(** [shr_fexp] on a non-negative mantissa. *)
Lemma shr_fexp_spec (m e : Z) (l : location) :
  0 <= m ->
  exists mrs e',
    shr_fexp Float.prec Float.emax m e l = (mrs, e') /\
    e' = Z.max e (fexp64 (Zdigits2 m + e)) /\
    shr_m mrs = m / 2 ^ (e' - e).
Proof.
  intros Hm. unfold shr_fexp, shr. rewrite fexp_eq.
  remember (fexp64 (Zdigits2 m + e)) as f eqn:Hf.
  assert (shr_m (shr_record_of_loc m l) = m) as Hrec by (destruct l as [|[]]; reflexivity).
  destruct (f - e) as [|p|p] eqn:Hd.
  - eexists _, _. split; [reflexivity|]. split; [lia|].
    rewrite Hrec. replace (e - e) with 0 by lia. now rewrite Z.pow_0_r, Z.div_1_r.
  - eexists _, _. split; [reflexivity|]. split; [lia|].
    rewrite iter_shr_1_m by lia. rewrite Hrec. f_equal. f_equal. lia.
  - eexists _, _. split; [reflexivity|]. split; [lia|].
    rewrite Hrec. replace (e - e) with 0 by lia. now rewrite Z.pow_0_r, Z.div_1_r.
Qed.

Lemma round_nearest_even_range (m : Z) (l : location) :
  round_nearest_even m l = m \/ round_nearest_even m l = m + 1.
Proof. destruct l as [|[]]; simpl; auto. destruct (Z.even m); auto. Qed.

(** Rounding a non-negative mantissa whose magnitude is inside the range
    of the format gives zero or a finite number, never an infinity. *)
Lemma binary_round_aux_finite (sx : bool) (mx ex : Z) (lx : location) :
  0 <= mx -> ex <= 971 -> Zdigits2 mx + ex <= 1023 ->
  binary_round_aux Float.prec Float.emax sx mx ex lx = S754_zero sx \/
  exists m e,
    binary_round_aux Float.prec Float.emax sx mx ex lx = S754_finite sx m e /\
    Zpos (digits2_pos m) + e <= Z.max (Z.max (Zdigits2 mx + ex) ex + 1) (-1073).
Proof.
  intros Hmx Hex HD. unfold binary_round_aux.
  destruct (shr_fexp_spec mx ex lx Hmx) as (mrs1 & e1 & -> & He1 & Hm1).
  set (m2 := round_nearest_even (shr_m mrs1) (loc_of_shr_record mrs1)).
  assert (0 <= e1 - ex) by lia.
  assert (0 < 2 ^ (e1 - ex)) by (apply Z.pow_pos_nonneg; lia).
  assert (0 <= shr_m mrs1) as Hm1pos by (rewrite Hm1; apply Z.div_pos; lia).
  assert (0 <= m2 /\ Zdigits2 m2 <= Zdigits2 (shr_m mrs1) + 1) as [Hm2 Hd2].
  { subst m2. destruct (round_nearest_even_range (shr_m mrs1) (loc_of_shr_record mrs1)) as [->| ->].
    - lia.
    - split; [lia|]. now apply Zdigits2_succ. }
  pose proof (Zdigits2_div_pow mx (e1 - ex) Hmx ltac:(lia)) as Hd1. rewrite <- Hm1 in Hd1.
  destruct (shr_fexp_spec m2 e1 loc_Exact Hm2) as (mrs3 & e3 & -> & He3 & Hm3).
  assert (0 <= e3 - e1) by lia.
  pose proof (Zdigits2_div_pow m2 (e3 - e1) Hm2 ltac:(lia)) as Hd3. rewrite <- Hm3 in Hd3.
  unfold fexp64 in *.
  assert (0 < 2 ^ (e3 - e1)) by (apply Z.pow_pos_nonneg; lia).
  assert (0 <= shr_m mrs3) as Hm3pos by (rewrite Hm3; apply Z.div_pos; lia).
  destruct (shr_m mrs3) as [|m|m] eqn:Hm; [now left| |lia].
  right. change (Float.emax - Float.prec) with 971.
  destruct (Z.leb_spec e3 971) as [Hle|Hgt].
  - eexists _, _. split; [reflexivity|]. simpl Zdigits2 in Hd3. lia.
  - exfalso. lia.
Qed.

(** The quotient of two list lengths, the first at most the second, is a
    double between 0 and 1. *)
Lemma of_quotient_finite (s : Z) (t : positive) :
  0 <= s <= Zpos t ->
  Float.of_quotient s t = S754_zero false \/
  exists m e,
    Float.of_quotient s t = S754_finite false m e /\
    Zpos (digits2_pos m) + e <= 2.
Proof.
  intros [Hs Hst]. destruct s as [|p|p]; [now left| |lia].
  unfold Float.of_quotient, SFdiv_core_binary.
  rewrite fexp_eq. unfold fexp64.
  set (e' := Z.min (Z.max (Zdigits2 (Zpos p) + 0 - (Zdigits2 (Zpos t) + 0) - 53) (-1074))
                   (0 - 0)).
  set (m' := match 0 - 0 - e' with
             | 0 => Zpos p
             | Zpos _ => Z.shiftl (Zpos p) (0 - 0 - e')
             | Zneg _ => 0
             end).
  assert (e' <= 0) as He' by (subst e'; lia).
  assert (0 < 2 ^ (- e')) as Hpow by (apply Z.pow_pos_nonneg; lia).
  assert (0 <= m' <= Zpos t * 2 ^ (- e')) as Hm'.
  { subst m'. destruct (0 - 0 - e') as [|k|k] eqn:Hk.
    - nia.
    - rewrite Z.shiftl_mul_pow2 by lia. replace (- e') with (Zpos k) by lia. nia.
    - nia. }
  pose proof (Z.div_eucl_eq m' (Zpos t) ltac:(lia)) as Heq.
  pose proof (Z.mod_pos_bound m' (Zpos t) ltac:(lia)) as Hmod.
  unfold Z.modulo in Hmod.
  destruct (Z.div_eucl m' (Zpos t)) as [q r].
  assert (0 <= q <= 2 ^ (- e')) as Hq by nia.
  assert (Zdigits2 q <= - e' + 1) as Hdq.
  { apply Zdigits2_le; try lia. rewrite Z.pow_add_r by lia. lia. }
  destruct (binary_round_aux_finite false q e' (new_location (Zpos t) r))
    as [Hz|(m & e & Hf & Hb)]; try lia.
  - now left.
  - right. exists m, e. split; [exact Hf|]. lia.
Qed.

Lemma of_Z_100 : Float.of_Z 100 = S754_finite false 7036874417766400 (-46).
Proof. reflexivity. Qed.

(** A success rate is a finite double that is not negative. *)
Lemma rate_finite (s : Z) (t : positive) :
  0 <= s <= Zpos t ->
  Float.mul (Float.of_quotient s t) (Float.of_Z 100) = S754_zero false \/
  exists m e,
    Float.mul (Float.of_quotient s t) (Float.of_Z 100) = S754_finite false m e.
Proof.
  intros Hs. rewrite of_Z_100.
  destruct (of_quotient_finite s t Hs) as [->|(m & e & -> & Hb)]; [now left|].
  unfold Float.mul, SFmul. cbn [xorb].
  pose proof (Zdigits2_mul (Zpos m) 7036874417766400 ltac:(lia) ltac:(lia)) as Hd.
  change (Zdigits2 7036874417766400) with 53 in Hd.
  change (Zdigits2 (Zpos m)) with (Zpos (digits2_pos m)) in Hd.
  rewrite <- Pos2Z.inj_mul in Hd.
  destruct (binary_round_aux_finite false (Zpos (m * 7036874417766400)) (e + -46) loc_Exact)
    as [Hz|(m' & e' & Hf & _)]; try lia.
  - now left.
  - right. now exists m', e'.
Qed.

Lemma round_half_even_nonneg (n d : Z) : 0 <= n -> 0 < d -> 0 <= Float.round_half_even n d.
Proof.
  intros Hn Hd. unfold Float.round_half_even.
  assert (0 <= n / d) by (apply Z.div_pos; lia).
  destruct (2 * (n mod d) ?= d)%Z; [destruct (Z.even (n / d))| |]; lia.
Qed.

Lemma hundredths_nonneg (m : positive) (e : Z) : 0 <= Float.hundredths m e.
Proof.
  unfold Float.hundredths. destruct e as [|k|k].
  - lia.
  - assert (0 < 2 ^ Zpos k) by (apply Z.pow_pos_nonneg; lia). nia.
  - apply round_half_even_nonneg; [lia|]. apply Z.pow_pos_nonneg; lia.
Qed.

(** The [.2f] text of a finite double that is not negative: the whole
    part, a point and two digits. *)
Lemma format_2f_shape (x : Float.float) :
  (x = S754_zero false \/ exists m e, x = S754_finite false m e) ->
  exists h : Z,
    0 <= h /\
    Float.format_2f x = pretty (h / 100) +:+ "." +:+ Float.digit2 (h mod 100).
Proof.
  intros [->|(m & e & ->)].
  - exists 0. split; [lia|reflexivity].
  - exists (Float.hundredths m e). split; [apply hundredths_nonneg|reflexivity].
Qed.

(** ** Binary64: the accuracy of the success rate *)

Lemma Zdigits2_lower (m : Z) : 0 < m -> 2 ^ (Zdigits2 m - 1) <= m.
Proof. destruct m as [|p|p]; try lia. intros _. apply digits2_pos_bounds. Qed.

Lemma Zdigits2_eq (m k : Z) : 2 ^ (k - 1) <= m < 2 ^ k -> 0 < k -> Zdigits2 m = k.
Proof.
  intros [Hlo Hhi] Hk.
  assert (0 < 2 ^ (k - 1)) by (apply Z.pow_pos_nonneg; lia).
  pose proof (Zdigits2_lower m ltac:(lia)) as Hl.
  pose proof (Zdigits2_upper m ltac:(lia)) as Hu.
  pose proof (Zdigits2_nonneg m) as Hn.
  assert (Zdigits2 m - 1 < k) by (apply (Z.pow_lt_mono_r_iff 2); lia).
  assert (k - 1 < Zdigits2 m) by (apply (Z.pow_lt_mono_r_iff 2); lia).
  lia.
Qed.

(** Rounding in the normal range: the result is the 53-bit truncation of
    the mantissa or its successor. *)
Lemma binary_round_aux_normal (sx : bool) (mx ex : Z) (lx : location) :
  2 ^ 52 <= mx ->
  -1074 <= Zdigits2 mx + ex - 53 ->
  Zdigits2 mx + ex <= 1023 ->
  exists m e,
    binary_round_aux Float.prec Float.emax sx mx ex lx = S754_finite sx m e /\
    ex <= e /\
    2 ^ 52 <= Zpos m < 2 ^ 53 /\
    let U := 2 ^ (Zdigits2 mx - 53) in
    let L := mx / U * U in
    Zpos m * 2 ^ (e - ex) = L \/ Zpos m * 2 ^ (e - ex) = L + U.
Proof.
  intros Hmx Hlo Hhi. unfold binary_round_aux.
  assert (0 <= mx) as Hpos by lia.
  pose proof (Zdigits2_lower mx ltac:(lia)) as Hdl.
  pose proof (Zdigits2_upper mx Hpos) as Hdu.
  assert (53 <= Zdigits2 mx) as Hd.
  { assert (52 < Zdigits2 mx); [|lia]. apply (Z.pow_lt_mono_r_iff 2); try lia.
    pose proof (Zdigits2_nonneg mx). lia. }
  set (n := Zdigits2 mx - 53) in *.
  destruct (shr_fexp_spec mx ex lx Hpos) as (mrs1 & e1 & -> & He1 & Hm1).
  unfold fexp64 in He1.
  assert (e1 = ex + n) as -> by lia.
  replace (ex + n - ex) with n in Hm1 by lia.
  assert (0 < 2 ^ n) as Hpn by (apply Z.pow_pos_nonneg; lia).
  assert (2 ^ 52 <= shr_m mrs1 < 2 ^ 53) as Hm1r.
  { rewrite Hm1. split.
    - apply Z.div_le_lower_bound; [lia|]. rewrite <- Z.pow_add_r by lia.
      replace (n + 52) with (Zdigits2 mx - 1) by lia. lia.
    - apply Z.div_lt_upper_bound; [lia|]. rewrite <- Z.pow_add_r by lia.
      replace (n + 53) with (Zdigits2 mx) by lia. lia. }
  set (m2 := round_nearest_even (shr_m mrs1) (loc_of_shr_record mrs1)).
  assert (m2 = shr_m mrs1 \/ m2 = shr_m mrs1 + 1) as Hm2 by apply round_nearest_even_range.
  assert (0 <= m2) as Hm2pos by lia.
  destruct (shr_fexp_spec m2 (ex + n) loc_Exact Hm2pos) as (mrs3 & e3 & -> & He3 & Hm3).
  unfold fexp64 in He3.
  destruct (Z.eq_dec m2 (2 ^ 53)) as [Hover|Hnot].
  - (* the mantissa overflows to 2^53 and is renormalised *)
    assert (Zdigits2 m2 = 54) as Hd2 by (rewrite Hover; reflexivity).
    rewrite Hd2 in He3. assert (e3 = ex + n + 1) as -> by lia.
    replace (ex + n + 1 - (ex + n)) with 1 in Hm3 by lia.
    rewrite Hover in Hm3. change (2 ^ 53 / 2 ^ 1) with (2 ^ 52) in Hm3.
    rewrite Hm3. change (2 ^ 52) with (Zpos (2 ^ 52)) at 1.
    change (Float.emax - Float.prec) with 971.
    destruct (Z.leb_spec (ex + n + 1) 971); [|lia].
    eexists _, _. split; [reflexivity|]. split; [lia|]. split; [lia|].
    cbv zeta. right.
    replace (ex + n + 1 - ex) with (n + 1) by lia.
    rewrite Z.pow_add_r by lia. rewrite <- Hm1.
    assert (shr_m mrs1 = 2 ^ 53 - 1) as -> by lia.
    change (2 ^ 1) with 2. lia.
  - assert (Zdigits2 m2 = 53) as Hd2 by (apply Zdigits2_eq; lia).
    rewrite Hd2 in He3. assert (e3 = ex + n) as -> by lia.
    replace (ex + n - (ex + n)) with 0 in Hm3 by lia.
    rewrite Z.pow_0_r, Z.div_1_r in Hm3. rewrite Hm3.
    destruct m2 as [|p|p] eqn:Hp; try lia.
    change (Float.emax - Float.prec) with 971.
    destruct (Z.leb_spec (ex + n) 971); [|lia].
    eexists _, _. split; [reflexivity|]. split; [lia|]. split; [lia|].
    cbv zeta. replace (ex + n - ex) with n by lia. rewrite <- Hm1.
    destruct Hm2 as [->| ->]; [left|right]; lia.
Qed.

Lemma Zdigits2_mono (a b : Z) : 0 <= a <= b -> Zdigits2 a <= Zdigits2 b.
Proof.
  intros [Ha Hab]. pose proof (Zdigits2_upper b ltac:(lia)).
  apply Zdigits2_le; try lia. apply Zdigits2_nonneg.
Qed.

Lemma div_bracket (q U : Z) :
  0 <= q -> 0 < U -> q / U * U <= q < q / U * U + U.
Proof.
  intros Hq HU. pose proof (Z.div_mod q U ltac:(lia)).
  pose proof (Z.mod_pos_bound q U HU). lia.
Qed.

Lemma round_half_even_near (n d : Z) :
  0 <= n -> 0 < d ->
  - d <= 2 * (Float.round_half_even n d * d - n) <= d.
Proof.
  intros Hn Hd. unfold Float.round_half_even.
  pose proof (Z.div_mod n d ltac:(lia)) as Hdm.
  pose proof (Z.mod_pos_bound n d Hd) as Hmod.
  set (q := n / d) in *. set (r := n mod d) in *.
  destruct (Z.compare_spec (2 * r) d) as [Heq|Hlt|Hgt].
  - destruct (Z.even q); nia.
  - nia.
  - nia.
Qed.

(** The quotient of two lengths in binary64: the double is within one
    unit in the last place of the exact ratio.  With [k] the number of
    bits by which the division scales its dividend, [m * 2 ^ (e + k)] is
    the double and [s * 2 ^ k / t] the ratio, both in units of
    [2 ^ -k]. *)
Lemma of_quotient_near (s : Z) (t : positive) :
  0 < s <= Zpos t -> Zpos t < 2 ^ 36 ->
  exists m e k U,
    Float.of_quotient s t = S754_finite false m e /\
    2 ^ 52 <= Zpos m < 2 ^ 53 /\
    53 <= k <= 89 /\ 0 <= e + k /\
    0 < U /\ U * 2 ^ 52 <= 2 ^ k /\
    - (U * Zpos t) <= Zpos m * 2 ^ (e + k) * Zpos t - s * 2 ^ k <= U * Zpos t /\
    Zpos m * 2 ^ (e + k) <= 2 ^ k + 2.
Proof.
  intros [Hs Hst] Ht. destruct s as [|p|p]; try lia.
  unfold Float.of_quotient, SFdiv_core_binary.
  rewrite fexp_eq. unfold fexp64.
  pose proof (Zdigits2_lower (Zpos p) ltac:(lia)) as Hp1.
  pose proof (Zdigits2_upper (Zpos p) ltac:(lia)) as Hp2.
  pose proof (Zdigits2_lower (Zpos t) ltac:(lia)) as Ht1.
  pose proof (Zdigits2_upper (Zpos t) ltac:(lia)) as Ht2.
  pose proof (Zdigits2_mono (Zpos p) (Zpos t) ltac:(lia)) as Hmono.
  assert (1 <= Zdigits2 (Zpos p)) as Hd1 by (simpl; lia).
  assert (Zdigits2 (Zpos t) <= 36) as Hd2 by (apply Zdigits2_le; lia).
  set (d1 := Zdigits2 (Zpos p)) in *. set (d2 := Zdigits2 (Zpos t)) in *.
  replace (Z.min (Z.max (d1 + 0 - (d2 + 0) - 53) (-1074)) (0 - 0))
    with (d1 - d2 - 53) by lia.
  set (k := 53 + d2 - d1).
  replace (0 - 0 - (d1 - d2 - 53)) with k by (subst k; lia).
  replace (d1 - d2 - 53) with (- k) by (subst k; lia).
  assert (53 <= k <= 89) as Hk by (subst k; lia).
  assert (0 < 2 ^ k) as Hpk by (apply Z.pow_pos_nonneg; lia).
  assert (match k with
          | 0 => Zpos p
          | Zpos _ => Z.shiftl (Zpos p) k
          | Zneg _ => 0
          end = Zpos p * 2 ^ k) as ->.
  { destruct k as [|kp|kp] eqn:Hkp; try lia. apply Z.shiftl_mul_pow2. lia. }
  pose proof (Z.div_mod (Zpos p * 2 ^ k) (Zpos t) ltac:(lia)) as Hdm.
  pose proof (Z.mod_pos_bound (Zpos p * 2 ^ k) (Zpos t) ltac:(lia)) as Hmod.
  unfold Z.div, Z.modulo in Hdm, Hmod.
  destruct (Z.div_eucl (Zpos p * 2 ^ k) (Zpos t)) as [q r].
  (* the quotient has 53 or 54 bits *)
  assert (2 ^ (d1 - 1) * 2 ^ k = 2 ^ 52 * 2 ^ d2) as E1.
  { rewrite <- !Z.pow_add_r by lia. f_equal. subst k. lia. }
  assert (2 ^ d1 * 2 ^ k = 2 ^ 54 * 2 ^ (d2 - 1)) as E2.
  { rewrite <- !Z.pow_add_r by lia. f_equal. subst k. lia. }
  set (P := 2 ^ k) in *. set (T := Zpos t) in *. set (S0 := Zpos p) in *.
  assert (0 < 2 ^ d2) as Hpd2 by (apply Z.pow_pos_nonneg; lia).
  assert (0 < 2 ^ (d2 - 1)) as Hpd2' by (apply Z.pow_pos_nonneg; lia).
  assert (0 < T) as HT by (subst T; lia).
  assert (2 ^ 52 <= q) as Hqlo.
  { set (c52 := 2 ^ 52) in *. assert (0 < c52) by (subst c52; lia).
    set (X := 2 ^ d2) in *. set (Y := 2 ^ (d1 - 1)) in *.
    clearbody c52 X Y P T S0. clear -E1 Hp1 Ht2 Hdm Hmod HT Hpk H Hpd2.
    assert (c52 * T < S0 * P + T) by nia. nia. }
  assert (q < 2 ^ 54) as Hqhi.
  { set (c54 := 2 ^ 54) in *. assert (0 < c54) by (subst c54; lia).
    set (X := 2 ^ (d2 - 1)) in *. set (Y := 2 ^ d1) in *.
    clearbody c54 X Y P T S0. clear -E2 Hp2 Ht1 Hdm Hmod HT Hpk H Hpd2'.
    assert (q * T < c54 * T); [|nia]. nia. }
  assert (q <= P) as HqP.
  { clearbody P T S0. clear -Hdm Hmod Hst HT Hpk Hs. nia. }
  assert (53 <= Zdigits2 q <= 54) as Hdq.
  { pose proof (Zdigits2_upper q ltac:(lia)). pose proof (Zdigits2_lower q ltac:(lia)).
    pose proof (Zdigits2_nonneg q).
    split.
    - assert (52 < Zdigits2 q); [apply (Z.pow_lt_mono_r_iff 2); lia|lia].
    - assert (Zdigits2 q - 1 < 54); [apply (Z.pow_lt_mono_r_iff 2); lia|lia]. }
  destruct (binary_round_aux_normal false q (- k) (new_location T r))
    as (m & e & Hf & He & Hm & HW); try lia.
  cbv zeta in HW.
  set (U := 2 ^ (Zdigits2 q - 53)) in *.
  assert (0 < U <= 2) as HU.
  { subst U. split; [apply Z.pow_pos_nonneg; lia|].
    change 2 with (2 ^ 1) at 2. apply Z.pow_le_mono_r; lia. }
  pose proof (div_bracket q U ltac:(lia) ltac:(lia)) as [HL1 HL2].
  replace (e - - k) with (e + k) in HW by lia.
  assert (U * 2 ^ 52 <= q) as HUq.
  { pose proof (Zdigits2_lower q ltac:(lia)) as Hql.
    replace (Zdigits2 q - 1) with (Zdigits2 q - 53 + 52) in Hql by lia.
    rewrite Z.pow_add_r in Hql by lia. exact Hql. }
  exists m, e, k, U. split; [exact Hf|].
  split; [exact Hm|]. split; [exact Hk|]. split; [lia|]. split; [lia|].
  split; [lia|].
  set (G := Zpos m * 2 ^ (e + k)) in *. set (L := q / U * U) in *.
  fold P. clearbody G L U P T S0.
  clear -HW HL1 HL2 Hdm Hmod HT HU HqP.
  split; [|destruct HW; lia].
  destruct HW as [-> | ->]; nia.
Qed.

(** The arithmetic of the three roundings of the success rate. *)
Lemma nearest_hundredth_bound (h A B M S P U1 U2 s t c : Z) :
  0 < t → 0 < S → 0 < P → 0 < c → 0 <= U1 → 0 <= U2 →
  - (U1 * t) <= M * t - s * P <= U1 * t →
  U1 * (64 * c) <= P →
  100 * M * S = B * P →
  - U2 <= A - B <= U2 →
  U2 * c <= S →
  - S <= 2 * (h * S - 100 * A) <= S →
  32800 * t < 64 * c →
  - t <= 2 * (h * t - 10000 * s) <= t.
Proof.
  intros Ht HS HP Hc HU1 HU2 Ha HaU Hb Hc' HcU Hd Hbig.
  set (W := S * P). assert (0 < W) as HW by (subst W; nia).
  set (T1 := 2 * (h * S - 100 * A) * (P * t)).
  set (T2 := 200 * (A - B) * (P * t)).
  set (T4 := 20000 * S * (M * t - s * P)).
  assert (0 <= P * t) as HPt by nia.
  assert (- (W * t) <= T1 <= W * t) as HT1.
  { subst T1 W. replace (S * P * t) with (S * (P * t)) by ring.
    set (X := P * t) in *. clearbody X. clear -Hd HPt. nia. }
  assert (- (200 * (W * t)) <= c * T2 <= 200 * (W * t)) as HT2.
  { subst T2 W.
    assert (- (U2 * c) <= c * (A - B) <= U2 * c) as H1 by (clear -Hc' Hc; nia).
    assert (- S <= c * (A - B) <= S) as H2 by lia.
    replace (c * (200 * (A - B) * (P * t))) with (200 * ((c * (A - B)) * (P * t))) by ring.
    replace (S * P * t) with (S * (P * t)) by ring.
    set (X := P * t) in *. set (Y := c * (A - B)) in *. clearbody X Y.
    clear -H2 HPt. nia. }
  assert (- (20000 * (W * t)) <= 64 * c * T4 <= 20000 * (W * t)) as HT4.
  { subst T4 W.
    set (E := M * t - s * P) in *.
    assert (- (P * t) <= 64 * c * E <= P * t) as H1.
    { assert (- (U1 * (64 * c) * t) <= 64 * c * E <= U1 * (64 * c) * t) as H0.
      { set (K := 64 * c) in *. assert (0 < K) by lia. clearbody K E. clear -Ha H. nia. }
      assert (U1 * (64 * c) * t <= P * t) by (clear -HaU Ht; nia). lia. }
    replace (64 * c * (20000 * S * E)) with (20000 * (S * (64 * c * E))) by ring.
    replace (S * P * t) with (S * (P * t)) by ring.
    set (X := P * t) in *. set (Y := 64 * c * E) in *. clearbody X Y.
    clear -H1 HS. nia. }
  assert (T1 + T2 + T4 = 2 * W * (h * t - 10000 * s)) as Hsum.
  { subst T1 T2 T4 W.
    replace (2 * (h * S - 100 * A) * (P * t) + 200 * (A - B) * (P * t)
             + 20000 * S * (M * t - s * P))
      with (2 * (S * P) * (h * t - 10000 * s) - 200 * t * (B * P - 100 * M * S)) by ring.
    rewrite Hb. ring. }
  set (Z0 := h * t - 10000 * s) in *.
  set (V := W * t) in *.
  assert (- ((64 * c + 32800) * V) <= 64 * c * (2 * W * Z0) <= (64 * c + 32800) * V) as Hall.
  { rewrite <- Hsum.
    replace (64 * c * (T1 + T2 + T4)) with (64 * c * T1 + 64 * (c * T2) + 64 * c * T4) by ring.
    assert (- (64 * c * V) <= 64 * c * T1 <= 64 * c * V) as H1.
    { set (K := 64 * c) in *. assert (0 < K) by lia. clearbody K V T1. clear -HT1 H. nia. }
    lia. }
  assert (32800 * V < 64 * c * W) as Hsmall.
  { subst V. clear -Hbig HW. nia. }
  set (K := 64 * c) in *. assert (0 < K) as HK by lia.
  assert (- (K * (W * (t + 1))) < K * (W * (2 * Z0)) < K * (W * (t + 1))) as Hfin.
  { replace (K * (W * (2 * Z0))) with (K * (2 * W * Z0)) by ring.
    replace (K * (W * (t + 1))) with (K * V + K * W) by (subst V; ring).
    replace ((K + 32800) * V) with (K * V + 32800 * V) in Hall by ring. lia. }
  assert (0 < K * W) as HKW by (clear -HK HW; nia).
  rewrite !Z.mul_assoc in Hfin.
  set (KW := K * W) in *. clearbody KW.
  assert (- (t + 1) < 2 * Z0 < t + 1); [|lia].
  clear -Hfin HKW. nia.
Qed.

(** The product of such a double and 100: again within one unit in the
    last place, in units of [2 ^ (e - 46)]. *)
Lemma mul_100_near (m : positive) (e : Z) :
  2 ^ 52 <= Zpos m < 2 ^ 53 ->
  -1000 <= e <= -52 ->
  Zpos m * 7036874417766400 < 2 ^ (53 - e) ->
  exists m' e' U,
    Float.mul (S754_finite false m e) (Float.of_Z 100) = S754_finite false m' e' /\
    e - 46 <= e' /\ e' < 0 /\
    0 < U /\ U * 2 ^ 46 <= 2 ^ (46 - e) /\
    - U <= Zpos m' * 2 ^ (e' - (e - 46)) - Zpos m * 7036874417766400 <= U.
Proof.
  intros Hm He Hlt. rewrite of_Z_100. unfold Float.mul, SFmul. cbn [xorb].
  rewrite Pos2Z.inj_mul.
  set (mx := Zpos m * 7036874417766400) in *.
  assert (2 ^ 104 <= mx) as Hlo.
  { subst mx. change (2 ^ 104) with (2 ^ 52 * 2 ^ 52).
    assert (2 ^ 52 <= 7036874417766400) by (vm_compute; discriminate).
    set (c := 7036874417766400) in *. set (c52 := 2 ^ 52) in *.
    assert (0 < c52) by (subst c52; lia). clearbody c c52. nia. }
  assert (0 < mx) as Hpos by (assert (0 < 2 ^ 104) by (apply Z.pow_pos_nonneg; lia); lia).
  pose proof (Zdigits2_lower mx Hpos) as Hdl.
  pose proof (Zdigits2_upper mx ltac:(lia)) as Hdu.
  pose proof (Zdigits2_nonneg mx) as Hdn.
  assert (105 <= Zdigits2 mx) as Hd1.
  { assert (104 < Zdigits2 mx); [|lia]. apply (Z.pow_lt_mono_r_iff 2); lia. }
  assert (Zdigits2 mx <= 53 - e) as Hd2 by (apply Zdigits2_le; lia).
  assert (2 ^ 52 <= mx) as Hlo'.
  { assert (2 ^ 52 <= 2 ^ 104) by (apply Z.pow_le_mono_r; lia). lia. }
  destruct (binary_round_aux_normal false mx (e + -46) loc_Exact)
    as (m' & e' & Hf & Hge & Hm' & HW); try lia.
  cbv zeta in HW.
  set (U := 2 ^ (Zdigits2 mx - 53)) in *.
  assert (0 < U) as HU by (subst U; apply Z.pow_pos_nonneg; lia).
  pose proof (div_bracket mx U ltac:(lia) HU) as [HL1 HL2].
  assert (U * 2 ^ 46 <= 2 ^ (46 - e)) as HUS.
  { subst U. rewrite <- Z.pow_add_r by lia. apply Z.pow_le_mono_r; lia. }
  replace (e' - (e + -46)) with (e' - (e - 46)) in HW by lia.
  assert (0 <= e' - (e - 46)) as Hg by lia.
  set (A := Zpos m' * 2 ^ (e' - (e - 46))) in *.
  assert (- U <= A - mx <= U) as Herr by (destruct HW; lia).
  exists m', e', U. split; [exact Hf|]. split; [lia|].
  split; [|split; [exact HU|split; [exact HUS|exact Herr]]].
  (* the product is below 128 *)
  assert (A < 2 ^ (54 - e)) as HA.
  { assert (U <= 2 ^ (53 - e)).
    { subst U. apply Z.pow_le_mono_r; lia. }
    replace (54 - e) with (1 + (53 - e)) by lia.
    rewrite Z.pow_add_r by lia. change (2 ^ 1) with 2. lia. }
  assert (2 ^ (52 + (e' - (e - 46))) <= A) as HA'.
  { subst A. rewrite Z.pow_add_r by lia.
    assert (0 < 2 ^ (e' - (e - 46))) by (apply Z.pow_pos_nonneg; lia).
    set (X := 2 ^ (e' - (e - 46))) in *. set (c52 := 2 ^ 52) in *.
    clearbody X c52. clear -Hm' H. nia. }
  assert (52 + (e' - (e - 46)) < 54 - e); [|lia].
  apply (Z.pow_lt_mono_r_iff 2); lia.
Qed.

Lemma hundredths_neg (m : positive) (e : Z) :
  e < 0 ->
  Float.hundredths m e = Float.round_half_even (100 * Zpos m) (2 ^ (- e)).
Proof. destruct e as [|k|k]; try lia. reflexivity. Qed.

(** The digits of a success rate: [h], the rate in hundredths of a
    percent as the text shows it, is an integer nearest to the exact
    value [10000 * s / t]. *)
Lemma rate_digits (s : Z) (t : positive) :
  0 <= s <= Zpos t -> Zpos t < 2 ^ 36 ->
  exists h : Z,
    Float.format_2f (Float.mul (Float.of_quotient s t) (Float.of_Z 100))
    = pretty (h / 100) +:+ "." +:+ Float.digit2 (h mod 100) /\
    0 <= h /\
    - Zpos t <= 2 * (h * Zpos t - 10000 * s) <= Zpos t.
Proof.
  intros [Hs Hst] Ht.
  destruct (Z.eq_dec s 0) as [->|Hne].
  { exists 0. split; [reflexivity|]. lia. }
  destruct (of_quotient_near s t ltac:(lia) Ht)
    as (m & e & k & U1 & Hq & Hm & Hk & Hek & HU1 & HU1k & Herr1 & Hle).
  assert (0 < 2 ^ k) as Hpk by (apply Z.pow_pos_nonneg; lia).
  assert (0 < 2 ^ (e + k)) as Hpek by (apply Z.pow_pos_nonneg; lia).
  (* the double is below 2 *)
  assert (e <= -52) as He.
  { assert (2 ^ (52 + (e + k)) < 2 ^ (k + 1)) as Hpow.
    { rewrite (Z.pow_add_r 2 52 (e + k)), (Z.pow_add_r 2 k 1) by lia.
      change (2 ^ 1) with 2.
      set (c52 := 2 ^ 52) in *. set (G := 2 ^ (e + k)) in *. set (P := 2 ^ k) in *.
      assert (8 <= P).
      { subst P. change 8 with (2 ^ 3). apply Z.pow_le_mono_r; lia. }
      set (M := Zpos m) in *. clearbody c52 G P M. clear -Hm Hle Hpek H.
      assert (c52 * G <= M * G) by nia. lia. }
    apply Z.pow_lt_mono_r_iff in Hpow; lia. }
  assert (Zpos m * 7036874417766400 < 2 ^ (53 - e)) as Hprod.
  { assert (Zpos m * 7036874417766400 * 2 ^ (e + k) < 2 ^ (53 - e) * 2 ^ (e + k)) as Hx.
    { rewrite <- Z.pow_add_r by lia. replace (53 - e + (e + k)) with (53 + k) by lia.
      rewrite (Z.pow_add_r 2 53 k) by lia.
      assert (8 <= 2 ^ k).
      { change 8 with (2 ^ 3). apply Z.pow_le_mono_r; lia. }
      change (2 ^ 53) with 9007199254740992.
      set (G := 2 ^ (e + k)) in *. set (P := 2 ^ k) in *. set (M := Zpos m) in *.
      clearbody G P M. clear -Hle H Hpek.
      assert (M * G * 7036874417766400 <= (P + 2) * 7036874417766400) by nia. lia. }
    set (G := 2 ^ (e + k)) in *. set (X := Zpos m * 7036874417766400) in *.
    set (Y := 2 ^ (53 - e)) in *. clearbody G X Y. clear -Hx Hpek. nia. }
  destruct (mul_100_near m e Hm ltac:(lia) Hprod)
    as (m' & e' & U2 & Hx & Hge & Hneg & HU2 & HU2S & Herr2).
  rewrite Hq, Hx. cbn [Float.format_2f].
  exists (Float.hundredths m' e'). split; [reflexivity|].
  split; [apply hundredths_nonneg|].
  rewrite hundredths_neg by lia.
  assert (0 < 2 ^ (- e')) as HD by (apply Z.pow_pos_nonneg; lia).
  assert (0 < 2 ^ (e' - (e - 46))) as HG by (apply Z.pow_pos_nonneg; lia).
  assert (0 < 2 ^ (46 - e)) as HS by (apply Z.pow_pos_nonneg; lia).
  pose proof (round_half_even_near (100 * Zpos m') (2 ^ (- e')) ltac:(lia) HD) as Hh.
  set (h := Float.round_half_even (100 * Zpos m') (2 ^ (- e'))) in *.
  apply (nearest_hundredth_bound h (Zpos m' * 2 ^ (e' - (e - 46)))
           (Zpos m * 7036874417766400) (Zpos m * 2 ^ (e + k)) (2 ^ (46 - e)) (2 ^ k)
           U1 U2 s (Zpos t) (2 ^ 46)); try lia.
  - change 7036874417766400 with (100 * 2 ^ 46).
    replace (2 ^ (46 - e)) with (2 ^ 46 * 2 ^ (- e)).
    2: { rewrite <- Z.pow_add_r by lia. f_equal; lia. }
    replace (2 ^ k) with (2 ^ (e + k) * 2 ^ (- e)).
    2: { rewrite <- Z.pow_add_r by lia. f_equal; lia. }
    ring.
  - replace (2 ^ (46 - e)) with (2 ^ (- e') * 2 ^ (e' - (e - 46))).
    2: { rewrite <- Z.pow_add_r by lia. f_equal; lia. }
    set (D := 2 ^ (- e')) in *. set (G := 2 ^ (e' - (e - 46))) in *.
    set (M' := Zpos m') in *. clearbody D G M' h. clear -Hh HG HD. nia.
Qed.

Lemma digit2_length (n : Z) :
  0 <= n < 100 -> String.length (Float.digit2 n) = 2%nat.
Proof.
  intros Hn. unfold Float.digit2.
  assert (∀ d, 0 <= d < 10 → String.length (pretty d) = 1%nat) as Hdigit.
  { intros d Hd.
    assert (d = 0 ∨ d = 1 ∨ d = 2 ∨ d = 3 ∨ d = 4 ∨ d = 5 ∨ d = 6 ∨ d = 7 ∨ d = 8 ∨ d = 9)
      as Hcases by lia.
    repeat destruct Hcases as [->|Hcases]; try reflexivity. by subst. }
  assert (∀ a b, String.length (a +:+ b) = (String.length a + String.length b)%nat) as Happ.
  { intros a b. induction a as [|c a IH]; csimpl; [done|]. by rewrite IH. }
  rewrite Happ, !Hdigit; [done| |].
  - apply Z.mod_pos_bound. lia.
  - split; [apply Z.div_pos; lia|]. apply Z.div_lt_upper_bound; lia.
Qed.

(** ** The error monad *)

Lemma mapM_fmap {A B : Type} (f : A → Result B) (g : A → B) (l : list A) :
  (∀ x, x ∈ l → f x = Ok (g x)) → mapM f l = Ok (g <$> l).
Proof.
  induction l as [|x l IH]; intros Hf; csimpl; [done|].
  rewrite (Hf x) by left. csimpl.
  rewrite IH; [done|]. intros y Hy. apply Hf. by right.
Qed.

(** ** Ordering of names *)

(** [a < b] on strings is the strict part of the byte-wise order [String.le]. *)
Lemma ltb_false_le (s t : string) : String.ltb s t = false ↔ String.le t s.
Proof.
  unfold String.le, String.ltb, String.leb.
  rewrite (String.compare_antisym s t).
  destruct (String.compare t s); csimpl; split; done.
Qed.

Lemma ltb_true_le (s t : string) : String.ltb s t = true → String.le s t.
Proof.
  unfold String.le, String.ltb, String.leb.
  destruct (String.compare s t); csimpl; done.
Qed.

Lemma ltb_true_ne (s t : string) : String.ltb s t = true → s ≠ t.
Proof.
  intros H ->. unfold String.ltb in H.
  destruct (String.compare t t) eqn:Hc; try done.
  pose proof (String.compare_antisym t t) as Ha. rewrite Hc in Ha. done.
Qed.

(** ** Sorting by key *)

Section sorting.
Context {A : Type}.

Implicit Types (x y : string * A) (l : list (string * A)).

Lemma insert_keyed_str x l :
  insert_keyed (tag x) (tag <$> l) = Ok (tag <$> insert_str x l).
Proof.
  induction l as [|y l IH]; csimpl; [done|].
  destruct (String.ltb y.1 x.1); csimpl; [|done].
  by rewrite IH.
Qed.

Lemma sort_keyed_str l : sort_keyed (tag <$> l) = Ok (tag <$> sort_str l).
Proof.
  induction l as [|x l IH]; csimpl; [done|].
  rewrite IH. csimpl. apply insert_keyed_str.
Qed.

Global Instance key_le_trans : Transitive (@key_le A).
Proof. intros x y z. unfold key_le. apply transitivity. Qed.

Lemma insert_str_perm x l : insert_str x l ≡ₚ x :: l.
Proof.
  induction l as [|y l IH]; csimpl; [done|].
  destruct (String.ltb y.1 x.1); [|done].
  rewrite IH. apply Permutation_swap.
Qed.

Lemma sort_str_perm l : sort_str l ≡ₚ l.
Proof.
  induction l as [|x l IH]; csimpl; [done|].
  by rewrite insert_str_perm, IH.
Qed.

Lemma insert_str_sorted x l :
  StronglySorted (@key_le A) l → StronglySorted (@key_le A) (insert_str x l).
Proof.
  induction 1 as [|y l Hl IH Hy]; csimpl.
  - repeat constructor.
  - destruct (String.ltb y.1 x.1) eqn:Hlt.
    + constructor; [done|].
      rewrite insert_str_perm. constructor; [|done].
      by apply ltb_true_le.
    + apply ltb_false_le in Hlt.
      constructor; [by constructor|].
      constructor; [done|].
      eapply Forall_impl; [exact Hy|].
      intros z Hz. by etrans.
Qed.

Lemma sort_str_sorted l : StronglySorted (@key_le A) (sort_str l).
Proof.
  induction l as [|x l IH]; csimpl; [constructor|].
  by apply insert_str_sorted.
Qed.

(** Stability: the elements that carry a given key come out in the
    order in which they went in. *)
Lemma insert_str_stable (k : string) x l :
  filter (λ y, y.1 = k) (insert_str x l) = filter (λ y, y.1 = k) (x :: l).
Proof.
  induction l as [|y l IH]; csimpl; [done|].
  destruct (String.ltb y.1 x.1) eqn:Hlt; [|done].
  apply ltb_true_ne in Hlt.
  rewrite !filter_cons in *.
  repeat case_decide; simplify_eq; try done; by rewrite IH.
Qed.

Lemma sort_str_stable (k : string) l :
  filter (λ y, y.1 = k) (sort_str l) = filter (λ y, y.1 = k) l.
Proof.
  induction l as [|x l IH]; csimpl; [done|].
  rewrite insert_str_stable, !filter_cons, IH. done.
Qed.

End sorting.

(** ** The probe executor: one probe *)

Ltac in_list := repeat first [apply list_elem_of_here | apply list_elem_of_further].

Lemma call_api_eq self api env name method endpoint :
  api_fields api !! "name" = Some name →
  api_fields api !! "method" = Some method →
  api_fields api !! "endpoint" = Some endpoint →
  ∃ r0 : probe_result,
    call_api self api env =
      Ok (match try_request env (request_of self api method endpoint) r0 with
          | (r, None) => r
          | (r, Some e) => handle r e
          end) ∧
    r0 !! "name" = Some (VStr name) ∧
    r0 !! "status" = None ∧ r0 !! "error" = None ∧
    Forall (λ k, r0 !! k = None) success_fields.
Proof.
  intros Hn Hm He. unfold call_api, getitem. rewrite Hn, Hm, He. csimpl.
  match goal with |- context [try_request _ _ ?r] => exists r end.
  split.
  { unfold request_of. by destruct (try_request _ _ _) as [? [?|]]. }
  split_and!; [reflexivity..|]. repeat constructor.
Qed.

Lemma call_api_raises self api env :
  ¬ has_required_keys api →
  ∃ k, k ∈ required_keys ∧ call_api self api env = Raise (KeyError k).
Proof.
  intros Hno. unfold call_api, getitem.
  destruct (api_fields api !! "name") as [n|] eqn:Hn; csimpl;
    [|exists "name"; split; [in_list|done]].
  destruct (api_fields api !! "method") as [m|] eqn:Hm; csimpl;
    [|exists "method"; split; [in_list|done]].
  destruct (api_fields api !! "endpoint") as [e|] eqn:He; csimpl;
    [|exists "endpoint"; split; [in_list|done]].
  destruct Hno. unfold has_required_keys. rewrite Hn, Hm, He. eauto.
Qed.

Lemma call_api_raise_inv self api env e :
  call_api self api env = Raise e → ∃ k, k ∈ required_keys ∧ e = KeyError k.
Proof.
  unfold call_api, getitem.
  destruct (api_fields api !! "name"); csimpl;
    [|intros [= <-]; exists "name"; split; [in_list|done]].
  destruct (api_fields api !! "method"); csimpl;
    [|intros [= <-]; exists "method"; split; [in_list|done]].
  destruct (api_fields api !! "endpoint"); csimpl;
    [|intros [= <-]; exists "endpoint"; split; [in_list|done]].
  by destruct (try_request _ _ _) as [? [?|]].
Qed.

Ltac lookup_simpl :=
  unfold update, handle;
  repeat first
    [ rewrite lookup_insert_eq
    | rewrite lookup_insert_ne by done
    | rewrite lookup_union
    | rewrite lookup_empty ];
  repeat match goal with H : _ !! _ = _ |- _ => rewrite H end;
  csimpl.

Lemma handle_fields (r : probe_result) (e : exn) :
  handle r e !! "status" = Some (VStr (handler_status e)) ∧
  handle r e !! "error" = Some (VStr (handler_error e)) ∧
  ∀ k, k ≠ "status" → k ≠ "error" → handle r e !! k = r !! k.
Proof.
  unfold handle, handler_status, handler_error.
  destruct (is_Timeout e), (is_ConnectionError e);
    (split_and!; [by lookup_simpl..|intros k ??; by lookup_simpl]).
Qed.

(** What a probe leaves in its result, by the way its [try] block ends. *)
Lemma call_api_fields self api env name method endpoint :
  api_fields api !! "name" = Some name →
  api_fields api !! "method" = Some method →
  api_fields api !! "endpoint" = Some endpoint →
  ∃ r : probe_result,
    call_api self api env = Ok r ∧
    r !! "name" = Some (VStr name) ∧
    match send env (request_of self api method endpoint) with
    | Raise e =>
        r !! "status" = Some (VStr (handler_status e)) ∧
        r !! "error" = Some (VStr (handler_error e)) ∧
        Forall (λ k, r !! k = None) success_fields
    | Ok resp =>
        r !! "status_code" = Some (VInt (status_code resp)) ∧
        (∃ x, r !! "response_time_ms" = Some (VFloat x)) ∧
        is_Some (r !! "response_size_bytes") ∧
        is_Some (r !! "content_type") ∧
        match json_body resp with
        | JsonRaises e =>
            r !! "status" = Some (VStr (handler_status e)) ∧
            r !! "error" = Some (VStr (handler_error e)) ∧
            r !! "response_data" = None
        | _ =>
            r !! "status" = Some (VStr "SUCCESS") ∧
            r !! "error" = None ∧
            is_Some (r !! "response_data")
        end
    end.
Proof.
  intros Hn Hm He.
  destruct (call_api_eq self api env _ _ _ Hn Hm He)
    as (r0 & -> & Hname & Hstatus & Herror & Hfields).
  unfold success_fields in Hfields. decompose_Forall_hyps.
  eexists. split; [done|]. unfold try_request.
  destruct (send env _) as [resp|e].
  - destruct (json_body resp) as [j| |e].
    + split_and!; lookup_simpl; eauto.
    + split_and!; lookup_simpl; eauto.
    + destruct (handle_fields
        (update r0
          (<["status" := VStr "SUCCESS"]>
           (<["status_code" := VInt (status_code resp)]>
            (<["response_time_ms" :=
                 VFloat (Float.round2
                   (Float.mul (Float.sub (end_time env) (start_time env))
                      (Float.of_Z 1000)))]>
             (<["response_size_bytes" :=
                  VInt (Z.of_nat (String.length (content resp)))]>
              (<["content_type" := VStr (default "N/A" (content_type resp))]> ∅))))))
        e) as (? & ? & Hother).
      split_and!; try done; rewrite ?Hother by done; lookup_simpl; eauto.
  - destruct (handle_fields r0 e) as (? & ? & Hother).
    split_and!; try done; [by rewrite Hother|].
    unfold success_fields. repeat constructor; by rewrite Hother.
Qed.

(** ** The probe executor: the pool *)

Lemma as_completed_perm {A : Type} (sched : list nat) (pending : list A) :
  as_completed (length pending) sched pending ≡ₚ pending.
Proof.
  remember (length pending) as n eqn:Hn.
  revert sched pending Hn.
  induction n as [|n IH]; intros sched pending Hn; csimpl.
  - by destruct pending.
  - assert (hd 0%nat sched `mod` length pending < length pending)%nat as Hlt
      by (apply Nat.mod_upper_bound; lia).
    destruct (lookup_lt_is_Some_2 _ _ Hlt) as [future Hfuture].
    rewrite Hfuture.
    etrans; [|symmetry; apply (delete_Permutation pending _ future Hfuture)].
    constructor. apply IH.
    rewrite length_delete by eauto. lia.
Qed.

Lemma as_completed_fmap {A B : Type} (f : A → B) (n : nat) (sched : list nat)
    (pending : list A) :
  as_completed n sched (f <$> pending) = f <$> as_completed n sched pending.
Proof.
  revert sched pending. induction n as [|n IH]; intros sched pending; csimpl; [done|].
  rewrite length_fmap, list_lookup_fmap.
  destruct (pending !! _) as [future|]; csimpl; [|done].
  by rewrite <- list_fmap_delete, IH.
Qed.

Lemma collect_Ok (rs acc : list probe_result) :
  collect (Ok <$> rs) acc = Ok (acc ++ rs).
Proof.
  revert acc. induction rs as [|r rs IH]; intros acc; csimpl.
  - by rewrite app_nil_r.
  - by rewrite IH, <- app_assoc.
Qed.

(** A future that raises makes the loop raise: the exception that leaves
    the loop is the one of the first such future to be yielded. *)
Lemma collect_Raise (futures : list (Result probe_result)) (acc : list probe_result) :
  (∃ e, Raise e ∈ futures) →
  ∃ e, Raise e ∈ futures ∧ collect futures acc = Raise e.
Proof.
  revert acc. induction futures as [|future futures IH]; intros acc [e He].
  - by apply elem_of_nil in He.
  - destruct future as [r|e']; csimpl.
    + apply elem_of_cons in He as [?|He]; [done|].
      destruct (IH (acc ++ [r])) as (e'' & ? & ?); [by eauto|].
      exists e''. split; [by right|done].
    + exists e'. split; [by left|done].
Qed.

Lemma futures_Ok self world (apis : list api_config) :
  Forall has_required_keys apis →
  imap (λ i api, call_api self api (world i)) apis = Ok <$> imap (probe self world) apis.
Proof.
  intros Hall. rewrite fmap_imap. apply imap_ext. intros i api Hi. csimpl.
  rewrite Forall_lookup in Hall. destruct (Hall i api Hi) as ([n Hn] & [m Hm] & [e He]).
  destruct (call_api_fields self api (world i) _ _ _ Hn Hm He) as (r & Hr & _).
  unfold probe. by rewrite Hr.
Qed.

Lemma probe_name self world i api name :
  api_fields api !! "name" = Some name →
  has_required_keys api →
  probe self world i api !! "name" = Some (VStr name).
Proof.
  intros Hn (_ & [m Hm] & [e He]).
  destruct (call_api_fields self api (world i) _ _ _ Hn Hm He) as (r & Hr & ? & _).
  unfold probe. by rewrite Hr.
Qed.

(** A run on descriptors that have their keys appends one result per
    descriptor to [self.results], in the order of completion. *)
Lemma run_all_apis_appends self apis max_workers world sched :
  cfg_monitoring_apis (config self) = Some apis →
  Forall has_required_keys apis →
  (0 < max_workers)%Z →
  ∃ new,
    new ≡ₚ imap (probe self world) apis ∧
    run_all_apis self max_workers world sched =
      Ok ({| config := config self;
             results := results self ++ new;
             base_url := base_url self |},
          results self ++ new).
Proof.
  intros Hapis Hall Hw. unfold run_all_apis. rewrite Hapis. csimpl.
  destruct (Z.leb_spec max_workers 0); [lia|].
  rewrite (futures_Ok _ _ _ Hall), length_fmap, as_completed_fmap, collect_Ok. csimpl.
  eexists. split; [|done]. apply as_completed_perm.
Qed.

(** ** The report aggregator *)

Lemma statuses_of (results : list probe_result) :
  Forall well_formed results →
  mapM (λ r : probe_result, getitem r "status") results =
    Ok ((λ r : probe_result, default (VInt 0) (r !! "status")) <$> results).
Proof.
  intros Hwf. apply mapM_fmap. intros r Hr.
  rewrite Forall_forall in Hwf. destruct (Hwf r Hr) as ([v Hv] & _).
  unfold getitem. by rewrite Hv.
Qed.

Lemma count_statuses (results : list probe_result) :
  Z.of_nat (length (filter (λ v, eq_str v "SUCCESS" = true)
    ((λ r : probe_result, default (VInt 0) (r !! "status")) <$> results)))
  = count_success results.
Proof.
  unfold count_success. f_equal.
  induction results as [|r results IH]; [done|].
  assert (eq_str (default (VInt 0) (r !! "status")) "SUCCESS" = is_success r) as Hr
    by (unfold is_success; by destruct (r !! "status")).
  csimpl. rewrite !filter_cons.
  repeat case_decide; csimpl; rewrite ?IH; congruence.
Qed.

Lemma response_times_of (results : list probe_result) :
  Forall well_formed results →
  omap (λ r : probe_result, r !! "response_time_ms") results
  = VFloat <$> omap latency results.
Proof.
  induction 1 as [|r results (_ & _ & Hr) _ IH]; [done|].
  csimpl. unfold latency at 1.
  destruct (r !! "response_time_ms") as [v|]; csimpl; [|done].
  destruct (Hr v eq_refl) as [x ->]. csimpl. by rewrite IH.
Qed.

Lemma sum_floats_plain (f : Float.float) (l : list Float.float) :
  sum_floats Before_3_12 f (S754_zero false) (VFloat <$> l)
  = Ok (VFloat (foldl Float.add f l)).
Proof. revert f. induction l as [|x l IH]; intros f; csimpl; [done|]. apply IH. Qed.

Lemma sum_floats_neumaier (f c : Float.float) (l : list Float.float) :
  sum_floats From_3_12 f c (VFloat <$> l)
  = Ok (VFloat (let '(f', c') := neumaier f c l in
                match c' with
                | S754_finite _ _ _ => Float.add f' c'
                | _ => f'
                end)).
Proof.
  revert f c. induction l as [|x l IH]; intros f c; csimpl; [done|].
  rewrite IH. unfold compensate. by destruct (SFleb (SFabs x) (SFabs f)).
Qed.

Lemma py_sum_floats py (x : Float.float) (l : list Float.float) :
  py_sum py (VFloat <$> x :: l) = Ok (VFloat (float_sum py (x :: l))).
Proof.
  unfold py_sum, float_sum. destruct py; csimpl.
  - apply sum_floats_plain.
  - apply sum_floats_neumaier.
Qed.

Lemma average_floats py (l : list Float.float) :
  average py (VFloat <$> l)
  = Ok (match l with [] => VInt 0 | _ => VFloat (Float.round2 (mean py l)) end).
Proof.
  destruct l as [|x l]; [done|]. unfold average.
  rewrite length_fmap. cbn [length].
  rewrite py_sum_floats. reflexivity.
Qed.

Lemma sorted_by_name_of (results : list probe_result) :
  Forall well_formed results →
  sorted_by_name results = Ok (sort_by_name results).
Proof.
  intros Hwf. unfold sorted_by_name, sort_by_name.
  rewrite (mapM_fmap _ (tag ∘ keyed)).
  - csimpl. rewrite list_fmap_compose, sort_keyed_str. csimpl.
    f_equal. rewrite <- list_fmap_compose. apply list_fmap_ext. by intros ? [].
  - intros r Hr. rewrite Forall_forall in Hwf.
    destruct (Hwf r Hr) as (_ & [n Hn] & _).
    unfold getitem, keyed, tag, name_of, compose. csimpl. by rewrite Hn.
Qed.

(** On well-formed results the aggregator returns, and what it returns is
    [report_of]. *)
Lemma build_report_of py results base clock mode :
  Forall well_formed results →
  build_report py results base clock mode = Ok (report_of py results base clock mode).
Proof.
  intros Hwf. unfold build_report, report_of.
  rewrite (statuses_of _ Hwf). csimpl. rewrite count_statuses.
  rewrite (sorted_by_name_of _ Hwf), (response_times_of _ Hwf), average_floats.
  unfold average_of, rate_text.
  destruct (0 <? count_success results)%Z; csimpl; [|done].
  by destruct (omap latency results).
Qed.

(** ** Claims about one probe *)

(** C2 (as amended).  A probe of a descriptor that has its three required
    keys never raises: [call_api] returns a result whose status is one of
    SUCCESS, TIMEOUT, CONNECTION_ERROR and ERROR.  When the request is
    answered and the body of the answer is read, the status is SUCCESS
    whatever the HTTP status code, which is recorded.  When an exception
    leaves the [try] block, raised by the request or while the body of a
    received answer is parsed, a timeout gives TIMEOUT, otherwise a
    connection error gives CONNECTION_ERROR, otherwise the status is
    ERROR, and the error text is recorded. *)
Theorem call_api_classifies self api env name method endpoint :
  api_fields api !! "name" = Some name →
  api_fields api !! "method" = Some method →
  api_fields api !! "endpoint" = Some endpoint →
  ∃ r : probe_result,
    call_api self api env = Ok r ∧
    status_of r ∈ outcome_statuses ∧
    match outcome_of (send env (request_of self api method endpoint)) with
    | Completed resp =>
        r !! "status" = Some (VStr "SUCCESS") ∧
        r !! "status_code" = Some (VInt (status_code resp)) ∧
        r !! "error" = None
    | Failed e =>
        (is_Timeout e = true →
           r !! "status" = Some (VStr "TIMEOUT") ∧
           r !! "error" = Some (VStr "Request timed out")) ∧
        (is_Timeout e = false → is_ConnectionError e = true →
           r !! "status" = Some (VStr "CONNECTION_ERROR") ∧
           r !! "error" = Some (VStr (exn_str e))) ∧
        (is_Timeout e = false → is_ConnectionError e = false →
           r !! "status" = Some (VStr "ERROR") ∧
           r !! "error" = Some (VStr (exn_str e)))
    end.
Proof.
  intros Hn Hm He.
  destruct (call_api_fields self api env _ _ _ Hn Hm He) as (r & Hr & _ & Hcase).
  exists r. split; [done|].
  assert (∀ e, r !! "status" = Some (VStr (handler_status e)) →
               status_of r ∈ outcome_statuses) as Hin.
  { intros e Hs. unfold status_of, handler_status, outcome_statuses in *. rewrite Hs.
    destruct (is_Timeout e), (is_ConnectionError e); in_list. }
  assert (∀ e, r !! "status" = Some (VStr (handler_status e)) →
               r !! "error" = Some (VStr (handler_error e)) →
    (is_Timeout e = true →
       r !! "status" = Some (VStr "TIMEOUT") ∧
       r !! "error" = Some (VStr "Request timed out")) ∧
    (is_Timeout e = false → is_ConnectionError e = true →
       r !! "status" = Some (VStr "CONNECTION_ERROR") ∧
       r !! "error" = Some (VStr (exn_str e))) ∧
    (is_Timeout e = false → is_ConnectionError e = false →
       r !! "status" = Some (VStr "ERROR") ∧
       r !! "error" = Some (VStr (exn_str e)))) as Hhandled.
  { intros e Hs Herr. unfold handler_status, handler_error in *.
    destruct (is_Timeout e), (is_ConnectionError e); naive_solver. }
  unfold outcome_of. destruct (send env _) as [resp|e].
  - destruct Hcase as (Hcode & _ & _ & _ & Hbody).
    destruct (json_body resp) as [j| |e].
    + destruct Hbody as (Hs & ? & _). split; [|done].
      unfold status_of, outcome_statuses. rewrite Hs. in_list.
    + destruct Hbody as (Hs & ? & _). split; [|done].
      unfold status_of, outcome_statuses. rewrite Hs. in_list.
    + destruct Hbody as (Hs & ? & _). eauto.
  - destruct Hcase as (Hs & ? & _). eauto.
Qed.

(** The probe of [sample_apis]' first endpoint, answered with a 503. *)
Lemma call_api_classifies_witness :
  ∃ r : probe_result,
    call_api sample_monitor (descriptor "Fund-Value-Exp" "GET" "/fundvalue")
      (env_answering (Ok {| status_code := 503; content := "down";
                            content_type := None; text := "down";
                            json_body := JsonDecodeError |})) = Ok r ∧
    r !! "status" = Some (VStr "SUCCESS") ∧
    r !! "status_code" = Some (VInt 503).
Proof.
  destruct (call_api_classifies sample_monitor
              (descriptor "Fund-Value-Exp" "GET" "/fundvalue")
              (env_answering (Ok {| status_code := 503; content := "down";
                                    content_type := None; text := "down";
                                    json_body := JsonDecodeError |}))
              "Fund-Value-Exp" "GET" "/fundvalue"
              eq_refl eq_refl eq_refl) as (r & Hr & _ & Hs & Hc & _).
  exists r. split_and!; assumption.
Defined.

(** C2 (as stated) fails: an answer with status 200 is received, the
    parser of its body raises an exception that is not a JSON decode
    error, and the probe is reported as ERROR. *)
Lemma received_response_reported_as_error :
  send (env_answering (Ok deep_response))
    (request_of sample_monitor (descriptor "LTC_COSTS" "GET" "/costs") "GET" "/costs")
    = Ok deep_response ∧
  status_code deep_response = 200%Z ∧
  ∃ r : probe_result,
    call_api sample_monitor (descriptor "LTC_COSTS" "GET" "/costs")
      (env_answering (Ok deep_response)) = Ok r ∧
    r !! "status" = Some (VStr "ERROR") ∧
    r !! "status" ≠ Some (VStr "SUCCESS").
Proof.
  split; [reflexivity|]. split; [reflexivity|].
  eexists. split; [reflexivity|]. split; [reflexivity|]. discriminate.
Qed.

(** C9.  At an answer whose body makes the parser raise, the result says
    ERROR and carries an [error], and it still carries the status code,
    the latency, the size and the content type that were written before
    the body was parsed. *)
Theorem failed_probe_keeps_success_fields :
  ∃ r : probe_result,
    call_api sample_monitor (descriptor "LTC_COSTS" "GET" "/costs")
      (env_answering (Ok deep_response)) = Ok r ∧
    r !! "status" = Some (VStr "ERROR") ∧
    is_Some (r !! "error") ∧
    r !! "status_code" = Some (VInt 200) ∧
    r !! "response_time_ms" = Some (VFloat (Float.of_Z 100)) ∧
    r !! "response_size_bytes" = Some (VInt 8) ∧
    r !! "content_type" = Some (VStr "application/json") ∧
    r !! "response_data" = None.
Proof.
  eexists. split; [reflexivity|].
  split_and!; try reflexivity. by eexists.
Qed.

(** Apart from that path the field-presence invariant holds: when the
    request itself raises, or when the body of the answer is read, a
    SUCCESS result has the five response fields and no [error], and a
    failed result has an [error] and none of the five. *)
Lemma call_api_field_presence self api env name method endpoint :
  api_fields api !! "name" = Some name →
  api_fields api !! "method" = Some method →
  api_fields api !! "endpoint" = Some endpoint →
  (∀ resp e, send env (request_of self api method endpoint) = Ok resp →
             json_body resp ≠ JsonRaises e) →
  ∃ r : probe_result,
    call_api self api env = Ok r ∧
    (status_of r = "SUCCESS" ∧ r !! "error" = None ∧
       Forall (λ k, is_Some (r !! k)) success_fields
     ∨ status_of r ∈ ["TIMEOUT"; "CONNECTION_ERROR"; "ERROR"] ∧
       is_Some (r !! "error") ∧
       Forall (λ k, r !! k = None) success_fields).
Proof.
  intros Hn Hm He Hbody.
  destruct (call_api_fields self api env _ _ _ Hn Hm He) as (r & Hr & _ & Hcase).
  exists r. split; [done|].
  destruct (send env _) as [resp|e].
  - left. destruct Hcase as (Hcode & [x Hx] & ? & ? & Hj).
    destruct (json_body resp) as [j| |e] eqn:Hjson;
      [| |by destruct (Hbody resp e eq_refl)];
      destruct Hj as (Hs & ? & ?); unfold status_of; rewrite Hs;
      (split_and!; [done..|]); unfold success_fields;
      repeat constructor; eauto.
  - right. destruct Hcase as (Hs & Herr & ?).
    unfold status_of, handler_status in *. rewrite Hs.
    split_and!; [|by eauto|done].
    destruct (is_Timeout e), (is_ConnectionError e); in_list.
Qed.

(** ** Claims about a run *)

Lemma sample_apis_have_keys : Forall has_required_keys sample_apis.
Proof. repeat constructor; by eexists. Qed.

(** C3 (as amended).  On a freshly constructed monitor whose descriptors
    all have their required keys, and for every positive worker count and
    every order of completion, [run_all_apis] returns: it returns
    [self.results], which holds exactly the results of the probes of the
    descriptors, one for each, none lost and none repeated, each under
    the name of its descriptor.  For the empty descriptor list the result
    list is empty, and the report on it has success rate ["0%"] and
    average response time [0]. *)
Theorem run_all_apis_one_result_per_descriptor py self apis max_workers world sched :
  cfg_monitoring_apis (config self) = Some apis →
  Forall has_required_keys apis →
  results self = [] →
  (0 < max_workers)%Z →
  ∃ self' rs,
    run_all_apis self max_workers world sched = Ok (self', rs) ∧
    results self' = rs ∧
    Ok <$> rs ≡ₚ imap (λ i api, call_api self api (world i)) apis ∧
    length rs = length apis ∧
    (λ r : probe_result, r !! "name") <$> rs
      ≡ₚ (λ api, VStr <$> api_fields api !! "name") <$> apis ∧
    (apis = [] →
     rs = [] ∧
     ∀ clock, ∃ rep,
       generate_report py self' clock = Ok rep ∧
       success_rate (summary rep) = "0%" ∧
       average_response_time_ms (summary rep) = VInt 0).
Proof.
  intros Hapis Hall Hfresh Hw.
  destruct (run_all_apis_appends self apis max_workers world sched Hapis Hall Hw)
    as (new & Hperm & Hrun).
  rewrite Hfresh in Hrun. csimpl in Hrun.
  eexists _, new. split; [exact Hrun|]. split; [done|].
  split_and!.
  - by rewrite (futures_Ok _ _ _ Hall), Hperm.
  - by rewrite Hperm, length_imap.
  - rewrite Hperm, fmap_imap,
      <- (imap_const (λ api, VStr <$> api_fields api !! "name")).
    apply reflexive_eq, imap_ext.
    intros i api Hi. csimpl. unfold const.
    rewrite Forall_lookup in Hall. pose proof (Hall i api Hi) as Hkeys.
    destruct Hkeys as ([n Hn] & ?).
    rewrite Hn. csimpl. apply probe_name; [done|]. by apply (Hall i api).
  - intros ->. csimpl in Hperm. apply Permutation_nil_r in Hperm as ->.
    split; [done|]. intros clock. eexists. split; [reflexivity|]. split; reflexivity.
Qed.

(** The nine sample endpoints, ten workers, and a pool that completes the
    probes out of their order of submission. *)
Lemma run_all_apis_one_result_per_descriptor_witness :
  ∃ self' rs,
    run_all_apis sample_monitor 10 sample_world [4; 0; 6; 2; 1]%nat = Ok (self', rs) ∧
    length rs = 9%nat.
Proof.
  destruct (run_all_apis_one_result_per_descriptor From_3_12 sample_monitor sample_apis 10
              sample_world [4; 0; 6; 2; 1]%nat eq_refl sample_apis_have_keys eq_refl
              eq_refl) as (self' & rs & Hrun & _ & _ & Hlen & _).
  exists self', rs. split; assumption.
Defined.

(** C3 (as stated) fails, in two ways.  The method returns
    [self.results], to which every run appends: a second run on the same
    monitor returns eighteen results for the nine descriptors.  And a
    descriptor list is not always answered with results: on a descriptor
    without [endpoint] the run raises [KeyError]. *)
Lemma second_run_returns_both_runs :
  (∃ m rs m' rs',
     run_all_apis sample_monitor 10 sample_world [] = Ok (m, rs) ∧
     run_all_apis m 10 sample_world [] = Ok (m', rs') ∧
     length sample_apis = 9%nat ∧
     length rs' = 18%nat) ∧
  run_all_apis
    {| config := {| cfg_base_url := Some "https://example.com";
                    cfg_monitoring_apis :=
                      Some [{| api_fields := <["name" := "No-Endpoint"]>
                                               (<["method" := "GET"]> ∅);
                               api_params := None; api_body := None |}];
                    cfg_timeout := None |};
       results := [];
       base_url := Some "https://example.com" |}
    10 sample_world [] = Raise (KeyError "endpoint").
Proof.
  split; [|reflexivity].
  destruct (run_all_apis_appends sample_monitor sample_apis 10 sample_world [] eq_refl
              sample_apis_have_keys eq_refl) as (new & Hperm & Hrun).
  destruct (run_all_apis_appends
              {| config := config sample_monitor;
                 results := results sample_monitor ++ new;
                 base_url := base_url sample_monitor |}
              sample_apis 10 sample_world [] eq_refl sample_apis_have_keys eq_refl)
    as (new' & Hperm' & Hrun').
  eexists _, _, _, _. split; [exact Hrun|]. split; [exact Hrun'|]. split; [done|].
  csimpl. by rewrite length_app, Hperm, Hperm', !length_imap.
Qed.

(** C10.  A descriptor that lacks one of the keys [name], [method] and
    [endpoint] makes [call_api] raise [KeyError] for that key, whatever
    the network would have answered: the exception is not turned into an
    ERROR result.  A run whose descriptor list contains such a descriptor
    raises a [KeyError] out of [run_all_apis], for every positive worker
    count and every order of completion, and returns no result list. *)
Theorem missing_key_aborts_run self apis api max_workers world sched :
  cfg_monitoring_apis (config self) = Some apis →
  api ∈ apis →
  ¬ has_required_keys api →
  (0 < max_workers)%Z →
  (∀ env, ∃ k, k ∈ required_keys ∧ call_api self api env = Raise (KeyError k)) ∧
  ∃ k, k ∈ required_keys ∧
       run_all_apis self max_workers world sched = Raise (KeyError k).
Proof.
  intros Hapis Hin Hno Hw. split.
  { intros env. by apply call_api_raises. }
  unfold run_all_apis. rewrite Hapis. csimpl.
  destruct (Z.leb_spec max_workers 0); [lia|].
  set (futures := imap (λ i api, call_api self api (world i)) apis).
  apply list_elem_of_lookup in Hin as [i Hi].
  destruct (call_api_raises self api (world i) Hno) as (k0 & _ & Hk0).
  assert (Raise (KeyError k0) ∈ futures) as Hraise.
  { rewrite <- Hk0. subst futures.
    apply (elem_of_lookup_imap_2 (λ i api, call_api self api (world i)) apis api i Hi). }
  destruct (collect_Raise (as_completed (length futures) sched futures) (results self))
    as (e & He & Hcollect).
  { exists (KeyError k0). by rewrite as_completed_perm. }
  rewrite as_completed_perm in He.
  apply elem_of_lookup_imap_1 in He as (j & api' & Hcall & _).
  symmetry in Hcall. apply call_api_raise_inv in Hcall as (k & Hk & ->).
  exists k. split; [done|]. by rewrite Hcollect.
Qed.

(** A descriptor without [endpoint] among the sample endpoints. *)
Lemma missing_key_aborts_run_witness :
  ∃ k,
    run_all_apis
      {| config := {| cfg_base_url := Some "https://example.com";
                      cfg_monitoring_apis :=
                        Some (sample_apis ++
                              [{| api_fields := <["name" := "No-Endpoint"]>
                                                  (<["method" := "GET"]> ∅);
                                  api_params := None; api_body := None |}]);
                      cfg_timeout := None |};
         results := [];
         base_url := Some "https://example.com" |}
      10 sample_world [] = Raise (KeyError k).
Proof.
  destruct (missing_key_aborts_run
    {| config := {| cfg_base_url := Some "https://example.com";
                    cfg_monitoring_apis :=
                      Some (sample_apis ++
                            [{| api_fields := <["name" := "No-Endpoint"]>
                                                (<["method" := "GET"]> ∅);
                                api_params := None; api_body := None |}]);
                    cfg_timeout := None |};
       results := [];
       base_url := Some "https://example.com" |}
    _ {| api_fields := <["name" := "No-Endpoint"]> (<["method" := "GET"]> ∅);
         api_params := None; api_body := None |}
    10 sample_world [] eq_refl) as (_ & k & _ & Hk).
  - apply elem_of_app. right. apply list_elem_of_singleton. reflexivity.
  - intros (_ & _ & [x Hx]). discriminate Hx.
  - reflexivity.
  - exists k. exact Hk.
Defined.

(** ** The sorted detail list *)

Lemma keyed_elements (l : list (string * probe_result)) :
  Forall (λ y, y = keyed y.2) l → l = keyed <$> l.*2.
Proof. induction 1 as [|y l Hy _ IH]; csimpl; [done|]. by rewrite <- Hy, <- IH. Qed.

Lemma sort_str_keyed (l : list probe_result) :
  sort_str (keyed <$> l) = keyed <$> sort_by_name l.
Proof.
  unfold sort_by_name. apply keyed_elements.
  rewrite sort_str_perm. apply Forall_fmap, Forall_forall. done.
Qed.

Lemma sort_by_name_perm (l : list probe_result) : sort_by_name l ≡ₚ l.
Proof.
  unfold sort_by_name. rewrite sort_str_perm, <- list_fmap_compose.
  by rewrite list_fmap_id.
Qed.

Lemma StronglySorted_fmap_inv {A B : Type} (f : A → B) (R : relation B) (l : list A) :
  StronglySorted R (f <$> l) → StronglySorted (λ a b, R (f a) (f b)) l.
Proof.
  induction l as [|x l IH]; csimpl; [constructor|].
  intros [Hx Hl]%StronglySorted_cons. constructor; [by apply IH|].
  rewrite Forall_fmap in Hx. exact Hx.
Qed.

Lemma sort_by_name_sorted (l : list probe_result) :
  StronglySorted name_le (sort_by_name l).
Proof.
  apply (StronglySorted_fmap_inv keyed key_le).
  rewrite <- sort_str_keyed. apply sort_str_sorted.
Qed.

Lemma filter_keyed (k : string) (l : list probe_result) :
  filter (λ y : string * probe_result, y.1 = k) (keyed <$> l)
  = keyed <$> filter (λ r, name_of r = k) l.
Proof.
  induction l as [|r l IH]; [done|].
  csimpl. rewrite !filter_cons. csimpl.
  repeat case_decide; csimpl; try done; by rewrite IH.
Qed.

Global Instance keyed_inj : Inj (=) (=) keyed.
Proof. by intros a b [= _ ->]. Qed.

Lemma sort_by_name_stable (k : string) (l : list probe_result) :
  filter (λ r, name_of r = k) (sort_by_name l) = filter (λ r, name_of r = k) l.
Proof.
  apply (inj (fmap keyed)).
  by rewrite <- !filter_keyed, <- sort_str_keyed, sort_str_stable.
Qed.

Lemma names_sorted (l : list probe_result) :
  StronglySorted String.le (name_of <$> sort_by_name l).
Proof.
  apply (StronglySorted_fmap name_of name_le); [done|]. apply sort_by_name_sorted.
Qed.

(** Results with pairwise distinct names come out in one order, whatever
    the order in which they went in. *)
Lemma sort_by_name_order_free (l l' : list probe_result) :
  NoDup (name_of <$> l) → l ≡ₚ l' → sort_by_name l = sort_by_name l'.
Proof.
  intros Hnodup Hperm.
  apply (StronglySorted_unique_strong name_le);
    [|apply sort_by_name_sorted..|by rewrite !sort_by_name_perm].
  intros x y Hx Hy Hxy Hyx.
  rewrite sort_by_name_perm in Hx. rewrite sort_by_name_perm, <- Hperm in Hy.
  assert (name_of x = name_of y) as Hname by (by apply (anti_symm String.le)).
  apply list_elem_of_lookup in Hx as [i Hi]. apply list_elem_of_lookup in Hy as [j Hj].
  assert (i = j) as ->.
  { apply (NoDup_lookup _ _ _ (name_of x) Hnodup).
    - by rewrite list_lookup_fmap, Hi.
    - by rewrite list_lookup_fmap, Hj, Hname. }
  congruence.
Qed.

(** ** Claims about the report *)

Lemma generate_report_of py self clock :
  Forall well_formed (results self) →
  generate_report py self clock = Ok (report_of py (results self) (base_url self) clock None).
Proof. apply build_report_of. Qed.

Lemma success_result_well_formed name latency : well_formed (success_result name latency).
Proof.
  split_and!; [by eexists|by eexists|].
  intros v [= <-]. by eexists.
Qed.

Lemma timeout_result_well_formed name : well_formed (timeout_result name).
Proof. split_and!; [by eexists|by eexists|]. intros v [=]. Qed.

Ltac sample_well_formed :=
  unfold monitor_with; cbn [results];
  repeat match goal with
    | |- Forall _ [] => apply Forall_nil_2
    | |- Forall _ (success_result _ _ :: _) =>
        apply Forall_cons_2; [apply success_result_well_formed|]
    | |- Forall _ (timeout_result _ :: _) =>
        apply Forall_cons_2; [apply timeout_result_well_formed|]
    end.

Lemma append_assoc (a b c : string) : (a +:+ b) +:+ c = a +:+ (b +:+ c).
Proof.
  induction a as [|x a IH]; [done|].
  change (String x ((a +:+ b) +:+ c) = String x (a +:+ (b +:+ c))). by rewrite IH.
Qed.

Lemma count_success_bounds (results : list probe_result) :
  (0 ≤ count_success results ≤ Z.of_nat (length results))%Z.
Proof.
  unfold count_success.
  pose proof (length_filter (λ r, is_success r = true) results). lia.
Qed.

(** C6.  On results that each have a status and a name, the report is
    produced and its [detailed_results] is the stable sort of the
    results by name: it holds the same results, in ascending byte-wise
    (hence case-sensitive) order of their names, and results that share a
    name keep the order in which they were given.  It is the same list at
    every call.  Results named B, A and C, given in any order, come out
    as A, B, C. *)
Theorem detailed_results_stable_sort py self clock :
  Forall well_formed (results self) →
  ∃ rep,
    generate_report py self clock = Ok rep ∧
    detailed_results rep ≡ₚ results self ∧
    StronglySorted name_le (detailed_results rep) ∧
    (∀ k, filter (λ r, name_of r = k) (detailed_results rep)
          = filter (λ r, name_of r = k) (results self)) ∧
    (∀ clock', ∃ rep',
       generate_report py self clock' = Ok rep' ∧
       detailed_results rep' = detailed_results rep) ∧
    (name_of <$> results self ≡ₚ ["B"; "A"; "C"] →
     name_of <$> detailed_results rep = ["A"; "B"; "C"]).
Proof.
  intros Hwf. eexists. split; [by apply generate_report_of|]. csimpl.
  split_and!.
  - apply sort_by_name_perm.
  - apply sort_by_name_sorted.
  - intros k. apply sort_by_name_stable.
  - intros clock'. eexists. split; [by apply generate_report_of|done].
  - intros Hnames.
    apply (StronglySorted_unique String.le).
    + apply names_sorted.
    + repeat constructor; done.
    + rewrite sort_by_name_perm, Hnames.
      apply Permutation_swap.
Qed.

(** Three results that complete in the order C, A, B. *)
Lemma detailed_results_stable_sort_witness :
  ∃ rep,
    generate_report From_3_12
      (monitor_with [success_result "C" (Float.of_Z 3); timeout_result "A";
                     success_result "B" (Float.of_Z 2)])
      "2024-05-01T12:00:01" = Ok rep ∧
    name_of <$> detailed_results rep = ["A"; "B"; "C"].
Proof.
  destruct (detailed_results_stable_sort From_3_12
              (monitor_with [success_result "C" (Float.of_Z 3); timeout_result "A";
                             success_result "B" (Float.of_Z 2)])
              "2024-05-01T12:00:01") as (rep & Hrep & _ & _ & _ & _ & Hnames).
  - sample_well_formed.
  - exists rep. split; [exact Hrep|]. apply Hnames.
    change (["C"; "A"; "B"] ≡ₚ ["B"; "A"; "C"]).
    etrans; [apply perm_swap|]. etrans; [apply perm_skip, perm_swap|]. apply perm_swap.
Defined.

(** The order is the one of the bytes: capital letters come first. *)
Example names_are_case_sensitive :
  name_of <$> sort_by_name
    [success_result "b" (Float.of_Z 1); success_result "A" (Float.of_Z 1);
     success_result "a" (Float.of_Z 1); success_result "B" (Float.of_Z 1)]
  = ["A"; "B"; "a"; "b"].
Proof. reflexivity. Qed.

(** C4 (as amended).  On results that each have a status and a name, the
    report is produced; its [total_apis] is the number of results and
    its [successful] the number of results whose status is SUCCESS.  With
    no result at all the success rate is the text ["0%"].  Otherwise, for
    fewer than [2 ^ 36] results, it is a whole part, a point, exactly two
    digits and a percent sign, and the number [h] of hundredths that
    these digits show is an integer nearest to the exact value
    [10000 * successful / total_apis]: the text is the exact percentage
    rounded to two decimal places, off by at most half a hundredth.
    When the exact percentage lies midway between two hundredths the
    text may show either of them, since the quotient and the product are
    rounded in binary before the decimals are. *)
Theorem success_rate_two_decimals py self clock :
  Forall well_formed (results self) →
  (Z.of_nat (length (results self)) < 2 ^ 36)%Z →
  ∃ rep,
    generate_report py self clock = Ok rep ∧
    total_apis (summary rep) = Z.of_nat (length (results self)) ∧
    successful (summary rep) = count_success (results self) ∧
    (total_apis (summary rep) = 0%Z →
     success_rate (summary rep) = "0%" ∧ success_rate (summary rep) ≠ "0.00%") ∧
    ((0 < total_apis (summary rep))%Z →
     ∃ h : Z,
       success_rate (summary rep)
       = pretty (h / 100)%Z +:+ "." +:+ Float.digit2 (h mod 100) +:+ "%" ∧
       String.length (Float.digit2 (h mod 100)) = 2%nat ∧
       (0 ≤ h ≤ 10000)%Z ∧
       (- total_apis (summary rep)
        ≤ 2 * (h * total_apis (summary rep) - 10000 * successful (summary rep))
        ≤ total_apis (summary rep))%Z).
Proof.
  intros Hwf Hsmall. eexists. split; [by apply generate_report_of|]. csimpl.
  split_and!; [done|done| |].
  - intros Hzero. unfold rate_text. rewrite Hzero. done.
  - intros Hpos. unfold rate_text.
    destruct (Z.ltb_spec 0 (Z.of_nat (length (results self)))); [|lia].
    pose proof (count_success_bounds (results self)) as Hb.
    destruct (rate_digits (count_success (results self))
                (Z.to_pos (Z.of_nat (length (results self)))))
      as (h & Heq & Hh & Hnear).
    { rewrite Z2Pos.id by lia. lia. }
    { rewrite Z2Pos.id by lia. lia. }
    rewrite Z2Pos.id in Hnear by lia.
    exists h. split; [by rewrite Heq, !append_assoc|].
    split; [apply digit2_length, Z.mod_pos_bound; lia|].
    split; [|exact Hnear].
    split; [done|].
    set (t := Z.of_nat (length (results self))) in *.
    set (s := count_success (results self)) in *. clearbody t s.
    clear -Hnear Hb Hpos. nia.
Qed.

(** Two of three probes succeed: the nearest number of hundredths to
    [20000 / 3] is 6667. *)
Lemma success_rate_two_decimals_witness :
  ∃ rep,
    generate_report From_3_12
      (monitor_with [success_result "C" (Float.of_Z 3); timeout_result "A";
                     success_result "B" (Float.of_Z 2)])
      "2024-05-01T12:00:01" = Ok rep ∧
    success_rate (summary rep) = "66.67%".
Proof.
  destruct (success_rate_two_decimals From_3_12
              (monitor_with [success_result "C" (Float.of_Z 3); timeout_result "A";
                             success_result "B" (Float.of_Z 2)])
              "2024-05-01T12:00:01") as (rep & Hrep & Htotal & Hsucc & _ & Hrate).
  - sample_well_formed.
  - reflexivity.
  - exists rep. split; [exact Hrep|].
    destruct Hrate as (h & -> & _ & _ & Hnear); [by rewrite Htotal|].
    rewrite Htotal, Hsucc in Hnear.
    change (Z.of_nat (length (results (monitor_with
              [success_result "C" (Float.of_Z 3); timeout_result "A";
               success_result "B" (Float.of_Z 2)])))) with 3%Z in Hnear.
    change (count_success (results (monitor_with
              [success_result "C" (Float.of_Z 3); timeout_result "A";
               success_result "B" (Float.of_Z 2)]))) with 2%Z in Hnear.
    assert (h = 6667%Z) as -> by lia. reflexivity.
Defined.

(** C4 (as stated) fails.  With 23 successes among 160 results the exact
    percentage is 14.375, midway between 14.37 and 14.38, and rounding it
    to two decimal places gives 14.38; the report says 14.37, since the
    binary product of the binary quotient and 100 lies just below
    14.375. *)
Lemma success_rate_tie_rounds_down :
  let results :=
    replicate 23 (success_result "A" (Float.of_Z 1)) ++ replicate 137 (timeout_result "B") in
  success_rate <$>
    (summary <$> generate_report From_3_12 (monitor_with results) "2024-05-01T12:00:01")
  = Ok "14.37%" ∧
  exact_rate 23 160 = "14.38%" ∧
  (2 * (10000 * 23) = 2 * 1437 * 160 + 160)%Z.
Proof.
  cbv zeta. split; [|split; [vm_compute; reflexivity|reflexivity]].
  rewrite (generate_report_of From_3_12).
  - vm_compute. reflexivity.
  - unfold monitor_with. cbn [results]. apply Forall_app. split.
    + apply Forall_replicate, success_result_well_formed.
    + apply Forall_replicate, timeout_result_well_formed.
Qed.

Lemma latencies_of_successes (results : list probe_result) :
  (∀ r, r ∈ results → is_Some (r !! "response_time_ms") ↔ is_success r = true) →
  omap latency results = omap latency (filter (λ r, is_success r = true) results).
Proof.
  induction results as [|r results IH]; intros Hinv; [done|].
  rewrite filter_cons. csimpl.
  assert (omap latency results
          = omap latency (filter (λ r, is_success r = true) results)) as ->.
  { apply IH. intros r' Hr'. apply Hinv. by right. }
  case_decide as Hs; csimpl; [done|].
  assert (latency r = None) as ->; [|done].
  unfold latency. destruct (r !! "response_time_ms") as [v|] eqn:Hv; [|done].
  destruct Hs. apply (Hinv r); [by left|]. by rewrite Hv.
Qed.

(** C5 (as amended).  On results that each have a status and a name (and
    whose latencies are floats), the report is produced.  With no
    successful result its [average_response_time_ms] is the integer [0].
    When the results that carry a latency are exactly the successful
    ones, it is the arithmetic mean of the latencies of the successful
    results as the interpreter forms it, rounded to two decimals: the
    sum that the built-in [sum] returns on the latencies in the order of
    the results (the plain sum from left to right before CPython 3.12,
    the compensated sum from 3.12 on), divided by their number. *)
Theorem average_response_time_rounded_mean py self clock :
  Forall well_formed (results self) →
  ∃ rep,
    generate_report py self clock = Ok rep ∧
    (count_success (results self) = 0%Z →
     average_response_time_ms (summary rep) = VInt 0) ∧
    ((∀ r, r ∈ results self →
           is_Some (r !! "response_time_ms") ↔ is_success r = true) →
     average_response_time_ms (summary rep)
     = match omap latency (filter (λ r, is_success r = true) (results self)) with
       | [] => VInt 0
       | l => VFloat (Float.round2 (mean py l))
       end).
Proof.
  intros Hwf. eexists. split; [by apply generate_report_of|]. csimpl.
  unfold average_of. split.
  - by intros ->.
  - intros Hinv. rewrite (latencies_of_successes _ Hinv).
    destruct (Z.ltb_spec 0 (count_success (results self))) as [|Hzero]; [done|].
    unfold count_success in Hzero.
    destruct (filter (λ r, is_success r = true) (results self)); [done|].
    csimpl in Hzero. lia.
Qed.

(** Latencies 1.0, 2.0 and 2.0 ms and a probe that timed out. *)
Lemma average_response_time_rounded_mean_witness :
  ∃ rep,
    generate_report From_3_12
      (monitor_with [success_result "A" (Float.of_Z 1); success_result "B" (Float.of_Z 2);
                     timeout_result "C"; success_result "D" (Float.of_Z 2)])
      "2024-05-01T12:00:01" = Ok rep ∧
    average_response_time_ms (summary rep) = VFloat (Float.of_quotient 167 100).
Proof.
  destruct (average_response_time_rounded_mean From_3_12
              (monitor_with [success_result "A" (Float.of_Z 1);
                             success_result "B" (Float.of_Z 2);
                             timeout_result "C"; success_result "D" (Float.of_Z 2)])
              "2024-05-01T12:00:01") as (rep & Hrep & _ & Havg).
  - sample_well_formed.
  - exists rep. split; [exact Hrep|]. rewrite Havg; [vm_compute; reflexivity|].
    intros r Hr. repeat (apply elem_of_cons in Hr as [->|Hr]); [..|by apply elem_of_nil in Hr];
      (split; [reflexivity|intros _; by eexists]) || (split; [intros [x Hx]; discriminate Hx|intros Hx; discriminate Hx]).
Defined.

(** C5 (as stated) fails: for successful probes with latencies 1.0, 2.0
    and 2.0 ms the report says 1.67, which is not their arithmetic mean
    (the double nearest to 5/3). *)
Lemma average_is_rounded :
  ∃ rep,
    generate_report From_3_12
      (monitor_with [success_result "A" (Float.of_Z 1); success_result "B" (Float.of_Z 2);
                     success_result "C" (Float.of_Z 2)])
      "2024-05-01T12:00:01" = Ok rep ∧
    average_response_time_ms (summary rep) = VFloat (Float.of_quotient 167 100) ∧
    mean From_3_12 [Float.of_Z 1; Float.of_Z 2; Float.of_Z 2] = Float.of_quotient 5 3 ∧
    average_response_time_ms (summary rep)
    ≠ VFloat (mean From_3_12 [Float.of_Z 1; Float.of_Z 2; Float.of_Z 2]).
Proof.
  eexists. split; [reflexivity|].
  split; [vm_compute; reflexivity|].
  split; [vm_compute; reflexivity|].
  vm_compute. discriminate.
Qed.

(** The sum, and with it the average, depends on the interpreter: on the
    latencies 82.51, 393.85, 216.22 and 330.08 ms the plain sum gives
    255.67 and the compensated sum 255.66. *)
Example average_depends_on_interpreter :
  let results :=
    [success_result "A" (Float.of_quotient 8251 100);
     success_result "B" (Float.of_quotient 39385 100);
     success_result "C" (Float.of_quotient 21622 100);
     success_result "D" (Float.of_quotient 33008 100)] in
  average_response_time_ms <$>
    (summary <$> generate_report Before_3_12 (monitor_with results) "2024-05-01T12:00:01")
  = Ok (VFloat (Float.of_quotient 25567 100)) ∧
  average_response_time_ms <$>
    (summary <$> generate_report From_3_12 (monitor_with results) "2024-05-01T12:00:01")
  = Ok (VFloat (Float.of_quotient 25566 100)).
Proof. split; vm_compute; reflexivity. Qed.

(** C1 (as amended).  The report is a function of the result list, the
    base URL and the reading of the clock, and of nothing else that the
    monitor holds; the call returns a new value and leaves the monitor as
    it was.  Two calls on the same result list and base URL return
    reports that are equal in every field except [execution_timestamp],
    which holds the clock reading of each call; when the first call
    raises, the second raises the same exception. *)
Theorem generate_report_pure_except_clock py self self' clock clock' :
  results self = results self' →
  base_url self = base_url self' →
  generate_report py self' clock' = with_timestamp clock' <$> generate_report py self clock.
Proof.
  intros Hresults Hbase. unfold generate_report, build_report.
  rewrite <- Hresults, <- Hbase.
  destruct (mapM _ (results self)) as [statuses|e]; csimpl; [|done].
  match goal with
  | |- context [if ?c then average ?p ?l else ?d] =>
      destruct (if c then average p l else d); csimpl; [|done]
  end.
  by destruct (sorted_by_name (results self)).
Qed.

(** Two calls, one second apart, on a monitor that holds three results. *)
Lemma generate_report_pure_except_clock_witness :
  generate_report From_3_12
    (monitor_with [success_result "C" (Float.of_Z 3); timeout_result "A";
                   success_result "B" (Float.of_Z 2)])
    "2024-05-01T12:00:02"
  = with_timestamp "2024-05-01T12:00:02" <$>
      generate_report From_3_12
        (monitor_with [success_result "C" (Float.of_Z 3); timeout_result "A";
                       success_result "B" (Float.of_Z 2)])
        "2024-05-01T12:00:01".
Proof.
  apply (generate_report_pure_except_clock From_3_12
           (monitor_with [success_result "C" (Float.of_Z 3); timeout_result "A";
                          success_result "B" (Float.of_Z 2)])
           (monitor_with [success_result "C" (Float.of_Z 3); timeout_result "A";
                          success_result "B" (Float.of_Z 2)])
           "2024-05-01T12:00:01" "2024-05-01T12:00:02" eq_refl eq_refl).
Defined.

(** C1 (as stated) fails.  Two calls on the same results and base URL,
    made at different times, return different reports; and two result
    lists that hold the same results in different orders give different
    reports when two results share a name. *)
Lemma report_depends_on_clock_and_order :
  generate_report From_3_12 (monitor_with [success_result "A" (Float.of_Z 1)]) "2024-05-01T12:00:01"
  ≠ generate_report From_3_12 (monitor_with [success_result "A" (Float.of_Z 1)]) "2024-05-01T12:00:02"
  ∧
  ([timeout_result "A"; success_result "A" (Float.of_Z 1)]
     ≡ₚ [success_result "A" (Float.of_Z 1); timeout_result "A"] ∧
   generate_report From_3_12
     (monitor_with [success_result "A" (Float.of_Z 1); timeout_result "A"])
     "2024-05-01T12:00:01"
   ≠ generate_report From_3_12
       (monitor_with [timeout_result "A"; success_result "A" (Float.of_Z 1)])
       "2024-05-01T12:00:01").
Proof.
  split; [|split].
  - intros H. apply (f_equal timestamp_of) in H. vm_compute in H. discriminate H.
  - apply perm_swap.
  - intros H. apply (f_equal statuses_of_report) in H. vm_compute in H. discriminate H.
Qed.

(** When the names are pairwise distinct, the order of the result list
    leaves the counts, the success rate and the detail list unchanged. *)
Lemma report_order_free py (rs rs' : list probe_result) base clock mode :
  NoDup (name_of <$> rs) → rs ≡ₚ rs' →
  let rep := report_of py rs base clock mode in
  let rep' := report_of py rs' base clock mode in
  total_apis (summary rep) = total_apis (summary rep') ∧
  successful (summary rep) = successful (summary rep') ∧
  failed (summary rep) = failed (summary rep') ∧
  success_rate (summary rep) = success_rate (summary rep') ∧
  detailed_results rep = detailed_results rep'.
Proof.
  intros Hnodup Hperm. csimpl.
  assert (length rs = length rs') as Hlen by (by rewrite Hperm).
  assert (count_success rs = count_success rs') as Hcount
    by (unfold count_success; by rewrite Hperm).
  rewrite Hlen, Hcount. split_and!; try done.
  by apply sort_by_name_order_free.
Qed.

(** ** The scenario of one failing probe *)

Lemma probe_eq self world i api :
  has_required_keys api →
  call_api self api (world i) = Ok (probe self world i api).
Proof.
  intros ([n Hn] & [m Hm] & [e He]).
  destruct (call_api_fields self api (world i) _ _ _ Hn Hm He) as (r & Hr & _).
  unfold probe. by rewrite Hr.
Qed.

Lemma probe_well_formed self world i api :
  has_required_keys api → well_formed (probe self world i api).
Proof.
  intros Hkeys. pose proof (probe_eq self world i api Hkeys) as Heq.
  destruct Hkeys as ([n Hn] & [m Hm] & [e He]).
  destruct (call_api_fields self api (world i) _ _ _ Hn Hm He) as (r & Hr & Hname & Hcase).
  rewrite Heq in Hr. injection Hr as <-.
  unfold well_formed. split_and!; [|by eexists|].
  - destruct (send _ _) as [resp|e']; [|by destruct Hcase as (-> & _)].
    destruct Hcase as (_ & _ & _ & _ & Hbody).
    by destruct (json_body resp); destruct Hbody as (-> & _).
  - destruct (send _ _) as [resp|e'].
    + destruct Hcase as (_ & [x Hx] & _). rewrite Hx. intros v [= <-]. by eexists.
    + destruct Hcase as (_ & _ & Hnone). unfold success_fields in Hnone.
      decompose_Forall_hyps. congruence.
Qed.

Lemma probe_answered self world i api code :
  has_required_keys api →
  answered_with code (answer self world i api) →
  probe self world i api !! "status" = Some (VStr "SUCCESS") ∧
  probe self world i api !! "status_code" = Some (VInt code).
Proof.
  intros Hkeys (resp & Hsend & Hcode & Hbody).
  pose proof (probe_eq self world i api Hkeys) as Heq.
  destruct Hkeys as ([n Hn] & [m Hm] & [e He]).
  destruct (call_api_fields self api (world i) _ _ _ Hn Hm He) as (r & Hr & _ & Hcase).
  rewrite Heq in Hr. injection Hr as <-.
  unfold answer in Hsend. rewrite Hm, He in Hsend. csimpl in Hsend.
  rewrite Hsend in Hcase. destruct Hcase as (Hsc & _ & _ & _ & Hj).
  rewrite Hsc, Hcode. split; [|done].
  destruct (json_body resp) as [j| |e'] eqn:Hjson; [by destruct Hj..|].
  by destruct (Hbody e').
Qed.

Lemma probe_timed_out self world i api :
  has_required_keys api →
  timed_out (answer self world i api) →
  probe self world i api !! "status" = Some (VStr "TIMEOUT") ∧
  probe self world i api !! "status_code" = None.
Proof.
  intros Hkeys (e' & Hsend & Htimeout).
  pose proof (probe_eq self world i api Hkeys) as Heq.
  destruct Hkeys as ([n Hn] & [m Hm] & [e He]).
  destruct (call_api_fields self api (world i) _ _ _ Hn Hm He) as (r & Hr & _ & Hcase).
  rewrite Heq in Hr. injection Hr as <-.
  unfold answer in Hsend. rewrite Hm, He in Hsend. csimpl in Hsend.
  rewrite Hsend in Hcase. destruct Hcase as (Hs & _ & Hnone).
  unfold handler_status in Hs. rewrite Htimeout in Hs.
  unfold success_fields in Hnone. decompose_Forall_hyps. done.
Qed.

Lemma count_success_all (l : list probe_result) :
  Forall (λ r, is_success r = true) l → count_success l = Z.of_nat (length l).
Proof.
  unfold count_success. induction 1 as [|r l Hr _ IH]; [done|].
  rewrite filter_cons, decide_True by done. csimpl. lia.
Qed.

(** When every result but the one in position [k] says SUCCESS, the
    number of successes is the number of results less one. *)
Lemma count_success_isolated (l : list probe_result) (k : nat) :
  (k < length l)%nat →
  (∀ i r, l !! i = Some r → is_success r = bool_decide (i ≠ k)) →
  count_success l = (Z.of_nat (length l) - 1)%Z.
Proof.
  revert k. induction l as [|r l IH]; intros k Hk Hall; [csimpl in Hk; lia|].
  unfold count_success in *. rewrite filter_cons.
  destruct k as [|k].
  - rewrite decide_False by (rewrite (Hall 0%nat r eq_refl); done).
    fold (count_success l). rewrite count_success_all; [csimpl; lia|].
    apply Forall_lookup. intros i r' Hi. by rewrite (Hall (S i) r' Hi).
  - rewrite decide_True by (by rewrite (Hall 0%nat r eq_refl)).
    csimpl. csimpl in Hk. rewrite Nat2Z.inj_succ, (IH k); [lia|lia|].
    intros i r' Hi. rewrite (Hall (S i) r' Hi).
    apply bool_decide_ext. lia.
Qed.

(** Isolation: when one probe of a run times out and every other one is
    answered with 200, the report counts one failure, whatever the number
    of descriptors, the worker count and the order of completion. *)
Lemma one_timeout_report py self apis max_workers world sched clock k :
  cfg_monitoring_apis (config self) = Some apis →
  results self = [] →
  (0 < max_workers)%Z →
  Forall has_required_keys apis →
  (k < length apis)%nat →
  (∀ i api, apis !! i = Some api →
     if decide (i = k) then timed_out (answer self world i api)
     else answered_with 200 (answer self world i api)) →
  ∃ self' rs rep,
    run_all_apis self max_workers world sched = Ok (self', rs) ∧
    generate_report py self' clock = Ok rep ∧
    total_apis (summary rep) = Z.of_nat (length apis) ∧
    successful (summary rep) = (Z.of_nat (length apis) - 1)%Z ∧
    failed (summary rep) = 1%Z ∧
    success_rate (summary rep)
      = rate_text (Z.of_nat (length apis) - 1) (Z.of_nat (length apis)) ∧
    (∃ api r,
       apis !! k = Some api ∧
       r ∈ detailed_results rep ∧
       r !! "name" = VStr <$> api_fields api !! "name" ∧
       r !! "status" = Some (VStr "TIMEOUT") ∧
       r !! "status_code" = None) ∧
    (∀ r, r ∈ detailed_results rep →
       r !! "status" = Some (VStr "TIMEOUT") ∧ r !! "status_code" = None
       ∨ r !! "status" = Some (VStr "SUCCESS") ∧ r !! "status_code" = Some (VInt 200)).
Proof.
  intros Hapis Hfresh Hw Hkeys Hk Hworld.
  destruct (run_all_apis_appends self apis max_workers world sched Hapis Hkeys Hw)
    as (new & Hperm & Hrun).
  rewrite Hfresh in Hrun. csimpl in Hrun.
  assert (∀ i api, apis !! i = Some api → has_required_keys api) as Hkey
    by (by apply Forall_lookup).
  assert (Forall well_formed new) as Hwf.
  { rewrite Hperm. apply Forall_forall. intros r Hr.
    apply elem_of_lookup_imap_1 in Hr as (i & api & -> & Hi).
    apply probe_well_formed. by apply (Hkey i). }
  assert (∀ r, r ∈ new →
    r !! "status" = Some (VStr "TIMEOUT") ∧ r !! "status_code" = None
    ∨ r !! "status" = Some (VStr "SUCCESS") ∧ r !! "status_code" = Some (VInt 200))
    as Hstatus.
  { intros r Hr. rewrite Hperm in Hr.
    apply elem_of_lookup_imap_1 in Hr as (i & api & -> & Hi).
    pose proof (Hworld i api Hi) as Hans.
    destruct (decide (i = k)).
    - left. apply probe_timed_out; [by apply (Hkey i)|done].
    - right. apply probe_answered; [by apply (Hkey i)|done]. }
  assert (count_success new = (Z.of_nat (length apis) - 1)%Z) as Hcount.
  { unfold count_success. rewrite Hperm. fold (count_success (imap (probe self world) apis)).
    rewrite <- (length_imap (probe self world) apis).
    apply (count_success_isolated _ k); [by rewrite length_imap|].
    intros i r [api [Hi ->]]%list_lookup_imap_Some.
    pose proof (Hworld i api Hi) as Hans. unfold is_success.
    destruct (decide (i = k)).
    - destruct (probe_timed_out self world i api) as [-> _]; [by apply (Hkey i)|done|].
      by rewrite bool_decide_false by naive_solver.
    - destruct (probe_answered self world i api 200) as [-> _]; [by apply (Hkey i)|done|].
      by rewrite bool_decide_true. }
  assert (length new = length apis) as Hlen by (by rewrite Hperm, length_imap).
  eexists _, new, _. split; [exact Hrun|].
  split; [by apply generate_report_of|]. csimpl.
  rewrite Hcount, Hlen. split_and!; [done|done|lia|done| |].
  - destruct (lookup_lt_is_Some_2 apis k Hk) as [api Hapi].
    exists api, (probe self world k api). split; [done|].
    pose proof (Hworld k api Hapi) as Hans. rewrite decide_True in Hans by done.
    destruct (probe_timed_out self world k api) as [Hs Hc]; [by apply (Hkey k)|done|].
    split_and!; [|..|done|done].
    + rewrite sort_by_name_perm, Hperm. by apply elem_of_lookup_imap_2.
    + destruct (Hkey k api Hapi) as ([n Hn] & ?). rewrite Hn. csimpl.
      apply probe_name; [done|]. by apply (Hkey k).
  - intros r Hr. apply Hstatus. by rewrite sort_by_name_perm in Hr.
Qed.

(** C7.  A run over nine descriptors, eight of which are answered with
    status 200 while one times out, gives a report with [total_apis = 9],
    [successful = 8], [failed = 1] and [success_rate = "88.89%"], in
    which the entry of the descriptor that timed out has the status
    TIMEOUT and no [status_code], for every positive worker count and
    every order of completion. *)
Theorem eight_of_nine_scenario py self apis max_workers world sched clock k :
  cfg_monitoring_apis (config self) = Some apis →
  results self = [] →
  (0 < max_workers)%Z →
  Forall has_required_keys apis →
  length apis = 9%nat →
  (k < 9)%nat →
  (∀ i api, apis !! i = Some api →
     if decide (i = k) then timed_out (answer self world i api)
     else answered_with 200 (answer self world i api)) →
  ∃ self' rs rep,
    run_all_apis self max_workers world sched = Ok (self', rs) ∧
    generate_report py self' clock = Ok rep ∧
    total_apis (summary rep) = 9%Z ∧
    successful (summary rep) = 8%Z ∧
    failed (summary rep) = 1%Z ∧
    success_rate (summary rep) = "88.89%" ∧
    ∃ api r,
      apis !! k = Some api ∧
      r ∈ detailed_results rep ∧
      r !! "name" = VStr <$> api_fields api !! "name" ∧
      r !! "status" = Some (VStr "TIMEOUT") ∧
      r !! "status_code" = None.
Proof.
  intros Hapis Hfresh Hw Hkeys Hlen Hk Hworld.
  destruct (one_timeout_report py self apis max_workers world sched clock k)
    as (self' & rs & rep & Hrun & Hrep & Htotal & Hsucc & Hfailed & Hrate & Hentry & _);
    try done; [lia|].
  rewrite Hlen in *.
  exists self', rs, rep. split_and!; try done.
Qed.

(** The nine sample endpoints, the fourth of which times out. *)
Lemma eight_of_nine_scenario_witness :
  ∃ self' rs rep,
    run_all_apis sample_monitor 10 sample_world [4; 0; 6; 2; 1]%nat = Ok (self', rs) ∧
    generate_report From_3_12 self' "2024-05-01T12:00:09" = Ok rep ∧
    total_apis (summary rep) = 9%Z ∧
    successful (summary rep) = 8%Z ∧
    failed (summary rep) = 1%Z ∧
    success_rate (summary rep) = "88.89%".
Proof.
  destruct (eight_of_nine_scenario From_3_12 sample_monitor sample_apis 10 sample_world
              [4; 0; 6; 2; 1]%nat "2024-05-01T12:00:09" 3 eq_refl eq_refl eq_refl
              sample_apis_have_keys eq_refl)
    as (self' & rs & rep & Hrun & Hrep & Htotal & Hsucc & Hfailed & Hrate & _).
  - lia.
  - intros i api Hi.
    do 9 (destruct i as [|i]; [injection Hi as <-; csimpl;
            first [ by eexists; split; [reflexivity|]
                  | eexists; split; [reflexivity|]; split; [reflexivity|]; discriminate ]|]).
    discriminate Hi.
  - exists self', rs, rep. split_and!; assumption.
Defined.

(** ** The exit status *)

Lemma main_exit args env :
  main args env
  = match produce_report args env with
    | Ok report => if (failed (summary report) =? 0)%Z then 0%Z else 1%Z
    | Raise _ => 1%Z
    end.
Proof.
  unfold main, produce_report.
  destruct (read_config env _) as [cfg|e]; csimpl; [|by destruct e].
  destruct (set_domain _ _) as [m|e]; csimpl; [|by destruct e].
  destruct (run_all_apis _ _ _ _) as [[m' rs]|e]; csimpl; [|by destruct e].
  destruct (generate_report _ _ _) as [rep|e]; csimpl; [|by destruct e].
  destruct (write_report _ _ _) as [[]|e]; csimpl; [|by destruct e].
  destruct (print_summary _ _) as [[]|e]; csimpl; [|by destruct e].
  done.
Qed.

Lemma demo_main_exit output env :
  Demo.main output env
  = match demo_produce_report output env with
    | Ok report => if (failed (summary report) =? 0)%Z then 0%Z else 1%Z
    | Raise _ => 1%Z
    end.
Proof.
  unfold Demo.main, demo_produce_report.
  destruct (Demo.run_all_apis _ _) as [m rs].
  destruct (Demo.generate_report _ _ _) as [rep|e]; csimpl; [|done].
  destruct (Demo.write_report _ _ _) as [[]|e]; csimpl; [|done].
  by destruct (print_summary _ _) as [[]|e].
Qed.

Lemma exit_zero_iff (r : Result Report) :
  match r with
  | Ok report => if (failed (summary report) =? 0)%Z then 0%Z else 1%Z
  | Raise _ => 1%Z
  end = 0%Z
  ↔ ∃ report, r = Ok report ∧ failed (summary report) = 0%Z.
Proof.
  destruct r as [report|e].
  - destruct (Z.eqb_spec (failed (summary report)) 0); split.
    + by exists report.
    + done.
    + done.
    + intros (? & [= <-] & ?). done.
  - split; [done|]. by intros (? & ? & _).
Qed.

(** The exit status once the command line has been accepted. *)
Lemma exit_status_after_parsing :
  (∀ args env,
     (main args env = 0%Z
      ↔ ∃ report, produce_report args env = Ok report ∧ failed (summary report) = 0%Z) ∧
     (main args env = 0%Z ∨ main args env = 1%Z)) ∧
  (∀ output env,
     (Demo.main output env = 0%Z
      ↔ ∃ report, demo_produce_report output env = Ok report ∧
                  failed (summary report) = 0%Z) ∧
     (Demo.main output env = 0%Z ∨ Demo.main output env = 1%Z)) ∧
  (∀ file env,
     (Email.main file env = 0%Z
      ↔ ∃ report subject,
          Email.read_report env file = Ok report ∧
          Email.subject env = Ok subject ∧
          Email.format_email_body report = Ok () ∧
          Email.smtp_delivers env
            (if (0 <? failed (summary report))%Z
             then "⚠️ " +:+ subject +:+ " - FAILURES DETECTED"
             else "✅ " +:+ subject +:+ " - All OK") = true) ∧
     (Email.main file env = 0%Z ∨ Email.main file env = 1%Z)).
Proof.
  split_and!.
  - intros args env. rewrite main_exit. split; [apply exit_zero_iff|].
    destruct (produce_report args env) as [report|e]; [|by right].
    destruct (failed (summary report) =? 0)%Z; auto.
  - intros output env. rewrite demo_main_exit. split; [apply exit_zero_iff|].
    destruct (demo_produce_report output env) as [report|e]; [|by right].
    destruct (failed (summary report) =? 0)%Z; auto.
  - intros file env. unfold Email.main.
    destruct (Email.read_report env file) as [report|e];
      [|split; [split; [done|by intros (? & ? & ? & _)]|by right]].
    destruct (Email.subject env) as [subject|e]; csimpl;
      [|split; [split; [done|by intros (? & ? & _ & ? & _)]|by right]].
    destruct (Email.format_email_body report) as [[]|e] eqn:Hbody; csimpl;
      [|split; [split; [done|]|by right]].
    + destruct (Email.smtp_delivers env _) eqn:Hsmtp.
      * split; [|by left]. split; [|done]. intros _. by exists report, subject.
      * split; [|by right]. split; [done|].
        intros (report' & subject' & [= <-] & [= <-] & _ & Hsent). congruence.
    + intros (report' & subject' & [= <-] & _ & Hfmt & _). congruence.
Qed.

Lemma entry_point_cases {A : Type} (command_line : parsed A) (run : A → Z)
    (P : A → Prop) :
  (∀ a, run a = 0%Z ↔ P a) →
  (∀ a, run a = 0%Z ∨ run a = 1%Z) →
  let code := match command_line with
              | Namespace a => run a
              | UsageError => 2%Z
              | Help => 0%Z
              end in
  (code = 0%Z ↔ command_line = Help ∨ ∃ a, command_line = Namespace a ∧ P a) ∧
  (code = 2%Z ↔ command_line = UsageError) ∧
  (code = 0%Z ∨ code = 1%Z ∨ code = 2%Z).
Proof.
  intros Hzero Hrange. destruct command_line as [a| |]; csimpl.
  - split_and!.
    + rewrite Hzero. split; [intros Ha; right; by exists a|].
      intros [?|(a' & [= <-] & Ha)]; done.
    + split; [|done]. destruct (Hrange a) as [-> | ->]; done.
    + destruct (Hrange a); auto.
  - split_and!; [|done|auto]. split; [done|]. by intros [?|(? & ? & _)].
  - split_and!; [|done|auto]. split; [by left|done].
Qed.

(** C8 (as amended).  Each entry point first parses its command line.  On
    [-h] or [--help] it prints the help text and exits with status 0, and
    on a command line that the parser rejects it exits with status 2; in
    both cases nothing is run and no report exists.  On a command line
    that is accepted, the runner and the demo exit with status 0 exactly
    when a report was produced, saved and printed and its [failed] count
    is 0, and with status 1 in every other case, a run that is aborted
    before a report exists included; the mail sender exits with status 0
    exactly when the report was loaded and rendered and the mail was
    delivered, and with status 1 otherwise: its status does not depend on
    the [failed] count. *)
Theorem exit_status_convention :
  (∀ command_line env,
     (entry_point command_line env = 0%Z
      ↔ command_line = Help ∨
        ∃ args, command_line = Namespace args ∧
          ∃ report, produce_report args env = Ok report ∧
                    failed (summary report) = 0%Z) ∧
     (entry_point command_line env = 2%Z ↔ command_line = UsageError) ∧
     (entry_point command_line env = 0%Z ∨ entry_point command_line env = 1%Z ∨
      entry_point command_line env = 2%Z)) ∧
  (∀ command_line env,
     (Demo.entry_point command_line env = 0%Z
      ↔ command_line = Help ∨
        ∃ output, command_line = Namespace output ∧
          ∃ report, demo_produce_report output env = Ok report ∧
                    failed (summary report) = 0%Z) ∧
     (Demo.entry_point command_line env = 2%Z ↔ command_line = UsageError) ∧
     (Demo.entry_point command_line env = 0%Z ∨
      Demo.entry_point command_line env = 1%Z ∨
      Demo.entry_point command_line env = 2%Z)) ∧
  (∀ command_line env,
     (Email.entry_point command_line env = 0%Z
      ↔ command_line = Help ∨
        ∃ file, command_line = Namespace file ∧
          ∃ report subject,
            Email.read_report env file = Ok report ∧
            Email.subject env = Ok subject ∧
            Email.format_email_body report = Ok () ∧
            Email.smtp_delivers env
              (if (0 <? failed (summary report))%Z
               then "⚠️ " +:+ subject +:+ " - FAILURES DETECTED"
               else "✅ " +:+ subject +:+ " - All OK") = true) ∧
     (Email.entry_point command_line env = 2%Z ↔ command_line = UsageError) ∧
     (Email.entry_point command_line env = 0%Z ∨
      Email.entry_point command_line env = 1%Z ∨
      Email.entry_point command_line env = 2%Z)).
Proof.
  destruct exit_status_after_parsing as (Hmain & Hdemo & Hmail).
  split_and!; intros command_line env.
  - apply (entry_point_cases command_line (λ args, main args env)
             (λ args, ∃ report, produce_report args env = Ok report ∧
                                failed (summary report) = 0%Z));
      intros args; apply Hmain.
  - apply (entry_point_cases command_line (λ output, Demo.main output env)
             (λ output, ∃ report, demo_produce_report output env = Ok report ∧
                                  failed (summary report) = 0%Z));
      intros output; apply Hdemo.
  - apply (entry_point_cases command_line (λ file, Email.main file env)
             (λ file, ∃ report subject,
                Email.read_report env file = Ok report ∧
                Email.subject env = Ok subject ∧
                Email.format_email_body report = Ok () ∧
                Email.smtp_delivers env
                  (if (0 <? failed (summary report))%Z
                   then "⚠️ " +:+ subject +:+ " - FAILURES DETECTED"
                   else "✅ " +:+ subject +:+ " - All OK") = true));
      intros file; apply Hmail.
Qed.

(** C8 (as stated) fails for the mail sender: on a report whose [failed]
    count is 1 it exits with status 0 once the mail is delivered.  It also
    fails on [--help], where every entry point exits with status 0 and
    no report exists. *)
Lemma mail_sender_exits_zero_on_failures :
  Email.read_report delivering_env "monitoring_report.json" = Ok failing_report ∧
  failed (summary failing_report) = 1%Z ∧
  Email.entry_point (Namespace "monitoring_report.json") delivering_env = 0%Z ∧
  entry_point Help (sample_env sample_world) = 0%Z.
Proof. split_and!; reflexivity. Qed.

(** ** The demo runner *)

(** The demo is the scenario of C7 with simulated probes: whatever the
    random draws, its report counts nine probes, eight successes and one
    failure. *)
Lemma demo_report py sims clock :
  ∃ rep,
    Demo.generate_report py (Demo.run_all_apis Demo.init sims).1 clock = Ok rep ∧
    total_apis (summary rep) = 9%Z ∧
    successful (summary rep) = 8%Z ∧
    failed (summary rep) = 1%Z ∧
    success_rate (summary rep) = "88.89%" ∧
    mode (summary rep) = Some "DEMO".
Proof.
  eexists. split.
  - unfold Demo.generate_report. apply build_report_of.
    repeat (apply Forall_cons_2;
      [split_and!; [by eexists|by eexists|intros v [= <-]; by eexists || intros v [=]]|]).
    apply Forall_nil_2.
  - split_and!; reflexivity.
Qed.

(** With its one simulated failure the demo's [main] ends with status 1
    once its command line has been accepted. *)
Lemma demo_main_is_one output env : Demo.main output env = 1%Z.
Proof.
  rewrite demo_main_exit. unfold demo_produce_report.
  destruct (demo_report (Demo.python env) (Demo.sims env) (Demo.report_clock env))
    as (rep & Hrep & _ & _ & Hfailed & _).
  destruct (Demo.run_all_apis Demo.init (Demo.sims env)) as [m rs]. csimpl in Hrep.
  rewrite Hrep. csimpl.
  destruct (Demo.write_report env output rep) as [[]|e]; csimpl; [|done].
  destruct (print_summary rep (Demo.console env)) as [[]|e]; csimpl; [|done].
  by rewrite Hfailed.
Qed.

(** X12.  With its one entry set to fail, the demo as shipped never
    reports a clean run: on every command line that the parser accepts
    it exits with status 1, whatever the interpreter, the random draws,
    the clock, the file that takes the report and the console.  Its only
    exit with status 0 is the help text, and a rejected command line
    gives status 2. *)
Theorem demo_exits_with_one command_line env :
  Demo.entry_point command_line env
  = match command_line with
    | Namespace _ => 1%Z
    | UsageError => 2%Z
    | Help => 0%Z
    end.
Proof. destruct command_line as [output| |]; [apply demo_main_is_one|done..]. Qed.

(** ** The float model on known values *)

(** [round(2.675, 2)] is [2.67], since the double nearest to 2.675 lies
    below it; [round(5/3, 2)] is [1.67]. *)
Example round2_2675 :
  Float.round2 (Float.of_quotient 2675 1000) = Float.of_quotient 267 100 ∧
  Float.round2 (Float.of_quotient 5 3) = Float.of_quotient 167 100.
Proof. split; vm_compute; reflexivity. Qed.

(** ['%.2f' % 0.125] is ['0.12']: a tie goes to the even digit. *)
Example format_2f_tie : Float.format_2f (Float.of_quotient 1 8) = "0.12".
Proof. vm_compute. reflexivity. Qed.

(** The rate is the [.2f] text of a double computed in two rounded
    steps: 23 successes out of 160 are 14.375 percent exactly, the double
    is 14.374999999999998, and the text is ["14.37%"]. *)
Example rate_text_23_160 :
  rate_text 23 160 = "14.37%" ∧
  Float.mul (Float.of_quotient 23 160) (Float.of_Z 100)
  = S754_finite false 8092405580431359 (-49).
Proof. split; vm_compute; reflexivity. Qed.

Example rate_text_samples :
  rate_text 8 9 = "88.89%" ∧ rate_text 1 3 = "33.33%" ∧
  rate_text 9 9 = "100.00%" ∧ rate_text 0 9 = "0.00%" ∧ rate_text 0 0 = "0%".
Proof. split_and!; vm_compute; reflexivity. Qed.

Example float_of_Z_100 : Float.of_Z 100 = S754_finite false 7036874417766400 (-46).
Proof. vm_compute. reflexivity. Qed.

(** * Further properties of the code *)

(** ** What a probe records of its descriptor *)

Lemma call_api_base self api env name method endpoint :
  api_fields api !! "name" = Some name →
  api_fields api !! "method" = Some method →
  api_fields api !! "endpoint" = Some endpoint →
  ∃ r : probe_result,
    call_api self api env = Ok r ∧
    r !! "name" = Some (VStr name) ∧
    r !! "endpoint" = Some (VStr endpoint) ∧
    r !! "method" = Some (VStr method) ∧
    r !! "url" = Some (VStr (str_of_option (base_url self) +:+ endpoint)) ∧
    r !! "description" = Some (VStr (default "" (api_fields api !! "description"))) ∧
    r !! "timestamp" = Some (VStr (now env)).
Proof.
  intros Hn Hm He. unfold call_api, getitem. rewrite Hn, Hm, He. csimpl.
  unfold try_request.
  destruct (send env _) as [resp|e].
  - destruct (json_body resp) as [j| |e].
    + eexists. split; [reflexivity|]. split_and!; reflexivity.
    + eexists. split; [reflexivity|]. split_and!; reflexivity.
    + eexists. split; [reflexivity|]. unfold handle.
      destruct (is_Timeout e), (is_ConnectionError e); split_and!; reflexivity.
  - eexists. split; [reflexivity|]. unfold handle.
    destruct (is_Timeout e), (is_ConnectionError e); split_and!; reflexivity.
Qed.

(** X1.  Whatever becomes of the request, the result of a probe carries
    the name, the endpoint and the method of its descriptor, the
    description (the empty string when the descriptor has none), the time
    stamp taken before the request, and as URL the base URL followed by
    the endpoint; on a monitor whose domain was never set the URL starts
    with the text [None]. *)
Theorem call_api_records_descriptor self api env name method endpoint :
  api_fields api !! "name" = Some name →
  api_fields api !! "method" = Some method →
  api_fields api !! "endpoint" = Some endpoint →
  ∃ r : probe_result,
    call_api self api env = Ok r ∧
    r !! "name" = Some (VStr name) ∧
    r !! "endpoint" = Some (VStr endpoint) ∧
    r !! "method" = Some (VStr method) ∧
    r !! "description" = Some (VStr (default "" (api_fields api !! "description"))) ∧
    r !! "timestamp" = Some (VStr (now env)) ∧
    (∀ base, base_url self = Some base → r !! "url" = Some (VStr (base +:+ endpoint))) ∧
    (base_url self = None → r !! "url" = Some (VStr ("None" +:+ endpoint))).
Proof.
  intros Hn Hm He.
  destruct (call_api_base self api env _ _ _ Hn Hm He)
    as (r & Hr & ? & ? & ? & Hurl & ? & ?).
  exists r. split_and!; try done.
  - intros base Hbase. by rewrite Hurl, Hbase.
  - intros Hbase. by rewrite Hurl, Hbase.
Qed.

(** A probe on a monitor that was created and never given a domain. *)
Lemma call_api_records_descriptor_witness :
  ∃ r : probe_result,
    call_api (init sample_config) (descriptor "LTC_COSTS" "GET" "/costs")
      (env_answering (Raise read_timeout)) = Ok r ∧
    r !! "url" = Some (VStr "None/costs") ∧
    r !! "description" = Some (VStr "").
Proof.
  destruct (call_api_records_descriptor (init sample_config)
              (descriptor "LTC_COSTS" "GET" "/costs")
              (env_answering (Raise read_timeout)) "LTC_COSTS" "GET" "/costs"
              eq_refl eq_refl eq_refl) as (r & Hr & _ & _ & _ & Hd & _ & _ & Hurl).
  exists r. split_and!; [exact Hr|by apply Hurl|exact Hd].
Defined.

(** ** The body of an answer *)







(** The 500 letters that are kept are 1000 bytes, where a cut at 500
    bytes would keep 250 letters. *)
Example take_chars_accented :
  String.length (take_chars 500 (String.concat "" (replicate 600 "é"))) = 1000%nat ∧
  char_length (String.substring 0 500 (String.concat "" (replicate 600 "é"))) = 250%nat.
Proof. split; vm_compute; reflexivity. Qed.

(** ** Runs *)

(** X3.  A run does not start from an empty list: it appends to the
    results that the monitor already holds.  On descriptors that have
    their keys, [run_all_apis] returns the earlier results, in their
    order, followed by one result for each descriptor, and leaves the
    configuration and the base URL as they were; a second run on the same
    monitor thus returns the results of both. *)
Theorem run_all_apis_accumulates self apis max_workers world sched :
  cfg_monitoring_apis (config self) = Some apis →
  Forall has_required_keys apis →
  (0 < max_workers)%Z →
  ∃ self' new,
    run_all_apis self max_workers world sched = Ok (self', results self ++ new) ∧
    results self' = results self ++ new ∧
    config self' = config self ∧
    base_url self' = base_url self ∧
    new ≡ₚ imap (probe self world) apis ∧
    length (results self') = (length (results self) + length apis)%nat.
Proof.
  intros Hapis Hkeys Hw.
  destruct (run_all_apis_appends self apis max_workers world sched Hapis Hkeys Hw)
    as (new & Hperm & Hrun).
  eexists _, new. split; [exact Hrun|]. csimpl. split_and!; try done.
  by rewrite length_app, Hperm, length_imap.
Qed.

(** A run on a monitor that already holds one result. *)
Lemma run_all_apis_accumulates_witness :
  ∃ self' rs,
    run_all_apis (monitor_with [timeout_result "Earlier"]) 2 sample_world [1; 1]%nat
      = Ok (self', timeout_result "Earlier" :: rs) ∧
    length (results self') = 10%nat.
Proof.
  destruct (run_all_apis_accumulates (monitor_with [timeout_result "Earlier"])
              sample_apis 2 sample_world [1; 1]%nat eq_refl sample_apis_have_keys eq_refl)
    as (self' & new & Hrun & _ & _ & _ & _ & Hlen).
  exists self', new. split; [exact Hrun|exact Hlen].
Defined.

Lemma probe_is_success self world i api :
  has_required_keys api →
  is_success (probe self world i api) = completed self world i api.
Proof.
  intros Hkeys. pose proof (probe_eq self world i api Hkeys) as Heq.
  destruct Hkeys as ([n Hn] & [m Hm] & [e He]).
  destruct (call_api_fields self api (world i) _ _ _ Hn Hm He) as (r & Hr & _ & Hcase).
  rewrite Heq in Hr. injection Hr as <-.
  unfold completed, answer, outcome_of, is_success. rewrite Hm, He. csimpl.
  assert (∀ e', eq_str (VStr (handler_status e')) "SUCCESS" = false) as Hfailed.
  { intros e'. unfold handler_status.
    by destruct (is_Timeout e'), (is_ConnectionError e'). }
  destruct (send (world i) _) as [resp|e'].
  - destruct Hcase as (_ & _ & _ & _ & Hbody).
    destruct (json_body resp) as [j| |e']; destruct Hbody as (-> & _); by rewrite ?Hfailed.
  - destruct Hcase as (-> & _). apply Hfailed.
Qed.

Lemma length_filter_fmap_true {A : Type} (g : A → bool) (l : list A) :
  length (filter (λ x, g x = true) l) = length (filter (λ b : bool, b = true) (g <$> l)).
Proof.
  induction l as [|x l IH]; [done|].
  csimpl. rewrite !filter_cons.
  repeat case_decide; csimpl; try done; by rewrite IH.
Qed.

Lemma count_success_probes self world (apis : list api_config) :
  Forall has_required_keys apis →
  count_success (imap (probe self world) apis) = count_completed self world apis.
Proof.
  intros Hkeys. unfold count_success, count_completed.
  rewrite length_filter_fmap_true, fmap_imap. do 3 f_equal.
  apply imap_ext. intros i api Hi. csimpl.
  apply probe_is_success. rewrite Forall_lookup in Hkeys. by apply (Hkeys i).
Qed.

Lemma filter_true_all (l : list bool) :
  length (filter (λ b : bool, b = true) l) = length l ↔ Forall (λ b, b = true) l.
Proof.
  induction l as [|b l IH]; [by split|].
  rewrite filter_cons. pose proof (length_filter (λ b : bool, b = true) l) as Hle.
  case_decide as Hb; csimpl.
  - split.
    + intros Hlen. constructor; [done|]. apply IH. lia.
    + intros [_ Hall]%Forall_cons. f_equal. by apply IH.
  - split; [lia|]. by intros [? _]%Forall_cons.
Qed.

(** The results of a run on a fresh monitor, and its report. *)
Lemma run_then_report py self apis max_workers world sched clock :
  cfg_monitoring_apis (config self) = Some apis →
  Forall has_required_keys apis →
  results self = [] →
  (0 < max_workers)%Z →
  ∃ self' rs,
    run_all_apis self max_workers world sched = Ok (self', rs) ∧
    results self' = rs ∧
    base_url self' = base_url self ∧
    rs ≡ₚ imap (probe self world) apis ∧
    Forall well_formed rs ∧
    generate_report py self' clock = Ok (report_of py rs (base_url self) clock None).
Proof.
  intros Hapis Hkeys Hfresh Hw.
  destruct (run_all_apis_appends self apis max_workers world sched Hapis Hkeys Hw)
    as (new & Hperm & Hrun).
  rewrite Hfresh in Hrun. csimpl in Hrun.
  assert (Forall well_formed new) as Hwf.
  { rewrite Hperm. apply Forall_forall. intros r Hr.
    apply elem_of_lookup_imap_1 in Hr as (i & api & -> & Hi).
    apply probe_well_formed. rewrite Forall_lookup in Hkeys. by apply (Hkeys i). }
  eexists _, new. split; [exact Hrun|]. csimpl. split_and!; try done.
  by apply (generate_report_of py {| config := config self; results := new;
                                  base_url := base_url self |}).
Qed.

(** X4.  A run on a fresh monitor followed by the report counts the
    probes by the way their [try] block ended: [total_apis] is the number
    of descriptors, [successful] the number of probes that were answered
    and whose body was read, [failed] the number of probes that raised,
    for every positive worker count and every order of completion; and
    [failed] is 0 exactly when every probe completed. *)
Theorem run_then_report_counts py self apis max_workers world sched clock :
  cfg_monitoring_apis (config self) = Some apis →
  Forall has_required_keys apis →
  results self = [] →
  (0 < max_workers)%Z →
  ∃ self' rs rep,
    run_all_apis self max_workers world sched = Ok (self', rs) ∧
    generate_report py self' clock = Ok rep ∧
    total_apis (summary rep) = Z.of_nat (length apis) ∧
    successful (summary rep) = count_completed self world apis ∧
    failed (summary rep) = (Z.of_nat (length apis) - count_completed self world apis)%Z ∧
    (failed (summary rep) = 0%Z
     ↔ ∀ i api, apis !! i = Some api → completed self world i api = true).
Proof.
  intros Hapis Hkeys Hfresh Hw.
  destruct (run_then_report py self apis max_workers world sched clock Hapis Hkeys Hfresh Hw)
    as (self' & rs & Hrun & _ & _ & Hperm & _ & Hrep).
  exists self', rs, (report_of py rs (base_url self) clock None).
  split; [exact Hrun|]. split; [exact Hrep|]. csimpl.
  assert (count_success rs = count_completed self world apis) as ->.
  { unfold count_success. rewrite Hperm. by apply count_success_probes. }
  assert (length rs = length apis) as -> by (by rewrite Hperm, length_imap).
  split_and!; try done.
  unfold count_completed.
  rewrite <- (length_imap (completed self world) apis) at 1.
  split.
  - intros Hzero i api Hi.
    assert (length (filter (λ b : bool, b = true) (imap (completed self world) apis))
            = length (imap (completed self world) apis)) as Hall by lia.
    apply filter_true_all in Hall. rewrite Forall_lookup in Hall.
    apply (Hall i). by rewrite list_lookup_imap, Hi.
  - intros Hall.
    assert (length (filter (λ b : bool, b = true) (imap (completed self world) apis))
            = length (imap (completed self world) apis)) as ->; [|lia].
    apply filter_true_all, Forall_lookup.
    intros i b [api [Hi ->]]%list_lookup_imap_Some. by apply Hall.
Qed.

(** The sample run: eight probes complete, the fourth does not. *)
Lemma run_then_report_counts_witness :
  ∃ self' rs rep,
    run_all_apis sample_monitor 3 sample_world [8; 8; 0]%nat = Ok (self', rs) ∧
    generate_report From_3_12 self' "2024-05-01T12:00:09" = Ok rep ∧
    successful (summary rep) = 8%Z ∧
    failed (summary rep) = 1%Z.
Proof.
  destruct (run_then_report_counts From_3_12 sample_monitor sample_apis 3 sample_world
              [8; 8; 0]%nat "2024-05-01T12:00:09" eq_refl sample_apis_have_keys
              eq_refl eq_refl)
    as (self' & rs & rep & Hrun & Hrep & _ & Hs & Hf & _).
  exists self', rs, rep. split_and!; [exact Hrun|exact Hrep|exact Hs|exact Hf].
Defined.

(** ** The runner from the command line *)

Lemma print_summary_Ok (report : Report) :
  Forall printable (detailed_results report) →
  print_summary report (Ok ()) = Ok ().
Proof.
  unfold print_summary. csimpl.
  induction (detailed_results report) as [|r l IH]; intros Hall; [done|].
  apply Forall_cons in Hall as [([? Hs] & [? Hn] & [? Hm] & [? He]) Hall].
  csimpl.
  assert (∀ k v, r !! k = Some v → getitem r k = Ok v) as Hget.
  { intros k v Hk. unfold getitem. by rewrite Hk. }
  rewrite (Hget _ _ Hs), (Hget _ _ Hn), (Hget _ _ Hm), (Hget _ _ He). csimpl.
  specialize (IH Hall). by destruct (mapM _ l).
Qed.

Lemma probe_printable self world i api :
  has_required_keys api → printable (probe self world i api).
Proof.
  intros Hkeys. pose proof (probe_eq self world i api Hkeys) as Heq.
  destruct (probe_well_formed self world i api Hkeys) as (Hstatus & _).
  destruct Hkeys as ([n Hn] & [m Hm] & [e He]).
  destruct (call_api_base self api (world i) _ _ _ Hn Hm He)
    as (r & Hr & Hname & Hend & Hmeth & _).
  rewrite Heq in Hr. injection Hr as <-.
  split_and!; [done|by eexists..].
Qed.

Lemma all_completed_iff self world (apis : list api_config) :
  count_completed self world apis = Z.of_nat (length apis)
  ↔ ∀ i api, apis !! i = Some api → completed self world i api = true.
Proof.
  unfold count_completed.
  rewrite <- (length_imap (completed self world) apis).
  rewrite Nat2Z.inj_iff, filter_true_all, Forall_lookup. split.
  - intros Hall i api Hi. apply (Hall i). by rewrite list_lookup_imap, Hi.
  - intros Hall i b [api [Hi ->]]%list_lookup_imap_Some. by apply Hall.
Qed.

Lemma main_exit_by_completion args env cfg template apis :
  read_config env (arg_config args) = Ok cfg →
  cfg_base_url cfg = Some template →
  cfg_monitoring_apis cfg = Some apis →
  Forall has_required_keys apis →
  (0 < arg_workers args)%Z →
  (∀ report, write_report env (arg_output args) report = Ok ()) →
  console env = Ok () →
  let monitor := monitor_of cfg template (arg_domain args) in
  let all_completed :=
    ∀ i api, apis !! i = Some api → completed monitor (world env) i api = true in
  (main args env = 0%Z ↔ all_completed) ∧
  (main args env = 1%Z ↔ ¬ all_completed).
Proof.
  intros Hread Hbase Hapis Hkeys Hw Hwrite Hconsole monitor all_completed.
  destruct (run_then_report (python env) monitor apis (arg_workers args) (world env)
              (sched env)
              (report_clock env) Hapis Hkeys eq_refl Hw)
    as (self' & rs & Hrun & _ & _ & Hperm & _ & Hrep).
  assert (main args env
          = if (Z.of_nat (length apis) - count_completed monitor (world env) apis =? 0)%Z
            then 0%Z else 1%Z) as ->.
  { rewrite main_exit. unfold produce_report, set_domain.
    rewrite Hread. csimpl. rewrite Hbase. csimpl.
    fold (monitor_of cfg template (arg_domain args)). fold monitor.
    rewrite Hrun. csimpl. rewrite Hrep. csimpl. rewrite Hwrite, Hconsole. csimpl.
    assert (print_summary (report_of (python env) rs (base_url monitor) (report_clock env)
                             None) (Ok ())
            = Ok ()) as Hprint.
    { apply print_summary_Ok. csimpl.
      rewrite sort_by_name_perm, Hperm. apply Forall_forall. intros r Hr.
      apply elem_of_lookup_imap_1 in Hr as (i & api & -> & Hi).
      apply probe_printable. rewrite Forall_lookup in Hkeys. by apply (Hkeys i). }
    unfold print_summary in Hprint. csimpl in Hprint. rewrite Hprint. csimpl.
    assert (count_success rs = count_completed monitor (world env) apis) as ->.
    { unfold count_success. rewrite Hperm. by apply count_success_probes. }
    by assert (length rs = length apis) as -> by (by rewrite Hperm, length_imap). }
  pose proof (all_completed_iff monitor (world env) apis) as Hiff.
  fold all_completed in Hiff.
  destruct (Z.eqb_spec (Z.of_nat (length apis) - count_completed monitor (world env) apis) 0)
    as [Hzero|Hpos].
  - assert all_completed as Hall by (apply Hiff; lia).
    split; split; try done.
  - assert (¬ all_completed) as Hnot by (intros Hall%Hiff; lia).
    split; split; try done.
Qed.

(** X5.  The exit status of the runner, from the command line to the end
    of the process.  When the configuration can be read and has a base
    URL and descriptors with their keys, the worker count is positive,
    the report can be written and the console takes the summary, [main]
    ends with status 0 if every probe was answered and had its body read,
    and with status 1 if some probe raised, whatever the order in which
    the probes finish. *)
Theorem main_exit_code args env cfg template apis :
  read_config env (arg_config args) = Ok cfg →
  cfg_base_url cfg = Some template →
  cfg_monitoring_apis cfg = Some apis →
  Forall has_required_keys apis →
  (0 < arg_workers args)%Z →
  (∀ report, write_report env (arg_output args) report = Ok ()) →
  console env = Ok () →
  let monitor := monitor_of cfg template (arg_domain args) in
  let all_completed :=
    ∀ i api, apis !! i = Some api → completed monitor (world env) i api = true in
  (main args env = 0%Z ↔ all_completed) ∧
  (main args env = 1%Z ↔ ¬ all_completed).
Proof. apply main_exit_by_completion. Qed.

(** The sample configuration when every endpoint answers. *)
Lemma main_exit_code_witness :
  main sample_args (sample_env (λ _, env_answering (Ok ok_response))) = 0%Z.
Proof.
  apply (main_exit_code sample_args (sample_env (λ _, env_answering (Ok ok_response)))
           sample_config "https://{{cpvs.services.domain}}" sample_apis
           eq_refl eq_refl eq_refl sample_apis_have_keys eq_refl (λ _, eq_refl) eq_refl).
  intros i api Hi. reflexivity.
Defined.

Lemma run_all_apis_missing_key self apis api max_workers world sched :
  cfg_monitoring_apis (config self) = Some apis →
  api ∈ apis →
  ¬ has_required_keys api →
  ∃ e, run_all_apis self max_workers world sched = Raise e.
Proof.
  intros Hapis Hin Hno. unfold run_all_apis. rewrite Hapis. csimpl.
  destruct (max_workers <=? 0)%Z; [by eexists|].
  set (futures := imap (λ i api, call_api self api (world i)) apis).
  apply list_elem_of_lookup in Hin as [i Hi].
  destruct (call_api_raises self api (world i) Hno) as (k0 & _ & Hk0).
  destruct (collect_Raise (as_completed (length futures) sched futures) (results self))
    as (e & _ & Hcollect).
  { exists (KeyError k0). rewrite as_completed_perm, <- Hk0. subst futures.
    apply (elem_of_lookup_imap_2 (λ i api, call_api self api (world i)) apis api i Hi). }
  exists e. by rewrite Hcollect.
Qed.

(** X6.  What ends the runner with status 1 before any report exists: a
    configuration file that cannot be read, a configuration without
    [base_url] or without [monitoring_apis], a worker count that is not
    positive, or one descriptor without [name], [method] or [endpoint].
    None of these depends on what the endpoints answer, and in each case
    no report is built: the status is 1 even when every probe that could
    be sent would succeed. *)
Theorem main_setup_failure args env :
  (∃ e, read_config env (arg_config args) = Raise e) ∨
  (∃ cfg, read_config env (arg_config args) = Ok cfg ∧
     (cfg_base_url cfg = None ∨
      cfg_monitoring_apis cfg = None ∨
      (arg_workers args ≤ 0)%Z ∨
      ∃ apis api, cfg_monitoring_apis cfg = Some apis ∧ api ∈ apis ∧
                  ¬ has_required_keys api)) →
  main args env = 1%Z ∧
  ∃ e, (config ← read_config env (arg_config args);
        monitor ← set_domain (init config) (arg_domain args);
        run_all_apis monitor (arg_workers args) (world env) (sched env)) = Raise e.
Proof.
  intros Hcase.
  assert (∃ e, (config ← read_config env (arg_config args);
                monitor ← set_domain (init config) (arg_domain args);
                run_all_apis monitor (arg_workers args) (world env) (sched env)) = Raise e)
    as [e He].
  { destruct Hcase as [[e ->]|(cfg & -> & Hcase)]; csimpl; [by eexists|].
    unfold set_domain. csimpl.
    destruct (cfg_base_url cfg) as [template|] eqn:Hbase; csimpl; [|by eexists].
    destruct Hcase as [?|[Hnone|[Hw|(apis & api & Hapis & Hin & Hno)]]]; [done|..].
    - unfold run_all_apis. csimpl. rewrite Hnone. csimpl. by eexists.
    - unfold run_all_apis. csimpl.
      destruct (cfg_monitoring_apis cfg); csimpl; [|by eexists].
      destruct (Z.leb_spec (arg_workers args) 0); [by eexists|lia].
    - by eapply run_all_apis_missing_key. }
  split; [|by exists e].
  rewrite main_exit. unfold produce_report. revert He.
  destruct (read_config env _) as [cfg|e']; csimpl; [|done].
  destruct (set_domain _ _) as [m|e']; csimpl; [|done].
  by intros ->.
Qed.

(** The sample configuration with no worker. *)
Lemma main_setup_failure_witness :
  main {| arg_domain := "example.com"; arg_output := "monitoring_report.json";
          arg_workers := 0; arg_config := "config.json" |}
       (sample_env (λ _, env_answering (Ok ok_response))) = 1%Z.
Proof.
  apply (main_setup_failure
           {| arg_domain := "example.com"; arg_output := "monitoring_report.json";
              arg_workers := 0; arg_config := "config.json" |}
           (sample_env (λ _, env_answering (Ok ok_response)))).
  right. exists sample_config. split; [reflexivity|].
  right. right. left. simpl. lia.
Defined.

(** ** The report on arbitrary results *)

Lemma bind_Ok {A B : Type} (c : Result A) (k : A → Result B) (b : B) :
  c ≫= k = Ok b → ∃ a, c = Ok a ∧ k a = Ok b.
Proof. destruct c as [a|e]; csimpl; [by exists a|done]. Qed.

Lemma mapM_Ok_inv {A B : Type} (f : A → Result B) (l : list A) (r : list B) :
  mapM f l = Ok r → Forall2 (λ x y, f x = Ok y) l r.
Proof.
  revert r. induction l as [|x l IH]; intros r; csimpl.
  - intros [= <-]. constructor.
  - intros (y & Hy & (ys & Hys & [= <-])%bind_Ok)%bind_Ok.
    constructor; [done|by apply IH].
Qed.

Lemma mapM_Raise {A B : Type} (f : A → Result B) (l : list A) (e : exn) :
  (∀ x, x ∈ l → f x = Raise e ∨ ∃ y, f x = Ok y) →
  (∃ x, x ∈ l ∧ f x = Raise e) →
  mapM f l = Raise e.
Proof.
  induction l as [|x l IH]; intros Hall [x' [Hin Hx']].
  - by apply elem_of_nil in Hin.
  - csimpl. destruct (Hall x) as [->|[y Hy]]; [by left|done|]. rewrite Hy. csimpl.
    rewrite IH; [done| |].
    + intros z Hz. apply Hall. by right.
    + apply elem_of_cons in Hin as [->|Hin]; [congruence|by exists x'].
Qed.

Lemma insert_keyed_perm {A : Type} (x : value * A) (l r : list (value * A)) :
  insert_keyed x l = Ok r → r ≡ₚ x :: l.
Proof.
  revert r. induction l as [|y l IH]; intros r; csimpl.
  - by intros [= <-].
  - intros ([] & _ & Hr)%bind_Ok.
    + apply bind_Ok in Hr as (l'' & Hl'' & [= <-]).
      rewrite (IH _ Hl''). apply Permutation_swap.
    + by injection Hr as <-.
Qed.

Lemma sort_keyed_perm {A : Type} (l r : list (value * A)) :
  sort_keyed l = Ok r → r ≡ₚ l.
Proof.
  revert r. induction l as [|x l IH]; intros r; csimpl.
  - by intros [= <-].
  - intros (l'' & Hl'' & Hr)%bind_Ok.
    rewrite (insert_keyed_perm _ _ _ Hr). by rewrite (IH _ Hl'').
Qed.

Lemma sorted_by_name_perm (l d : list probe_result) :
  sorted_by_name l = Ok d → d ≡ₚ l ∧ Forall (λ r, is_Some (r !! "name")) l.
Proof.
  unfold sorted_by_name.
  intros (keyed & Hkeyed%mapM_Ok_inv & (s & Hs%sort_keyed_perm & [= <-])%bind_Ok)%bind_Ok.
  rewrite Hs. clear s Hs.
  induction Hkeyed as [|x y l keyed Hxy _ [IHperm IHall]]; [done|].
  unfold getitem in Hxy. destruct (x !! "name") as [k|] eqn:Hk; [|done].
  injection Hxy as <-. csimpl. split; [by rewrite IHperm|].
  constructor; [by eexists|done].
Qed.

(** X7.  What every report satisfies, on any results whatever: when
    [generate_report] returns, [total_apis] is the number of results,
    [successful] lies between 0 and [total_apis], [failed] is the
    difference, the detail list is a rearrangement of the results, each
    result has a status and a name, the time stamp is the reading of the
    clock and the base URL the one of the monitor; without a successful
    result the average is the integer 0, and without any result the rate
    is the text [0%]. *)
Theorem generate_report_invariants py self clock rep :
  generate_report py self clock = Ok rep →
  total_apis (summary rep) = Z.of_nat (length (results self)) ∧
  (0 ≤ successful (summary rep) ≤ total_apis (summary rep))%Z ∧
  failed (summary rep) = (total_apis (summary rep) - successful (summary rep))%Z ∧
  detailed_results rep ≡ₚ results self ∧
  Forall (λ r, is_Some (r !! "status") ∧ is_Some (r !! "name")) (results self) ∧
  execution_timestamp (summary rep) = clock ∧
  summary_base_url (summary rep) = base_url self ∧
  mode (summary rep) = None ∧
  (successful (summary rep) = 0%Z → average_response_time_ms (summary rep) = VInt 0) ∧
  (results self = [] → success_rate (summary rep) = "0%").
Proof.
  unfold generate_report, build_report.
  intros (statuses & Hstatuses%mapM_Ok_inv & Hrest)%bind_Ok.
  apply bind_Ok in Hrest as (avg & Havg & Hrest).
  apply bind_Ok in Hrest as (detailed & [Hperm Hnames]%sorted_by_name_perm & [= <-]).
  csimpl.
  pose proof (Forall2_length _ _ _ Hstatuses) as Hlen.
  pose proof (length_filter (λ v, eq_str v "SUCCESS" = true) statuses) as Hle.
  split_and!; try done; try lia.
  - apply Forall_and. split; [|done].
    clear -Hstatuses. induction Hstatuses as [|r v l k Hrv _ IH]; [done|].
    constructor; [|done]. unfold getitem in Hrv.
    destruct (r !! "status"); [by eexists|done].
  - intros Hzero. rewrite Hzero in Havg. csimpl in Havg. by injection Havg as <-.
  - by intros ->.
Qed.

(** The report of a monitor that holds no result. *)
Lemma generate_report_invariants_witness :
  ∃ rep,
    generate_report From_3_12 (monitor_with []) "2024-05-01T12:00:00" = Ok rep ∧
    total_apis (summary rep) = 0%Z ∧
    average_response_time_ms (summary rep) = VInt 0 ∧
    success_rate (summary rep) = "0%".
Proof.
  eexists. split; [reflexivity|].
  destruct (generate_report_invariants From_3_12 (monitor_with []) "2024-05-01T12:00:00" _ eq_refl)
    as (Htotal & _ & _ & _ & _ & _ & _ & _ & Havg & Hrate).
  split_and!; [exact Htotal|exact (Havg eq_refl)|exact (Hrate eq_refl)].
Defined.

(** X8.  A result without [status] makes [generate_report] raise
    [KeyError] for that key, whatever else the results hold: the counts
    are taken before anything else.  When every result has a status and
    none is a success, so that no average is taken, a result without
    [name] makes it raise [KeyError] for [name], from the sort. *)
Theorem generate_report_missing_key py self clock r :
  r ∈ results self →
  (r !! "status" = None → generate_report py self clock = Raise (KeyError "status")) ∧
  (r !! "name" = None →
   Forall (λ r', is_Some (r' !! "status") ∧ is_success r' = false) (results self) →
   generate_report py self clock = Raise (KeyError "name")).
Proof.
  intros Hin. unfold generate_report, build_report. split.
  - intros Hnone.
    rewrite (mapM_Raise (λ r, getitem r "status") (results self) (KeyError "status")); [done| |].
    + intros x _. unfold getitem. destruct (x !! "status"); eauto.
    + exists r. split; [done|]. unfold getitem. by rewrite Hnone.
  - intros Hnone Hall.
    rewrite (mapM_fmap _ (λ r, default (VInt 0) (r !! "status"))).
    2: { intros x Hx. rewrite Forall_forall in Hall.
         destruct (Hall x Hx) as [[v Hv] _]. unfold getitem. by rewrite Hv. }
    csimpl.
    assert (filter (λ v, eq_str v "SUCCESS" = true)
              ((λ r, default (VInt 0) (r !! "status")) <$> results self) = []) as ->.
    { clear -Hall. induction Hall as [|x l [[v Hv] Hx] _ IH]; [done|].
      csimpl. rewrite filter_cons, IH. unfold is_success in Hx. rewrite Hv in Hx.
      rewrite Hv. csimpl. by rewrite decide_False by congruence. }
    csimpl. unfold sorted_by_name.
    rewrite (mapM_Raise _ (results self) (KeyError "name")); [done| |].
    + intros x _. unfold getitem. destruct (x !! "name"); csimpl; eauto.
    + exists r. split; [done|]. unfold getitem. by rewrite Hnone.
Qed.

(** A result that has neither key. *)
Lemma generate_report_missing_key_witness :
  generate_report From_3_12 (monitor_with [timeout_result "A"; ∅]) "2024-05-01T12:00:00"
  = Raise (KeyError "status").
Proof.
  apply (generate_report_missing_key From_3_12 (monitor_with [timeout_result "A"; ∅])
           "2024-05-01T12:00:00" ∅).
  - apply elem_of_cons. right. apply elem_of_cons. left. reflexivity.
  - reflexivity.
Defined.

(** ** The base URL *)

Lemma prefix_app (t s : string) : String.prefix t (t +:+ s) = true.
Proof.
  induction t as [|c t IH]; csimpl; [by destruct s|].
  by destruct (ascii_dec c c).
Qed.

Lemma replace_go_skip (old new t s : string) :
  replace_go old new (String.length t) (t +:+ s) = replace_go old new 0 s.
Proof. induction t as [|c t IH]; csimpl; [by destruct s|done]. Qed.

Lemma replace_go_match (c : ascii) (old new s : string) :
  replace_go (String c old) new 0 (String c old +:+ s)
  = new +:+ replace_go (String c old) new 0 s.
Proof.
  change (String c old +:+ s) with (String c (old +:+ s)).
  cbn [replace_go].
  change (String c (old +:+ s)) with (String c old +:+ s).
  rewrite prefix_app.
  change (Nat.pred (String.length (String c old))) with (String.length old).
  by rewrite replace_go_skip.
Qed.

Lemma replace_go_fresh (c : ascii) (old new pre s : string) :
  mentions c pre = false →
  replace_go (String c old) new 0 (pre +:+ s)
  = pre +:+ replace_go (String c old) new 0 s.
Proof.
  induction pre as [|c' pre IH]; csimpl; [done|].
  destruct (Ascii.eqb_spec c c') as [|Hne]; [done|]. intros Hfresh.
  destruct (ascii_dec c c'); [done|]. by rewrite IH.
Qed.

Lemma replace_fresh (c : ascii) (old new s : string) :
  mentions c s = false → replace (String c old) new s = s.
Proof.
  intros Hfresh. unfold replace.
  induction s as [|c' s IH]; csimpl in *; [done|].
  destruct (Ascii.eqb_spec c c') as [|Hne]; [done|].
  destruct (ascii_dec c c'); [done|]. by rewrite IH.
Qed.

(** X9.  [set_domain] needs the key [base_url] and raises [KeyError]
    without it.  Otherwise it keeps the configuration and the results and
    sets the base URL to the template with the placeholder replaced by
    the domain: a template in which no brace occurs is taken as it is,
    and in a template made of a text, the placeholder and a text, where
    neither text holds an opening brace, the domain takes the place of
    the placeholder.  The domain is copied as it is, also when it holds
    the placeholder itself. *)
Theorem set_domain_substitutes self domain :
  (cfg_base_url (config self) = None →
   set_domain self domain = Raise (KeyError "base_url")) ∧
  (∀ template,
     cfg_base_url (config self) = Some template →
     mentions "{" template = false →
     set_domain self domain
     = Ok {| config := config self; results := results self;
             base_url := Some template |}) ∧
  (∀ pre post,
     cfg_base_url (config self) = Some (pre +:+ placeholder +:+ post) →
     mentions "{" pre = false →
     mentions "{" post = false →
     set_domain self domain
     = Ok {| config := config self; results := results self;
             base_url := Some (pre +:+ domain +:+ post) |}).
Proof.
  unfold set_domain. split_and!.
  - by intros ->.
  - intros template -> Hfresh. by rewrite replace_fresh.
  - intros pre post -> Hpre Hpost. do 3 f_equal. unfold replace, placeholder.
    rewrite replace_go_fresh by done. f_equal.
    rewrite replace_go_match. f_equal.
    by apply replace_fresh.
Qed.

(** The template of the sample configuration. *)
Lemma set_domain_substitutes_witness :
  set_domain (init sample_config) "example.com"
  = Ok {| config := sample_config; results := [];
          base_url := Some "https://example.com" |}.
Proof.
  destruct (set_domain_substitutes (init sample_config) "example.com") as (_ & _ & Hsubst).
  exact (Hsubst "https://" "" eq_refl eq_refl eq_refl).
Defined.

(** ** The demo on any list of simulated endpoints *)

Lemma simulate_all_app (self : Demo.DemoAPIMonitor) sims (i : nat)
    (apis : list Demo.demo_api) (acc : list probe_result) :
  Demo.simulate_all self sims i apis acc
  = acc ++ imap (λ j api, Demo.simulate_api_call self api (sims (i + j)%nat)) apis.
Proof.
  revert i acc. induction apis as [|api apis IH]; intros i acc; csimpl.
  - by rewrite app_nil_r.
  - rewrite IH, <- app_assoc, Nat.add_0_r. csimpl. do 2 f_equal.
    apply imap_ext. intros j api' _. csimpl. by rewrite Nat.add_succ_r.
Qed.

Lemma simulate_api_call_fields (self : Demo.DemoAPIMonitor) (api : Demo.demo_api) env :
  let r := Demo.simulate_api_call self api env in
  r !! "name" = Some (VStr (Demo.name api)) ∧
  r !! "method" = Some (VStr (Demo.method api)) ∧
  r !! "endpoint" = Some (VStr (Demo.endpoint api)) ∧
  r !! "url" = Some (VStr (Demo.base_url self +:+ Demo.endpoint api)) ∧
  if Demo.simulate_success api
  then r !! "status" = Some (VStr "SUCCESS") ∧
       r !! "status_code" = Some (VInt 200) ∧
       (∃ x, r !! "response_time_ms" = Some (VFloat x)) ∧
       r !! "error" = None
  else r !! "status" = Some (VStr "TIMEOUT") ∧
       r !! "status_code" = None ∧
       r !! "response_time_ms" = None ∧
       r !! "error" = Some (VStr "Request timed out - Demo simulation").
Proof.
  unfold Demo.simulate_api_call.
  destruct (Demo.response_time_range api) as [min_time max_time].
  destruct (Demo.simulate_success api); csimpl.
  - split_and!; try (by lookup_simpl). eexists. by lookup_simpl.
  - split_and!; by lookup_simpl.
Qed.

Lemma simulate_api_call_well_formed (self : Demo.DemoAPIMonitor) (api : Demo.demo_api) env :
  well_formed (Demo.simulate_api_call self api env) ∧
  printable (Demo.simulate_api_call self api env) ∧
  is_success (Demo.simulate_api_call self api env) = Demo.simulate_success api.
Proof.
  destruct (simulate_api_call_fields self api env) as (Hn & Hm & He & _ & Hcase).
  unfold well_formed, printable, is_success.
  destruct (Demo.simulate_success api).
  - destruct Hcase as (Hs & _ & [x Hx] & _). rewrite Hs, Hx.
    split_and!; try (by eexists). intros v [= <-]. by eexists.
  - destruct Hcase as (Hs & _ & Hx & _). rewrite Hs, Hx.
    split_and!; try done; by eexists.
Qed.

(** X10.  The demo makes its simulated calls one after the other: a run
    appends to the results already held one result for each entry of
    [demo_apis], in the order of the entries.  A simulated result has the
    name, the method and the endpoint of its entry, and its status is
    decided by the flag [simulate_success] alone, whatever the random
    draws: SUCCESS with code 200 and a latency when the flag is set,
    TIMEOUT with an error text and neither code nor latency when it is
    not. *)
Theorem demo_run_in_order (self : Demo.DemoAPIMonitor) sims :
  let run := Demo.run_all_apis self sims in
  run.2 = Demo.results self
          ++ imap (λ i api, Demo.simulate_api_call self api (sims i)) (Demo.demo_apis self) ∧
  Demo.results run.1 = run.2 ∧
  Demo.demo_apis run.1 = Demo.demo_apis self ∧
  ∀ i api, Demo.demo_apis self !! i = Some api →
    ∃ r, run.2 !! (length (Demo.results self) + i)%nat = Some r ∧
         name_of r = Demo.name api ∧
         r !! "method" = Some (VStr (Demo.method api)) ∧
         r !! "endpoint" = Some (VStr (Demo.endpoint api)) ∧
         status_of r = (if Demo.simulate_success api then "SUCCESS" else "TIMEOUT") ∧
         (is_Some (r !! "response_time_ms") ↔ Demo.simulate_success api = true) ∧
         (is_Some (r !! "error") ↔ Demo.simulate_success api = false).
Proof.
  unfold Demo.run_all_apis. csimpl. rewrite simulate_all_app. csimpl.
  split_and!; try done.
  intros i api Hi. exists (Demo.simulate_api_call self api (sims i)).
  destruct (simulate_api_call_fields self api (sims i)) as (Hn & Hm & He & _ & Hcase).
  split.
  { rewrite lookup_app_r by lia.
    replace (length (Demo.results self) + i - length (Demo.results self))%nat with i by lia.
    by rewrite list_lookup_imap, Hi. }
  unfold name_of, status_of. rewrite Hn.
  destruct (Demo.simulate_success api).
  - destruct Hcase as (-> & _ & [x ->] & ->). split_and!; try done;
      (split; [by intros [? ?]|done]).
  - destruct Hcase as (-> & _ & -> & ->). split_and!; try done;
      (split; [by intros [? ?]|done]).
Qed.

(** X11.  The report of the demo counts the flags: after a run on a demo
    monitor that held no result, [generate_report] returns a report whose
    [total_apis] is the number of entries of [demo_apis], whose
    [successful] is the number of entries with [simulate_success] set and
    whose [failed] is the number of the others, with [mode] set to DEMO
    and the demo's base URL, whatever the random draws and the clock. *)
Theorem demo_report_counts py (self : Demo.DemoAPIMonitor) sims clock :
  Demo.results self = [] →
  ∃ rep,
    Demo.generate_report py (Demo.run_all_apis self sims).1 clock = Ok rep ∧
    total_apis (summary rep) = Z.of_nat (length (Demo.demo_apis self)) ∧
    successful (summary rep)
    = Z.of_nat (length (filter (λ api, Demo.simulate_success api = true)
                          (Demo.demo_apis self))) ∧
    failed (summary rep)
    = Z.of_nat (length (filter (λ api, Demo.simulate_success api = false)
                          (Demo.demo_apis self))) ∧
    mode (summary rep) = Some "DEMO" ∧
    summary_base_url (summary rep) = Some (Demo.base_url self) ∧
    execution_timestamp (summary rep) = clock.
Proof.
  intros Hfresh.
  set (rs := imap (λ i api, Demo.simulate_api_call self api (sims i)) (Demo.demo_apis self)).
  assert ((Demo.run_all_apis self sims).1
          = {| Demo.results := rs; Demo.base_url := Demo.base_url self;
               Demo.demo_apis := Demo.demo_apis self |}) as ->.
  { unfold Demo.run_all_apis. csimpl. by rewrite simulate_all_app, Hfresh. }
  exists (report_of py rs (Some (Demo.base_url self)) clock (Some "DEMO")).
  split.
  { unfold Demo.generate_report. csimpl. apply build_report_of.
    apply Forall_forall. intros r Hr.
    apply elem_of_lookup_imap_1 in Hr as (i & api & -> & _).
    apply simulate_api_call_well_formed. }
  csimpl.
  assert (count_success rs
          = Z.of_nat (length (filter (λ api, Demo.simulate_success api = true)
                                (Demo.demo_apis self)))) as ->.
  { unfold count_success. rewrite (length_filter_fmap_true is_success).
    rewrite (length_filter_fmap_true Demo.simulate_success). subst rs.
    rewrite fmap_imap. do 3 f_equal.
    rewrite <- (imap_const Demo.simulate_success). apply imap_ext. intros i api _. csimpl.
    apply simulate_api_call_well_formed. }
  assert (length rs = length (Demo.demo_apis self)) as -> by apply length_imap.
  split_and!; try done. clear rs.
  induction (Demo.demo_apis self) as [|api apis IH]; [done|].
  rewrite !filter_cons.
  destruct (Demo.simulate_success api); repeat case_decide; try done; csimpl; lia.
Qed.

(** The demo as shipped: nine entries, one of them set to fail. *)
Lemma demo_report_counts_witness :
  ∃ rep,
    Demo.generate_report From_3_12 (Demo.run_all_apis Demo.init (λ _, Demo.SimEnv
        "2024-05-01T12:00:00" (λ lo hi, Float.of_Z lo) 500 1000
        "2024-05-01T12:00:00" 10)).1 "2024-05-01T12:00:09" = Ok rep ∧
    total_apis (summary rep) = 9%Z ∧
    successful (summary rep) = 8%Z ∧
    failed (summary rep) = 1%Z.
Proof.
  destruct (demo_report_counts From_3_12 Demo.init (λ _, Demo.SimEnv
        "2024-05-01T12:00:00" (λ lo hi, Float.of_Z lo) 500 1000
        "2024-05-01T12:00:00" 10) "2024-05-01T12:00:09" eq_refl)
    as (rep & Hrep & Ht & Hs & Hf & _).
  exists rep. split_and!; [exact Hrep|exact Ht|exact Hs|exact Hf].
Defined.

(** ** The order of completion and the report *)

Lemma probe_names self world (apis : list api_config) :
  Forall has_required_keys apis →
  name_of <$> imap (probe self world) apis = descriptor_name <$> apis.
Proof.
  intros Hkeys. rewrite fmap_imap, <- (imap_const descriptor_name).
  apply imap_ext. intros i api Hi. csimpl.
  rewrite Forall_lookup in Hkeys. pose proof (Hkeys i api Hi) as Hapi.
  destruct (Hapi) as ([n Hn] & _).
  unfold name_of, descriptor_name.
  by rewrite (probe_name self world i api n Hn Hapi), Hn.
Qed.

Lemma probe_status self world i api :
  has_required_keys api →
  ∃ s, probe self world i api !! "status" = Some (VStr s).
Proof.
  intros Hkeys. pose proof (probe_eq self world i api Hkeys) as Heq.
  destruct Hkeys as ([n Hn] & [m Hm] & [e He]).
  destruct (call_api_fields self api (world i) _ _ _ Hn Hm He) as (r & Hr & _ & Hcase).
  rewrite Heq in Hr. injection Hr as <-.
  destruct (send (world i) _) as [resp|e'].
  - destruct Hcase as (_ & _ & _ & _ & Hbody).
    destruct (json_body resp); destruct Hbody as (-> & _); by eexists.
  - destruct Hcase as (-> & _). by eexists.
Qed.

Lemma probe_is_success_status self world i api :
  has_required_keys api →
  is_success (probe self world i api)
  = String.eqb (status_of (probe self world i api)) "SUCCESS".
Proof.
  intros Hkeys. destruct (probe_status self world i api Hkeys) as [s Hs].
  unfold is_success, status_of. by rewrite Hs.
Qed.

Lemma probe_outline self world i api :
  has_required_keys api →
  outline (probe self world i api)
  = (descriptor_name api, status_of (probe self world i api)).
Proof.
  intros Hkeys. unfold outline. f_equal.
  pose proof Hkeys as ([n Hn] & _).
  unfold name_of, descriptor_name.
  by rewrite (probe_name self world i api n Hn Hkeys), Hn.
Qed.

Lemma NoDup_fst_eq {A B : Type} (l : list (A * B)) (x y : A * B) :
  NoDup l.*1 → x ∈ l → y ∈ l → x.1 = y.1 → x = y.
Proof.
  intros Hnodup Hx Hy Hxy.
  apply list_elem_of_lookup in Hx as [i Hi]. apply list_elem_of_lookup in Hy as [j Hj].
  assert (i = j) as ->.
  { apply (NoDup_lookup _ _ _ x.1 Hnodup).
    - by rewrite list_lookup_fmap, Hi.
    - by rewrite list_lookup_fmap, Hj, Hxy. }
  congruence.
Qed.

(** Results with pairwise distinct names appear in the detail list in an
    order, and with names and statuses, that depend on their names and
    statuses only. *)
Lemma sort_by_name_outline (l l' : list probe_result) :
  NoDup (name_of <$> l) →
  outline <$> l ≡ₚ outline <$> l' →
  outline <$> sort_by_name l = outline <$> sort_by_name l'.
Proof.
  intros Hnodup Hperm.
  assert (∀ k, StronglySorted key_le (outline <$> sort_by_name k)) as Hsorted.
  { intros k. apply (StronglySorted_fmap outline name_le); [|apply sort_by_name_sorted].
    by intros a b Hab. }
  apply (StronglySorted_unique_strong key_le); [|apply Hsorted..|].
  - intros x y Hx Hy Hxy Hyx.
    apply (NoDup_fst_eq (outline <$> l)).
    + by rewrite <- list_fmap_compose.
    + by rewrite sort_by_name_perm in Hx.
    + by rewrite sort_by_name_perm, <- Hperm in Hy.
    + by apply (anti_symm String.le).
  - by rewrite !sort_by_name_perm.
Qed.

Lemma count_success_imap {A : Type} (f g : nat → A → probe_result) (l : list A) :
  (∀ i x, l !! i = Some x → is_success (f i x) = is_success (g i x)) →
  count_success (imap f l) = count_success (imap g l).
Proof.
  intros Hfg. unfold count_success.
  rewrite (length_filter_fmap_true is_success (imap f l)).
  rewrite (length_filter_fmap_true is_success (imap g l)).
  rewrite !fmap_imap. do 3 f_equal. apply imap_ext. intros i x Hi. csimpl. by apply Hfg.
Qed.

(** X13.  When the descriptors have pairwise distinct names, what a run
    reports does not depend on the order in which the probes finish, on
    the number of workers, on the clocks or on the interpreter: two runs
    of a fresh monitor in which every probe ends with the same status
    give reports with the same counts and the same success rate, and
    detail lists that name the same endpoints in the same order with the
    same statuses.  The time stamps and latencies of the entries are
    those of each run; when the probes of the two runs also read the
    same clocks and receive the same answers, the detail lists are equal
    entry by entry.  (The average is left out: it depends on the
    latencies of the run.) *)
Theorem report_independent_of_schedule py py' self apis workers workers' world world'
    sched sched' clock clock' :
  cfg_monitoring_apis (config self) = Some apis →
  Forall has_required_keys apis →
  NoDup (descriptor_name <$> apis) →
  results self = [] →
  (0 < workers)%Z →
  (0 < workers')%Z →
  (∀ i api, apis !! i = Some api →
     status_of (probe self world i api) = status_of (probe self world' i api)) →
  ∃ m rs rep m' rs' rep',
    run_all_apis self workers world sched = Ok (m, rs) ∧
    run_all_apis self workers' world' sched' = Ok (m', rs') ∧
    generate_report py m clock = Ok rep ∧
    generate_report py' m' clock' = Ok rep' ∧
    total_apis (summary rep) = total_apis (summary rep') ∧
    successful (summary rep) = successful (summary rep') ∧
    failed (summary rep) = failed (summary rep') ∧
    success_rate (summary rep) = success_rate (summary rep') ∧
    outline <$> detailed_results rep = outline <$> detailed_results rep' ∧
    ((∀ i, world' i = world i) → detailed_results rep = detailed_results rep').
Proof.
  intros Hapis Hkeys Hnodup Hfresh Hw Hw' Hstatus.
  destruct (run_then_report py self apis workers world sched clock Hapis Hkeys Hfresh Hw)
    as (m & rs & Hrun & _ & _ & Hperm & _ & Hrep).
  destruct (run_then_report py' self apis workers' world' sched' clock' Hapis Hkeys Hfresh
              Hw') as (m' & rs' & Hrun' & _ & _ & Hperm' & _ & Hrep').
  exists m, rs, (report_of py rs (base_url self) clock None),
         m', rs', (report_of py' rs' (base_url self) clock' None).
  assert (length rs = length rs') as Hlen by (by rewrite Hperm, Hperm', !length_imap).
  assert (count_success rs = count_success rs') as Hcount.
  { unfold count_success. rewrite Hperm, Hperm'. apply count_success_imap.
    intros i api Hi. rewrite Forall_lookup in Hkeys.
    rewrite !probe_is_success_status by (by apply (Hkeys i)).
    by rewrite (Hstatus i api Hi). }
  assert (NoDup (name_of <$> rs)) as Hnames by (by rewrite Hperm, probe_names).
  split_and!; try done; csimpl.
  - by rewrite Hlen.
  - by rewrite Hlen, Hcount.
  - by rewrite Hlen, Hcount.
  - apply sort_by_name_outline; [done|].
    rewrite Hperm, Hperm', !fmap_imap. apply reflexive_eq, imap_ext.
    intros i api Hi. csimpl. rewrite Forall_lookup in Hkeys.
    rewrite !probe_outline by (by apply (Hkeys i)).
    by rewrite (Hstatus i api Hi).
  - intros Hworld. apply sort_by_name_order_free; [done|].
    rewrite Hperm, Hperm'. apply reflexive_eq, imap_ext.
    intros i api Hi. unfold probe. by rewrite Hworld.
Qed.

(** The sample run with three workers and, a day later, with one. *)
Lemma report_independent_of_schedule_witness :
  ∃ m rs rep m' rs' rep',
    run_all_apis sample_monitor 3 sample_world [8; 8; 0]%nat = Ok (m, rs) ∧
    run_all_apis sample_monitor 1 later_world [] = Ok (m', rs') ∧
    generate_report From_3_12 m "2024-05-01T12:00:09" = Ok rep ∧
    generate_report Before_3_12 m' "2024-05-02T08:30:09" = Ok rep' ∧
    success_rate (summary rep) = success_rate (summary rep') ∧
    outline <$> detailed_results rep = outline <$> detailed_results rep'.
Proof.
  assert (∀ i api, sample_apis !! i = Some api →
            status_of (probe sample_monitor sample_world i api)
            = status_of (probe sample_monitor later_world i api)) as Hstatus.
  { intros i api Hi.
    do 9 (destruct i as [|i]; [injection Hi as <-; vm_compute; reflexivity|]).
    discriminate Hi. }
  assert (NoDup (descriptor_name <$> sample_apis)) as Hnodup.
  { apply (bool_decide_unpack (NoDup (descriptor_name <$> sample_apis))).
    vm_compute. exact I. }
  destruct (report_independent_of_schedule From_3_12 Before_3_12 sample_monitor
              sample_apis 3 1 sample_world later_world [8; 8; 0]%nat []
              "2024-05-01T12:00:09" "2024-05-02T08:30:09" eq_refl sample_apis_have_keys
              Hnodup eq_refl eq_refl eq_refl Hstatus)
    as (m & rs & rep & m' & rs' & rep' & Hrun & Hrun' & Hrep & Hrep' & _ & _ & _ & Hrate
        & Hd & _).
  exists m, rs, rep, m', rs', rep'. split_and!; assumption.
Defined.

(** ** The mail sender on the report of a run *)

Lemma format_email_body_Ok (report : Report) :
  Forall printable (detailed_results report) →
  Email.format_email_body report = Ok ().
Proof.
  unfold Email.format_email_body.
  induction (detailed_results report) as [|r l IH]; intros Hall; [done|].
  apply Forall_cons in Hall as [([? Hs] & [? Hn] & [? Hm] & _) Hall].
  csimpl.
  assert (∀ k v, r !! k = Some v → getitem r k = Ok v) as Hget.
  { intros k v Hk. unfold getitem. by rewrite Hk. }
  rewrite (Hget _ _ Hs), (Hget _ _ Hn), (Hget _ _ Hm). csimpl.
  specialize (IH Hall). by destruct (mapM _ l).
Qed.

(** X14.  The mail sender takes every report that the runner writes: on
    the report of a run on descriptors with their keys, the body is
    rendered without a missing key, the subject announces failures
    exactly when some probe did not complete, and the exit status is
    that of the delivery alone, 0 when the mail is accepted and 1 when it
    is not, however many probes failed. *)
Theorem mail_of_run py self apis world rs clock file env subject :
  Forall has_required_keys apis →
  rs ≡ₚ imap (probe self world) apis →
  Email.read_report env file = Ok (report_of py rs (base_url self) clock None) →
  Email.subject env = Ok subject →
  let failures := (Z.of_nat (length apis) - count_completed self world apis)%Z in
  Email.format_email_body (report_of py rs (base_url self) clock None) = Ok () ∧
  Email.main file env
  = if Email.smtp_delivers env (subject_of failures subject) then 0%Z else 1%Z.
Proof.
  intros Hkeys Hperm Hread Hsubject failures.
  assert (Email.format_email_body (report_of py rs (base_url self) clock None) = Ok ())
    as Hbody.
  { apply format_email_body_Ok. csimpl.
    rewrite sort_by_name_perm, Hperm. apply Forall_forall. intros r Hr.
    apply elem_of_lookup_imap_1 in Hr as (i & api & -> & Hi).
    apply probe_printable. rewrite Forall_lookup in Hkeys. by apply (Hkeys i). }
  split; [done|].
  unfold Email.main. rewrite Hread, Hsubject. csimpl. rewrite Hbody. csimpl.
  assert (count_success rs = count_completed self world apis) as ->.
  { unfold count_success. rewrite Hperm. by apply count_success_probes. }
  assert (length rs = length apis) as -> by (by rewrite Hperm, length_imap).
  reflexivity.
Qed.

(** The report of the sample run, in which one probe timed out, is
    mailed and the sender ends with status 0. *)
Lemma mail_of_run_witness :
  Email.main "monitoring_report.json" mailing_env = 0%Z.
Proof.
  destruct (mail_of_run From_3_12 sample_monitor sample_apis sample_world
              (imap (probe sample_monitor sample_world) sample_apis)
              "2024-05-01T12:00:09" "monitoring_report.json" mailing_env
              "CPVS Monitoring Report - 2024-05-01 12:00"
              sample_apis_have_keys (reflexivity _) eq_refl eq_refl) as [_ Hmain].
  rewrite Hmain. reflexivity.
Defined.

(** ** The HTTP status *)

(** X15.  The runner never looks at the HTTP status of an answer.  When
    every probe is answered, with any status code whatever, and the body
    of each answer can be read (as JSON or as text), every probe counts
    as a success and [main] ends with status 0: an endpoint that answers
    500 does not make the run fail. *)
Theorem http_status_not_inspected args env cfg template apis (codes : nat → Z) :
  read_config env (arg_config args) = Ok cfg →
  cfg_base_url cfg = Some template →
  cfg_monitoring_apis cfg = Some apis →
  Forall has_required_keys apis →
  (0 < arg_workers args)%Z →
  (∀ report, write_report env (arg_output args) report = Ok ()) →
  console env = Ok () →
  (∀ i api, apis !! i = Some api →
     answered_with (codes i)
       (answer (monitor_of cfg template (arg_domain args)) (world env) i api)) →
  main args env = 0%Z ∧
  ∀ i api, apis !! i = Some api →
    probe (monitor_of cfg template (arg_domain args)) (world env) i api !! "status"
      = Some (VStr "SUCCESS") ∧
    probe (monitor_of cfg template (arg_domain args)) (world env) i api !! "status_code"
      = Some (VInt (codes i)).
Proof.
  intros Hread Hbase Hapis Hkeys Hw Hwrite Hconsole Hanswered. split.
  - apply (main_exit_by_completion args env cfg template apis); try done.
    intros i api Hi. unfold completed.
    destruct (Hanswered i api Hi) as (resp & -> & _ & Hbody). csimpl.
    destruct (json_body resp) as [j| |e] eqn:Hj; [done..|]. by destruct (Hbody e).
  - intros i api Hi.
    rewrite Forall_lookup in Hkeys. pose proof (Hkeys i api Hi) as Hapi.
    pose proof (probe_eq (monitor_of cfg template (arg_domain args)) (world env) i api Hapi)
      as Heq.
    destruct Hapi as ([n Hn] & [m Hm] & [e He]).
    destruct (call_api_fields (monitor_of cfg template (arg_domain args)) api
                (world env i) _ _ _ Hn Hm He) as (r & Hr & _ & Hcase).
    rewrite Heq in Hr. injection Hr as <-.
    destruct (Hanswered i api Hi) as (resp & Hresp & Hcode & Hbody).
    unfold answer in Hresp. rewrite Hm, He in Hresp. csimpl in Hresp.
    rewrite Hresp in Hcase. destruct Hcase as (Hstatus & _ & _ & _ & Hcase).
    rewrite Hstatus, Hcode. split; [|done].
    destruct (json_body resp) as [j| |e'] eqn:Hj; [by destruct Hcase..|].
    by destruct (Hbody e').
Qed.

(** Every endpoint of the sample configuration answers 500. *)
Lemma http_status_not_inspected_witness :
  main sample_args (sample_env (λ _, env_answering (Ok error_response))) = 0%Z.
Proof.
  apply (http_status_not_inspected sample_args
           (sample_env (λ _, env_answering (Ok error_response)))
           sample_config "https://{{cpvs.services.domain}}" sample_apis (λ _, 500%Z)
           eq_refl eq_refl eq_refl sample_apis_have_keys eq_refl (λ _, eq_refl) eq_refl).
  intros i api Hi. exists error_response. split_and!; [reflexivity|reflexivity|].
  intros e. discriminate.
Defined.

(** ** The detail list is determined by its three properties *)

Lemma name_le_head (x : probe_result) (l : list probe_result) (y : probe_result) :
  StronglySorted name_le (x :: l) → y ∈ x :: l → name_le x y.
Proof.
  intros [Hall _]%StronglySorted_cons Hy.
  apply elem_of_cons in Hy as [->|Hy].
  - unfold name_le. reflexivity.
  - rewrite Forall_forall in Hall. by apply Hall.
Qed.

Lemma stable_sorted_unique (l1 l2 : list probe_result) :
  l1 ≡ₚ l2 →
  StronglySorted name_le l1 →
  StronglySorted name_le l2 →
  (∀ k, filter (λ r, name_of r = k) l1 = filter (λ r, name_of r = k) l2) →
  l1 = l2.
Proof.
  revert l2. induction l1 as [|x l1 IH]; intros l2 Hperm Hs1 Hs2 Hfilter.
  - by apply Permutation_nil_l in Hperm.
  - destruct l2 as [|y l2]; [by apply Permutation_nil_r in Hperm|].
    assert (name_of x = name_of y) as Hname.
    { apply (anti_symm String.le).
      - apply (name_le_head x l1 y Hs1). rewrite Hperm. by left.
      - apply (name_le_head y l2 x Hs2). rewrite <- Hperm. by left. }
    pose proof (Hfilter (name_of x)) as Hx.
    rewrite !filter_cons, decide_True in Hx by done.
    rewrite decide_True in Hx by done. injection Hx as <- _.
    f_equal. apply IH.
    + by apply (Permutation_cons_inv Hperm).
    + by apply StronglySorted_cons in Hs1 as [_ ?].
    + by apply StronglySorted_cons in Hs2 as [_ ?].
    + intros k. specialize (Hfilter k). rewrite !filter_cons in Hfilter.
      case_decide; [by injection Hfilter|done].
Qed.

(** X16.  On results that have a status and a name, [sorted] returns the
    one list that is a rearrangement of the results, is ordered by name
    and keeps results of equal name in their order: these three
    properties leave no choice, so that the detail list of the report
    does not depend on the sorting algorithm of the interpreter. *)
Theorem detail_list_determined py self clock rep (d : list probe_result) :
  Forall well_formed (results self) →
  generate_report py self clock = Ok rep →
  d ≡ₚ results self →
  StronglySorted name_le d →
  (∀ k, filter (λ r, name_of r = k) d = filter (λ r, name_of r = k) (results self)) →
  detailed_results rep = d.
Proof.
  intros Hwf Hrep Hperm Hsorted Hstable.
  rewrite (generate_report_of py self clock Hwf) in Hrep. injection Hrep as <-. csimpl.
  apply stable_sorted_unique.
  - by rewrite sort_by_name_perm, Hperm.
  - apply sort_by_name_sorted.
  - done.
  - intros k. by rewrite sort_by_name_stable, Hstable.
Qed.

(** Three results that arrive in the order C, A, B. *)
Lemma detail_list_determined_witness :
  ∃ rep,
    generate_report From_3_12
      (monitor_with [success_result "C" (Float.of_Z 3); timeout_result "A";
                     success_result "B" (Float.of_Z 2)])
      "2024-05-01T12:00:01" = Ok rep ∧
    detailed_results rep
    = [timeout_result "A"; success_result "B" (Float.of_Z 2);
       success_result "C" (Float.of_Z 3)].
Proof.
  eexists. split; [apply generate_report_of; sample_well_formed|].
  apply (detail_list_determined From_3_12
           (monitor_with [success_result "C" (Float.of_Z 3); timeout_result "A";
                          success_result "B" (Float.of_Z 2)])
           "2024-05-01T12:00:01").
  - sample_well_formed.
  - apply generate_report_of. sample_well_formed.
  - apply (Permutation_app_comm [_; _] [_]).
  - assert (name_le (timeout_result "A") (success_result "B" (Float.of_Z 2))) as Hab
      by (by vm_compute).
    assert (name_le (timeout_result "A") (success_result "C" (Float.of_Z 3))) as Hac
      by (by vm_compute).
    assert (name_le (success_result "B" (Float.of_Z 2)) (success_result "C" (Float.of_Z 3)))
      as Hbc by (by vm_compute).
    repeat constructor; assumption.
  - intros k. unfold monitor_with. cbn [results].
    rewrite !filter_cons, !filter_nil.
    change (name_of (timeout_result "A")) with "A".
    change (name_of (success_result "B" (Float.of_Z 2))) with "B".
    change (name_of (success_result "C" (Float.of_Z 3))) with "C".
    repeat case_decide; congruence.
Defined.
